(** * Angular components: test harnesses, fake events, checkbox and
    the element-selector migration, embedded shallowly.

  Every definition below is a transcription of a TypeScript function
  of the repository.  JavaScript strings are sequences of UTF-16 code
  units, sets are [gset], property bags are [gmap], and [async]
  functions live in a small state-and-rejection monad over the rendered
  document and the log of calls sent to the browser. *)

From stdpp Require Import gmap strings list fin_maps.
From Stdlib Require Import ZArith NArith Ascii.
From Stdlib Require DecimalN.

Open Scope N_scope.

(* ===================================================================== *)
(** ** JavaScript strings *)
(* ===================================================================== *)

Module JsString.

(** A JavaScript string: its UTF-16 code units. *)
Abbreviation jsstr := (list N).

(** A literal of the source, given by its (ASCII) characters. *)
Fixpoint js (s : string) : jsstr :=
  match s with
  | EmptyString => []
  | String c rest => N_of_ascii c :: js rest
  end.

(** The characters matched by the regular-expression class [\s]:
    ECMAScript WhiteSpace and LineTerminator code points. *)
Definition isWhiteSpace (c : N) : bool :=
  (c =? 9) || (c =? 10) || (c =? 11) || (c =? 12) || (c =? 13)
  || (c =? 32) || (c =? 160) || (c =? 5760)
  || ((8192 <=? c) && (c <=? 8202))
  || (c =? 8232) || (c =? 8233) || (c =? 8239) || (c =? 8287)
  || (c =? 12288) || (c =? 65279).

(** [split_ws_from cur inRun s]: the loop behind [s.split(/\s+/)].
    [cur] is the piece being read, reversed; [inRun] tells that the
    previous code unit belonged to the separator being skipped.  A
    separator is a maximal run of white space, and the piece before it
    is emitted when the run starts, also when that piece is empty. *)
Fixpoint split_ws_from (cur : jsstr) (inRun : bool) (s : jsstr) : list jsstr :=
  match s with
  | [] => [rev cur]
  | c :: rest =>
      if isWhiteSpace c then
        if inRun then split_ws_from [] true rest
        else rev cur :: split_ws_from [] true rest
      else split_ws_from (c :: cur) false rest
  end.

(** [s.split(/\s+/)]. *)
Definition split_ws (s : jsstr) : list jsstr := split_ws_from [] false s.

(** Truthiness of a string: only the empty string is falsy. *)
Definition truthy (s : jsstr) : bool :=
  match s with [] => false | _ :: _ => true end.

(** [a || b] on a possibly-null string. *)
Definition or_else (a : option jsstr) (b : jsstr) : jsstr :=
  match a with
  | Some s => if truthy s then s else b
  | None => b
  end.

(** Template-literal interpolation [`${v}`] of a string-or-null. *)
Definition interpolate (v : option jsstr) : jsstr :=
  match v with
  | Some s => s
  | None => js "null"
  end.

(** A class token of [s], said without [split]: a non-empty run of [s]
    free of white space that is bounded, on each side, by white space or
    by the end of the string. *)
Definition no_white_space (s : jsstr) : Prop :=
  Forall (fun c => isWhiteSpace c = false) s.

Definition boundary (c : option N) : bool :=
  match c with
  | None => true
  | Some c => isWhiteSpace c
  end.

Definition token (s name : jsstr) : Prop :=
  name ≠ [] ∧ no_white_space name ∧
  ∃ pre post, s = pre ++ name ++ post
              ∧ boundary (last pre) = true ∧ boundary (head post) = true.

End JsString.
Import JsString.

(* ===================================================================== *)
(** ** [JSON.stringify] on strings *)
(* ===================================================================== *)

Module Json.

(** A code point of a string as [StringToCodePoints] reads it: a leading
    surrogate directly followed by a trailing one is one (supplementary)
    code point, every other code unit is one by itself. *)
Inductive CodePoint :=
| Supplementary (lead trail : N)
| Single (c : N).

Definition is_leading_surrogate (c : N) : bool := (55296 <=? c) && (c <=? 56319).

Definition is_trailing_surrogate (c : N) : bool := (56320 <=? c) && (c <=? 57343).

Fixpoint StringToCodePoints (s : jsstr) : list CodePoint :=
  match s with
  | [] => []
  | c :: rest =>
      match rest with
      | d :: rest' =>
          if is_leading_surrogate c && is_trailing_surrogate d
          then Supplementary c d :: StringToCodePoints rest'
          else Single c :: StringToCodePoints rest
      | [] => [Single c]
      end
  end.

(** A lowercase hexadecimal digit. *)
Definition hex_digit (n : N) : N := if n <? 10 then 48 + n else 87 + n.

(** [UnicodeEscape(C)]: a backslash, [u] and four hexadecimal digits. *)
Definition UnicodeEscape (c : N) : jsstr :=
  [92; 117; hex_digit (c / 4096 mod 16); hex_digit (c / 256 mod 16);
   hex_digit (c / 16 mod 16); hex_digit (c mod 16)].

(** One code point inside [QuoteJSONString]: the short escapes of
    backspace, tab, line feed, form feed, carriage return, the double
    quote and the backslash; [UnicodeEscape] for the other control
    characters and for a surrogate that stands alone; the code point
    itself otherwise. *)
Definition quote_code_point (cp : CodePoint) : jsstr :=
  match cp with
  | Supplementary lead trail => [lead; trail]
  | Single c =>
      if c =? 8 then [92; 98]
      else if c =? 9 then [92; 116]
      else if c =? 10 then [92; 110]
      else if c =? 12 then [92; 102]
      else if c =? 13 then [92; 114]
      else if c =? 34 then [92; 34]
      else if c =? 92 then [92; 92]
      else if (c <? 32) || is_leading_surrogate c || is_trailing_surrogate c
      then UnicodeEscape c
      else [c]
  end.

(** [QuoteJSONString(value)]. *)
Definition QuoteJSONString (value : jsstr) : jsstr :=
  [34] ++ flat_map quote_code_point (StringToCodePoints value) ++ [34].

(** A supplementary code point is made of a leading and a trailing
    surrogate. *)
Definition well_formed (cp : CodePoint) : Prop :=
  match cp with
  | Supplementary lead trail =>
      is_leading_surrogate lead = true /\ is_trailing_surrogate trail = true
  | Single _ => True
  end.

(** The code units of a code point, and the value of a hexadecimal
    digit: what reading a quoted string back needs. *)
Definition code_units (cp : CodePoint) : jsstr :=
  match cp with
  | Supplementary lead trail => [lead; trail]
  | Single c => [c]
  end.

Definition hex_value (d : N) : N := if d <? 58 then d - 48 else d - 87.

(** The first code point of a quoted text and what follows it. *)
Definition unquote_code_point (quoted : jsstr) : option (CodePoint * jsstr) :=
  match quoted with
  | [] => None
  | c :: rest =>
      if c =? 92 then
        match rest with
        | e :: rest' =>
            if e =? 98 then Some (Single 8, rest')
            else if e =? 116 then Some (Single 9, rest')
            else if e =? 110 then Some (Single 10, rest')
            else if e =? 102 then Some (Single 12, rest')
            else if e =? 114 then Some (Single 13, rest')
            else if e =? 34 then Some (Single 34, rest')
            else if e =? 92 then Some (Single 92, rest')
            else
              match rest' with
              | h3 :: h2 :: h1 :: h0 :: rest'' =>
                  Some (Single (4096 * hex_value h3 + 256 * hex_value h2
                                + 16 * hex_value h1 + hex_value h0), rest'')
              | _ => None
              end
        | [] => None
        end
      else
        match rest with
        | d :: rest' =>
            if is_leading_surrogate c && is_trailing_surrogate d
            then Some (Supplementary c d, rest')
            else Some (Single c, rest)
        | [] => Some (Single c, [])
        end
  end.

End Json.

(* ===================================================================== *)
(** ** Rendered elements *)
(* ===================================================================== *)

Module Dom.

(** The state of one rendered element as a test backend can read it. *)
Record Element := mkElement {
  el_node : nat;                       (* identity of the node *)
  el_attributes : gmap string jsstr;   (* content attributes *)
  el_value : jsstr;                    (* the [value] property *)
  el_text : jsstr                      (* the rendered text *)
}.

(** [arguments[0].getAttribute(arguments[1])]: the value or [null]. *)
Definition getAttribute (e : Element) (name : string) : option jsstr :=
  el_attributes e !! name.

End Dom.
Import Dom.

(* ===================================================================== *)
(** ** cdk/testing/protractor/protractor-element.ts *)
(* ===================================================================== *)

Module ProtractorElement.

(** [hasClass(name)]:
    [const classes = (await this.getAttribute('class')) || '';]
    [return new Set(classes.split(/\s+/).filter(c => c)).has(name);] *)
Definition classSet (e : Element) : gset jsstr :=
  let classes := or_else (getAttribute e "class") [] in
  list_to_set (List.filter truthy (split_ws classes)).

Definition hasClass (e : Element) (name : jsstr) : bool :=
  bool_decide (name ∈ classSet e).

(** The claim's reading of [hasClass]: membership in the set of the
    pieces [split] returns, nothing removed. *)
Definition hasClass_unfiltered (e : Element) (name : jsstr) : bool :=
  let classes := or_else (getAttribute e "class") [] in
  bool_decide (name ∈ (list_to_set (split_ws classes) : gset jsstr)).

(** [selectOptions] drives the browser; what it sends is recorded. *)
Inductive Key := CONTROL | ALT | SHIFT | META.

#[global] Instance Key_eq_dec : EqDecision Key.
Proof. solve_decision. Defined.

Inductive BrowserAction :=
| SetInputValue (value : jsstr)     (* arguments[0].value = arguments[1] *)
| KeyDown (k : Key)                 (* browser.actions().keyDown(k).perform() *)
| OptionClick (i : nat)             (* options[i].click() *)
| KeyUp (k : Key).                  (* browser.actions().keyUp(k).perform() *)

(** An [ElementFinder] on a [select]: [n_options] is the length of
    [this.element.all(by.css('option'))]. *)
Record ElementFinder := mkFinder {
  finder_element : Element;
  n_options : nat
}.

Definition setInputValue (value : jsstr) (log : list BrowserAction) : list BrowserAction :=
  log ++ [SetInputValue value].

(** The body of [for (let i = 0; i < options.length; i++)], run for the
    positions of [idx] in turn. *)
Fixpoint selectOptions_loop (indexes : gset Z) (idx : list nat)
  (log : list BrowserAction) : list BrowserAction :=
  match idx with
  | [] => log
  | i :: rest =>
      if bool_decide (Z.of_nat i ∈ indexes) then
        selectOptions_loop indexes rest
          (log ++ [KeyDown CONTROL] ++ [OptionClick i] ++ [KeyUp CONTROL])
      else selectOptions_loop indexes rest log
  end.

(** [selectOptions(...optionIndexes)]. *)
Definition selectOptions (this : ElementFinder) (optionIndexes : list Z)
  (log : list BrowserAction) : list BrowserAction :=
  let options_length := n_options this in
  let indexes : gset Z := list_to_set optionIndexes in
  if bool_decide (options_length ≠ 0%nat) && bool_decide (size indexes ≠ 0%nat) then
    let log := setInputValue [] log in
    selectOptions_loop indexes (seq 0 options_length) log
  else log.

(** What the loop sends for option [i]. *)
Definition control_click (i : nat) : list BrowserAction :=
  [KeyDown CONTROL; OptionClick i; KeyUp CONTROL].

(** Reading a log back: [clicks_with k down log] tells that key [k] is
    down at every option click of [log], [down] being its state before. *)
Fixpoint clicks_with (k : Key) (down : bool) (log : list BrowserAction) : bool :=
  match log with
  | [] => true
  | KeyDown k' :: rest =>
      clicks_with k (if bool_decide (k' = k) then true else down) rest
  | KeyUp k' :: rest =>
      clicks_with k (if bool_decide (k' = k) then false else down) rest
  | OptionClick _ :: rest => down && clicks_with k down rest
  | SetInputValue _ :: rest => clicks_with k down rest
  end.

Definition clicked (log : list BrowserAction) : list nat :=
  omap (fun a => match a with OptionClick i => Some i | _ => None end) log.

End ProtractorElement.

(* ===================================================================== *)
(** ** [async] functions over the rendered document *)
(* ===================================================================== *)

Module Async.

(** The document as one harness sees it: its host element and every
    element of the document, in document order. *)
Record Document := mkDocument {
  host_element : Element;
  elements : list Element
}.

(** The calls a harness makes on element handles and locators. *)
Inductive Call :=
| CallGetAttribute (node : nat) (name : string)
| CallGetProperty (node : nat) (name : string)
| CallHasClass (node : nat) (name : jsstr)
| CallText (node : nat)
| CallFocus (node : nat)
| CallClick (node : nat)
| CallLocate (selector : jsstr)
| CallLocateAll (ancestor : option jsstr).

Record World := mkWorld {
  doc : Document;
  calls : list Call          (* oldest first *)
}.

Record JsError := mkError { message : jsstr }.

Inductive Outcome (A : Type) :=
| Resolved (a : A)
| Rejected (e : JsError).
Arguments Resolved {A} a.
Arguments Rejected {A} e.

(** A promise-returning function: run on a world, it resolves or rejects
    and leaves a world behind. *)
Definition Async (A : Type) : Type := World -> Outcome A * World.

Definition ret {A} (a : A) : Async A := fun w => (Resolved a, w).

Definition throw {A} (e : JsError) : Async A := fun w => (Rejected e, w).

(** [await m], then [k]. *)
Definition bind {A B} (m : Async A) (k : A -> Async B) : Async B :=
  fun w =>
    match m w with
    | (Resolved a, w') => k a w'
    | (Rejected e, w') => (Rejected e, w')
    end.

(** A read: recorded, the document is left as it is. *)
Definition query (c : Call) : Async unit :=
  fun w => (Resolved tt, mkWorld (doc w) (calls w ++ [c])).

Definition current_document : Async Document :=
  fun w => (Resolved (doc w), w).

End Async.
Import Async.

Declare Scope async_scope.
Delimit Scope async_scope with async.
Notation "'let*' x ':=' m 'in' k" := (bind m (fun x => k))
  (at level 10, x name, m at level 100, k at level 200) : async_scope.
Notation "m ';;' k" := (bind m (fun _ => k))
  (at level 100, k at level 200, right associativity) : async_scope.
Open Scope async_scope.

(* ===================================================================== *)
(** ** cdk/testing: element handles, locators, predicates *)
(* ===================================================================== *)

Module Harness.

(** A name every CSS engine reads as an identifier: ASCII letters,
    digits, [-] and [_], the first a letter or [_]. *)
Definition is_name_start (c : N) : bool :=
  ((65 <=? c) && (c <=? 90)) || ((97 <=? c) && (c <=? 122)) || (c =? 95).

Definition is_name_char (c : N) : bool :=
  is_name_start c || ((48 <=? c) && (c <=? 57)) || (c =? 45).

Definition css_name (name : jsstr) : bool :=
  match name with
  | [] => false
  | c :: rest => is_name_start c && forallb is_name_char rest
  end.

(** What the execution backend and the application under test supply:
    the CSS engine, and how the application re-renders the document when
    the test acts on a node.  Of the CSS engine: [selectorError] is the
    [SyntaxError] with which [querySelectorAll] and [matches] answer a
    selector that is no valid CSS, [None] for a valid one, and
    [matchesSelector] tells which elements a valid selector matches.  Of
    the CSS grammar the class records what the harnesses rest on: [.name]
    and [#name] are selectors, [#] alone is none. *)
Class Backend := {
  selectorError : jsstr -> option JsError;
  matchesSelector : jsstr -> Element -> bool;
  react : Call -> Document -> Document;
  class_selector_parses :
    forall name, css_name name = true -> selectorError (46 :: name) = None;
  id_selector_parses :
    forall name, css_name name = true -> selectorError (35 :: name) = None;
  lone_hash_rejected : selectorError [35] <> None
}.

(** An action: recorded, and the application re-renders. *)
Definition perform `{Backend} (c : Call) : Async unit :=
  fun w => (Resolved tt, mkWorld (react c (doc w)) (calls w ++ [c])).

(** [TestElement] operations, on a handle obtained from the current
    document. *)
Definition te_getAttribute (e : Element) (name : string) : Async (option jsstr) :=
  query (CallGetAttribute (el_node e) name) ;; ret (getAttribute e name).

Definition te_getProperty_value (e : Element) : Async jsstr :=
  query (CallGetProperty (el_node e) "value") ;; ret (el_value e).

(** [hasClass] as the Protractor element computes it. *)
Definition te_hasClass (e : Element) (name : jsstr) : Async bool :=
  query (CallHasClass (el_node e) name) ;; ret (ProtractorElement.hasClass e name).

Definition te_text (e : Element) : Async jsstr :=
  query (CallText (el_node e)) ;; ret (el_text e).

Definition te_focus `{Backend} (e : Element) : Async unit :=
  perform (CallFocus (el_node e)).

Definition te_click `{Backend} (e : Element) : Async unit :=
  perform (CallClick (el_node e)).

(** [ComponentHarness.host()]. *)
Definition host : Async Element :=
  let* d := current_document in ret (host_element d).

(** Modelled from the spec: the document-root locator's
    [locatorForOptional(selector)] of cdk/testing, which is not among the
    sources: "findOptional(selector) -> ElementHandle|null", evaluated on
    each call, the first match in document order when several exist.  The
    lookup is the CSS engine's: for a selector the engine cannot read it
    rejects with the engine's error. *)
Definition locatorForOptional `{Backend} (selector : jsstr) : Async (option Element) :=
  query (CallLocate selector) ;;
  match selectorError selector with
  | Some error => throw error
  | None =>
      let* d := current_document in
      ret (head (List.filter (matchesSelector selector) (elements d)))
  end.

(** A string-or-pattern filter value. *)
Record RegExp := mkRegExp {
  re_source : jsstr;
  re_test : jsstr -> bool
}.

Inductive StringOrRegExp :=
| Str (s : jsstr)
| Re (r : RegExp).

(** Modelled from the spec: [HarnessPredicate] of cdk/testing, which is
    not among the sources: "(harness-type, ordered list of named
    option->matcher pairs)"; "all registered matchers must pass". *)
Record HarnessPredicate (T : Type) := mkPredicate {
  predicates : list (string * (T -> Async bool))
}.
Arguments mkPredicate {T} predicates.
Arguments predicates {T} h.

(** Modelled from the spec: [new HarnessPredicate(type, options)], with
    no check registered yet. *)
Definition newHarnessPredicate {T : Type} : HarnessPredicate T :=
  mkPredicate [].

(** Modelled from the spec: [addOption(name, value, matchFn)] "registers
    a conditional check that is skipped entirely when value is undefined
    and otherwise requires matchFn(harnessInstance, value) to resolve
    true". *)
Definition addOption {T O : Type} (p : HarnessPredicate T) (name : string)
  (value : option O) (matchFn : T -> O -> Async bool) : HarnessPredicate T :=
  match value with
  | None => p
  | Some v => mkPredicate (predicates p ++ [(name, fun harness => matchFn harness v)])
  end.

(** Modelled from the spec: "Final predicate is the logical AND of all
    registered, activated checks". *)
Fixpoint evaluate_checks {T : Type} (checks : list (string * (T -> Async bool)))
  (harness : T) : Async bool :=
  match checks with
  | [] => ret true
  | (_, check) :: rest =>
      let* b := check harness in
      let* bs := evaluate_checks rest harness in
      ret (b && bs)
  end.

(** Modelled from the spec: [evaluate(harness)], the final predicate. *)
Definition evaluate {T : Type} (p : HarnessPredicate T) (harness : T) : Async bool :=
  evaluate_checks (predicates p) harness.

(** Modelled from the spec: [HarnessPredicate.stringMatches]: "exact
    match when given a literal string, regex test when given a
    pattern". *)
Definition stringMatches (value : Async jsstr) (pattern : StringOrRegExp) : Async bool :=
  let* v := value in
  ret (match pattern with
       | Str s => bool_decide (v = s)
       | Re r => re_test r v
       end).

(** A small backend to run the harnesses on: its CSS engine reads
    [#name] and [.name] and refuses every other selector, and its
    application never re-renders. *)
Definition simple_selectorError (selector : jsstr) : option JsError :=
  match selector with
  | 35 :: name | 46 :: name =>
      if css_name name then None
      else Some (mkError (selector ++ js " is not a valid selector"))
  | _ => Some (mkError (selector ++ js " is not a valid selector"))
  end.

Definition simple_matchesSelector (selector : jsstr) (e : Element) : bool :=
  match selector with
  | 35 :: id => bool_decide (getAttribute e "id" = Some id)
  | 46 :: name => ProtractorElement.hasClass e name
  | _ => false
  end.

Definition simple_backend : Backend.
Proof.
  refine {| selectorError := simple_selectorError;
            matchesSelector := simple_matchesSelector;
            react := fun _ d => d |}.
  - intros name Hname. unfold simple_selectorError. by rewrite Hname.
  - intros name Hname. unfold simple_selectorError. by rewrite Hname.
  - discriminate.
Defined.

End Harness.
Import Harness.

(* ===================================================================== *)
(** ** material-experimental/mdc-autocomplete/testing/autocomplete-harness.ts *)
(* ===================================================================== *)

Module MatAutocompleteHarness.

(** [AutocompleteHarnessFilters]. *)
Record AutocompleteHarnessFilters := mkAutocompleteFilters {
  af_value : option StringOrRegExp
}.

(** [OptionHarnessFilters] of mdc-core/testing.  A filter object is
    given by its own properties in the order they were written, which is
    the order [JSON.stringify] and the spread [{...filters}] go through
    them; a property that is there with the value [undefined] holds
    [None].  A key stands in an object at most once. *)
Inductive OptionFilterProperty :=
| FilterSelector (value : option jsstr)
| FilterAncestor (value : option jsstr)
| FilterText (value : option StringOrRegExp)
| FilterIsSelected (value : option bool).

Definition OptionHarnessFilters := list OptionFilterProperty.

(** [OptgroupHarnessFilters] of mdc-core/testing, in the same way. *)
Inductive OptgroupFilterProperty :=
| GroupSelector (value : option jsstr)
| GroupAncestor (value : option jsstr)
| GroupLabelText (value : option StringOrRegExp).

Definition OptgroupHarnessFilters := list OptgroupFilterProperty.

(** [filters.ancestor] and [filters.text]. *)
Fixpoint of_ancestor (filters : OptionHarnessFilters) : option jsstr :=
  match filters with
  | [] => None
  | FilterAncestor value :: _ => value
  | _ :: rest => of_ancestor rest
  end.

Fixpoint of_text (filters : OptionHarnessFilters) : option StringOrRegExp :=
  match filters with
  | [] => None
  | FilterText value :: _ => value
  | _ :: rest => of_text rest
  end.

Fixpoint gf_ancestor (filters : OptgroupHarnessFilters) : option jsstr :=
  match filters with
  | [] => None
  | GroupAncestor value :: _ => value
  | _ :: rest => gf_ancestor rest
  end.

(** [{...filters, ancestor: a}]: the properties of [filters] in their
    order, [ancestor] taking the new value where it stands, or added at
    the end. *)
Fixpoint option_with_ancestor (filters : OptionHarnessFilters) (a : jsstr)
  : OptionHarnessFilters :=
  match filters with
  | [] => [FilterAncestor (Some a)]
  | FilterAncestor _ :: rest => FilterAncestor (Some a) :: rest
  | p :: rest => p :: option_with_ancestor rest a
  end.

Fixpoint optgroup_with_ancestor (filters : OptgroupHarnessFilters) (a : jsstr)
  : OptgroupHarnessFilters :=
  match filters with
  | [] => [GroupAncestor (Some a)]
  | GroupAncestor _ :: rest => GroupAncestor (Some a) :: rest
  | p :: rest => p :: optgroup_with_ancestor rest a
  end.

(** [JSON.stringify(filters)]: the properties in their order, those with
    the value [undefined] left out, each as its quoted key, a colon and
    its value; a string is quoted, a boolean is [true] or [false], and a
    pattern, an object without enumerable properties of its own, is
    [{}]. *)
Definition JSON_member (key : string) (value : jsstr) : jsstr :=
  Json.QuoteJSONString (js key) ++ js ":" ++ value.

Definition JSON_property (p : OptionFilterProperty) : option jsstr :=
  match p with
  | FilterSelector (Some s) => Some (JSON_member "selector" (Json.QuoteJSONString s))
  | FilterAncestor (Some s) => Some (JSON_member "ancestor" (Json.QuoteJSONString s))
  | FilterText (Some (Str s)) => Some (JSON_member "text" (Json.QuoteJSONString s))
  | FilterText (Some (Re _)) => Some (JSON_member "text" (js "{}"))
  | FilterIsSelected (Some b) =>
      Some (JSON_member "isSelected" (if b then js "true" else js "false"))
  | _ => None
  end.

Fixpoint join_with_comma (members : list jsstr) : jsstr :=
  match members with
  | [] => []
  | m :: rest =>
      match rest with
      | [] => m
      | _ :: _ => m ++ js "," ++ join_with_comma rest
      end
  end.

Definition JSON_stringify (filters : OptionHarnessFilters) : jsstr :=
  js "{" ++ join_with_comma (omap JSON_property filters) ++ js "}".

(** What a message tells of a filter object at best: its properties
    that have a value. *)
Definition has_value (p : OptionFilterProperty) : bool :=
  match p with
  | FilterSelector (Some _) | FilterAncestor (Some _) | FilterText (Some _)
  | FilterIsSelected (Some _) => true
  | _ => false
  end.

Definition defined_properties (filters : OptionHarnessFilters) : OptionHarnessFilters :=
  List.filter has_value filters.

(** No property of the object is a pattern. *)
Definition is_pattern (p : OptionFilterProperty) : bool :=
  match p with
  | FilterText (Some (Re _)) => true
  | _ => false
  end.

Definition no_pattern (filters : OptionHarnessFilters) : Prop :=
  Forall (fun p => is_pattern p = false) filters.

(** The option and option-group harnesses of mdc-core/testing, through
    what this harness uses of them: what
    [locatorForAll(MatOptionHarness.with(filters))] yields in a document,
    the harnesses found or the rejection of the lookup. *)
Class MdcCoreTesting := {
  optionHarnesses : OptionHarnessFilters -> Document -> Outcome (list Element);
  optgroupHarnesses : OptgroupHarnessFilters -> Document -> Outcome (list Element)
}.

Definition locatorForAll_options `{MdcCoreTesting} (filters : OptionHarnessFilters)
  : Async (list Element) :=
  query (CallLocateAll (of_ancestor filters)) ;;
  fun w => (optionHarnesses filters (doc w), w).

Definition locatorForAll_optgroups `{MdcCoreTesting} (filters : OptgroupHarnessFilters)
  : Async (list Element) :=
  query (CallLocateAll (gf_ancestor filters)) ;;
  fun w => (optgroupHarnesses filters (doc w), w).

(** [getValue()]. *)
Definition getValue : Async jsstr :=
  let* h := host in te_getProperty_value h.

(** [static with(options)].  An instance has no field besides its
    document-root locator, and the document has one host: the
    predicate's subject carries no data. *)
Definition with_ (options : AutocompleteHarnessFilters) : HarnessPredicate unit :=
  addOption newHarnessPredicate "value" (af_value options)
    (fun _harness value => stringMatches getValue value).

(** [focus()]. *)
Definition focus `{Backend} : Async unit :=
  let* h := host in te_focus h.

(** [_getPanelSelector()]. *)
Definition _getPanelSelector : Async jsstr :=
  let* h := host in
  let* owns := te_getAttribute h "aria-owns" in
  ret (js "#" ++ interpolate owns).

(** The panel selector in the words of the claim: [#] and the value the
    trigger's [aria-owns] attribute has in the document; for a trigger
    without the attribute, [#null]. *)
Definition owned_panel_selector (d : Document) : jsstr :=
  match el_attributes (host_element d) !! "aria-owns" with
  | Some id => 35 :: id
  | None => [35; 110; 117; 108; 108]
  end.

(** The world after [_getPanelSelector] has run. *)
Definition after_panel_selector (w : World) : World :=
  mkWorld (doc w)
    (calls w ++ [CallGetAttribute (el_node (host_element (doc w))) "aria-owns"]).

(** [_getPanel()]. *)
Definition _getPanel `{Backend} : Async (option Element) :=
  let* selector := _getPanelSelector in
  locatorForOptional selector.

(** [getOptions(filters)]. *)
Definition getOptions `{MdcCoreTesting} (filters : OptionHarnessFilters)
  : Async (list Element) :=
  let* ancestor := _getPanelSelector in
  locatorForAll_options (option_with_ancestor filters ancestor).

(** [getOptionGroups(filters)]. *)
Definition getOptionGroups `{MdcCoreTesting} (filters : OptgroupHarnessFilters)
  : Async (list Element) :=
  let* ancestor := _getPanelSelector in
  locatorForAll_optgroups (optgroup_with_ancestor filters ancestor).

(** [selectOption(filters)]. *)
Definition selectOption `{Backend} `{MdcCoreTesting} (filters : OptionHarnessFilters)
  : Async unit :=
  focus ;;
  let* options := getOptions filters in
  match options with
  | [] => throw (mkError (js "Could not find a mat-option matching " ++ JSON_stringify filters))
  | first :: _ => te_click first
  end.

(** [isOpen()]. *)
Definition isOpen `{Backend} : Async bool :=
  let* panel := _getPanel in
  match panel with
  | None => ret false
  | Some p => te_hasClass p (js "mat-mdc-autocomplete-visible")
  end.

(** A small stand-in for mdc-core/testing to run the harness on, with
    the CSS engine of [simple_backend]: the lookup rejects when the
    ancestor is a selector that engine refuses; otherwise the options are
    the elements of class [mat-mdc-option] whose text passes the [text]
    filter (the document being flat, the ancestor is not looked at
    further). *)
Definition example_text_matches (filter : option StringOrRegExp) (text : jsstr) : bool :=
  match filter with
  | None => true
  | Some (Str s) => bool_decide (text = s)
  | Some (Re r) => re_test r text
  end.

Definition example_ancestor_error (ancestor : option jsstr) : option JsError :=
  match ancestor with
  | Some a => simple_selectorError a
  | None => None
  end.

Definition example_core : MdcCoreTesting :=
  {| optionHarnesses := fun filters d =>
       match example_ancestor_error (of_ancestor filters) with
       | Some error => Rejected error
       | None =>
           Resolved
             (List.filter (fun e => ProtractorElement.hasClass e (js "mat-mdc-option")
                                    && example_text_matches (of_text filters) (el_text e))
                (elements d))
       end;
     optgroupHarnesses := fun filters _ =>
       match example_ancestor_error (gf_ancestor filters) with
       | Some error => Rejected error
       | None => Resolved []
       end |}.

End MatAutocompleteHarness.

(* ===================================================================== *)
(** ** material/tooltip/testing/tooltip-harness.ts *)
(* ===================================================================== *)

Module MatTooltipHarness.

(** [_optionalPanel = this.documentRootLocatorFactory().locatorForOptional('.mat-tooltip')]. *)
Definition _optionalPanel `{Backend} : Async (option Element) :=
  locatorForOptional (js ".mat-tooltip").

(** [isOpen()]: [!!(await this._optionalPanel())]. *)
Definition isOpen `{Backend} : Async bool :=
  let* panel := _optionalPanel in
  ret (match panel with Some _ => true | None => false end).

(** [getTooltipText()]: [panel ? panel.text() : '']. *)
Definition getTooltipText `{Backend} : Async jsstr :=
  let* panel := _optionalPanel in
  match panel with
  | Some p => te_text p
  | None => ret []
  end.

End MatTooltipHarness.

(* ===================================================================== *)
(** ** cdk/testing/testbed/fake-events/event-objects.ts *)
(* ===================================================================== *)

Module FakeEvents.

Inductive JsVal :=
| VUndefined
| VNull
| VBool (b : bool)
| VNum (z : Z)
| VStr (s : jsstr).

(** [ModifierKeys]: every field is optional. *)
Record ModifierKeys := mkModifiers {
  control : option bool;
  alt : option bool;
  shift : option bool;
  meta : option bool
}.

(** [modifiers: ModifierKeys = {}]. *)
Definition no_modifiers : ModifierKeys := mkModifiers None None None None.

(** [!!m] and the test [if (m)] on an optional boolean. *)
Definition truthy_flag (m : option bool) : bool :=
  match m with Some b => b | None => false end.

(** The arguments of [initMouseEvent], in order (view and relatedTarget
    are [window] and [null]). *)
Record MouseInit := mkMouseInit {
  mi_type : jsstr; mi_canBubble : bool; mi_cancelable : bool; mi_detail : Z;
  mi_screenX : Z; mi_screenY : Z; mi_clientX : Z; mi_clientY : Z;
  mi_ctrlKey : bool; mi_altKey : bool; mi_shiftKey : bool; mi_metaKey : bool;
  mi_button : Z
}.

(** The arguments of Firefox's [initKeyEvent]; the modifiers are passed
    as they are, not coerced. *)
Record KeyInit := mkKeyInit {
  ki_type : jsstr; ki_canBubble : bool; ki_cancelable : bool;
  ki_ctrlKey : option bool; ki_altKey : option bool;
  ki_shiftKey : option bool; ki_metaKey : option bool;
  ki_keyCode : Z
}.

(** The arguments of [initKeyboardEvent]. *)
Record KeyboardInit := mkKeyboardInit {
  kb_type : jsstr; kb_canBubble : bool; kb_cancelable : bool;
  kb_char : Z; kb_key : jsstr; kb_location : Z;
  kb_modifiersList : jsstr; kb_repeat : bool
}.

(** What the browser supplies: its event objects, their native
    initializers and getters, and its own [preventDefault]. *)
Class Browser := {
  NativeEvent : Type;
  createEvent : string -> NativeEvent;
  initMouseEvent : MouseInit -> NativeEvent -> NativeEvent;
  hasInitKeyEvent : bool;             (* event.initKeyEvent !== undefined *)
  initKeyEvent : KeyInit -> NativeEvent -> NativeEvent;
  initKeyboardEvent : KeyboardInit -> NativeEvent -> NativeEvent;
  nativePreventDefault : NativeEvent -> NativeEvent;
  nativeGet : NativeEvent -> string -> JsVal
}.

(** An event object: the browser's event, the accessor properties
    defined on the object itself (each getter returns a fixed value), and
    whether [event.preventDefault] has been assigned the function of this
    file. *)
Record EventObject `{Browser} := mkEvent {
  native : NativeEvent;
  own : gmap string JsVal;
  preventDefault_assigned : bool
}.

(** [event[propertyName]]: an own property shadows the prototype's. *)
Definition get `{Browser} (event : EventObject) (propertyName : string) : JsVal :=
  match own event !! propertyName with
  | Some v => v
  | None => nativeGet (native event) propertyName
  end.

(** [defineReadonlyEventProperty(event, propertyName, value)]:
    [Object.defineProperty(event, propertyName, {get: () => value, configurable: true})]. *)
Definition defineReadonlyEventProperty `{Browser} (event : EventObject)
  (propertyName : string) (value : JsVal) : EventObject :=
  mkEvent _ (native event) (<[propertyName := value]> (own event))
    (preventDefault_assigned event).

(** [originalPreventDefault()]. *)
Definition originalPreventDefault `{Browser} (event : EventObject) : EventObject :=
  mkEvent _ (nativePreventDefault (native event)) (own event)
    (preventDefault_assigned event).

(** [event.preventDefault()], whichever function the property holds. *)
Definition preventDefault `{Browser} (event : EventObject) : EventObject :=
  if preventDefault_assigned event then
    let event := defineReadonlyEventProperty event "defaultPrevented" (VBool true) in
    originalPreventDefault event
  else originalPreventDefault event.

(** [event.preventDefault = function() { ... }]. *)
Definition assign_preventDefault `{Browser} (event : EventObject) : EventObject :=
  mkEvent _ (native event) (own event) true.

(** [createMouseEvent(type, clientX = 0, clientY = 0, button = 0, modifiers = {})]. *)
Definition createMouseEvent `{Browser} (type : jsstr) (clientX clientY button : Z)
  (modifiers : ModifierKeys) : EventObject :=
  let event := mkEvent _ (createEvent "MouseEvent") ∅ false in
  let screenX := clientX in
  let screenY := clientY in
  let event :=
    mkEvent _
      (initMouseEvent
         (mkMouseInit type true true 0 screenX screenY clientX clientY
            (truthy_flag (control modifiers)) (truthy_flag (alt modifiers))
            (truthy_flag (shift modifiers)) (truthy_flag (meta modifiers))
            button)
         (native event))
      (own event) (preventDefault_assigned event) in
  let event := defineReadonlyEventProperty event "buttons" (VNum 1) in
  assign_preventDefault event.

(** The [modifiersList] built for [initKeyboardEvent], before [trim()]. *)
Definition modifiersList (modifiers : ModifierKeys) : jsstr :=
  (if truthy_flag (control modifiers) then js "Control " else [])
  ++ (if truthy_flag (alt modifiers) then js "Alt " else [])
  ++ (if truthy_flag (shift modifiers) then js "Shift " else [])
  ++ (if truthy_flag (meta modifiers) then js "Meta " else []).

(** [String.prototype.trim]. *)
Fixpoint trimStart (s : jsstr) : jsstr :=
  match s with
  | c :: rest => if isWhiteSpace c then trimStart rest else s
  | [] => []
  end.

Definition trim (s : jsstr) : jsstr :=
  rev (trimStart (rev (trimStart s))).

(** [createKeyboardEvent(type, keyCode = 0, key = '', modifiers = {})]. *)
Definition createKeyboardEvent `{Browser} (type : jsstr) (keyCode : Z) (key : jsstr)
  (modifiers : ModifierKeys) : EventObject :=
  let event := mkEvent _ (createEvent "KeyboardEvent") ∅ false in
  let event :=
    if hasInitKeyEvent then
      mkEvent _
        (initKeyEvent
           (mkKeyInit type true true (control modifiers) (alt modifiers)
              (shift modifiers) (meta modifiers) keyCode)
           (native event))
        (own event) (preventDefault_assigned event)
    else
      mkEvent _
        (initKeyboardEvent
           (mkKeyboardInit type true true 0 key 0 (trim (modifiersList modifiers)) false)
           (native event))
        (own event) (preventDefault_assigned event) in
  let event := defineReadonlyEventProperty event "keyCode" (VNum keyCode) in
  let event := defineReadonlyEventProperty event "key" (VStr key) in
  let event := defineReadonlyEventProperty event "ctrlKey" (VBool (truthy_flag (control modifiers))) in
  let event := defineReadonlyEventProperty event "altKey" (VBool (truthy_flag (alt modifiers))) in
  let event := defineReadonlyEventProperty event "shiftKey" (VBool (truthy_flag (shift modifiers))) in
  let event := defineReadonlyEventProperty event "metaKey" (VBool (truthy_flag (meta modifiers))) in
  assign_preventDefault event.

(** A browser of the kind the comments of the file describe: its
    native [buttons] is 0, and its [preventDefault] leaves
    [defaultPrevented] false on a synthetic event. *)
Definition legacy_browser : Browser :=
  {| NativeEvent := string;
     createEvent := fun interface => interface;
     initMouseEvent := fun _ e => e;
     hasInitKeyEvent := false;
     initKeyEvent := fun _ e => e;
     initKeyboardEvent := fun _ e => e;
     nativePreventDefault := fun e => e;
     nativeGet := fun _ name =>
       if String.eqb name "buttons" then VNum 0
       else if String.eqb name "defaultPrevented" then VBool false
       else VUndefined |}.

End FakeEvents.

(* ===================================================================== *)
(** ** material/checkbox/checkbox.ts *)
(* ===================================================================== *)

Module MatCheckbox.

Inductive TransitionCheckState := Init | Checked | Unchecked | Indeterminate.

(** The literal type ['true' | 'false' | 'mixed']. *)
Inductive AriaChecked := aria_true | aria_false | aria_mixed.

(** The fields the modelled members read and write;
    [markForCheck_calls] counts [this._changeDetectorRef.markForCheck()]. *)
Record MatCheckbox := mkCheckbox {
  _checked : bool;
  _disabled : bool;
  _indeterminate : bool;
  _currentCheckState : TransitionCheckState;
  markForCheck_calls : nat
}.

(** A checkbox as constructed: every boolean field is [false]. *)
Definition new_checkbox : MatCheckbox := mkCheckbox false false false Init 0.

(** [get checked()]. *)
Definition checked (this : MatCheckbox) : bool := _checked this.

(** [get indeterminate()]. *)
Definition indeterminate (this : MatCheckbox) : bool := _indeterminate this.

(** [set checked(value)]: [if (value != this.checked) { ... }]. *)
Definition set_checked (value : bool) (this : MatCheckbox) : MatCheckbox :=
  if negb (Bool.eqb value (checked this)) then
    mkCheckbox value (_disabled this) (_indeterminate this)
      (_currentCheckState this) (S (markForCheck_calls this))
  else this.

(** [toggle()]: [this.checked = !this.checked]. *)
Definition toggle (this : MatCheckbox) : MatCheckbox :=
  set_checked (negb (checked this)) this.

(** [_getAriaChecked()]. *)
Definition _getAriaChecked (this : MatCheckbox) : AriaChecked :=
  if checked this then aria_true
  else if indeterminate this then aria_mixed else aria_false.

End MatCheckbox.

(* ===================================================================== *)
(** ** cdk/schematics/ng-update/migrations/element-selectors.ts *)
(* ===================================================================== *)

Module ElementSelectorsMigration.

(** [ElementSelectorUpgradeData]. *)
Record ElementSelectorUpgradeData := mkSelector {
  replace : jsstr;
  replaceWith : jsstr
}.

(** [ResolvedResource]. *)
Record ResolvedResource := mkResource {
  content : jsstr;
  start : nat;
  filePath : jsstr
}.

(** What the update recorder of a file is asked to do, in call order. *)
Inductive EditOp :=
| Remove (path : jsstr) (index : nat) (len : nat)
| InsertRight (path : jsstr) (index : nat) (text : jsstr).

(** The syntax kinds the migration tells apart. *)
Inductive SyntaxKind :=
| StringLiteral
| NoSubstitutionTemplateLiteral
| CallExpression
| OtherKind (code : nat).

(** A [ts.Node], through what the migration reads of it. *)
Record Node := mkNode {
  kind : SyntaxKind;
  parent : option SyntaxKind;     (* node.parent && node.parent.kind *)
  getText : jsstr;
  getStart : nat;
  fileName : jsstr                (* node.getSourceFile().fileName *)
}.

(** What the update tool supplies: [findAllSubstringIndices] of
    ../typescript/literal and [fileSystem.resolve]. *)
Class UpdateTool := {
  findAllSubstringIndices : jsstr -> jsstr -> list nat;
  resolve : jsstr -> jsstr
}.

(** [ts.isStringLiteralLike(node)]. *)
Definition isStringLiteralLike (node : Node) : bool :=
  match kind node with
  | StringLiteral | NoSubstitutionTemplateLiteral => true
  | _ => false
  end.

(** [_replaceSelector(filePath, start, data)]. *)
Definition _replaceSelector (filePath : jsstr) (start : nat)
  (data : ElementSelectorUpgradeData) (edits : list EditOp) : list EditOp :=
  edits ++ [Remove filePath start (length (replace data));
            InsertRight filePath start (replaceWith data)].

(** [findAllSubstringIndices(text, selector.replace).map(offset => base + offset)
      .forEach(start => this._replaceSelector(filePath, start, selector))]. *)
Definition replaceAll `{UpdateTool} (filePath : jsstr) (base : nat) (text : jsstr)
  (selector : ElementSelectorUpgradeData) (edits : list EditOp) : list EditOp :=
  fold_left (fun edits start => _replaceSelector filePath start selector edits)
    (map (fun offset => (base + offset)%nat) (findAllSubstringIndices text (replace selector)))
    edits.

(** [visitTemplate(template)]. *)
Definition visitTemplate `{UpdateTool} (data : list ElementSelectorUpgradeData)
  (template : ResolvedResource) (edits : list EditOp) : list EditOp :=
  fold_left (fun edits selector =>
               replaceAll (filePath template) (start template) (content template) selector edits)
    data edits.

(** [visitStylesheet(stylesheet)]. *)
Definition visitStylesheet `{UpdateTool} (data : list ElementSelectorUpgradeData)
  (stylesheet : ResolvedResource) (edits : list EditOp) : list EditOp :=
  fold_left (fun edits selector =>
               replaceAll (filePath stylesheet) (start stylesheet) (content stylesheet)
                 selector edits)
    data edits.

(** [node.parent && node.parent.kind !== ts.SyntaxKind.CallExpression]. *)
Definition parent_not_a_call (node : Node) : bool :=
  match parent node with
  | Some CallExpression => false
  | Some _ => true
  | None => false
  end.

(** [_visitStringLiteralLike(node)]. *)
Definition _visitStringLiteralLike `{UpdateTool} (data : list ElementSelectorUpgradeData)
  (node : Node) (edits : list EditOp) : list EditOp :=
  if parent_not_a_call node then edits
  else
    let textContent := getText node in
    let filePath := resolve (fileName node) in
    fold_left (fun edits selector =>
                 replaceAll filePath (getStart node) textContent selector edits)
      data edits.

(** [visitNode(node)]. *)
Definition visitNode `{UpdateTool} (data : list ElementSelectorUpgradeData)
  (node : Node) (edits : list EditOp) : list EditOp :=
  if isStringLiteralLike node then _visitStringLiteralLike data node edits else edits.

(** The two operations [_replaceSelector] records. *)
Definition edit_at (filePath : jsstr) (start : nat) (data : ElementSelectorUpgradeData)
  : list EditOp :=
  [Remove filePath start (length (replace data));
   InsertRight filePath start (replaceWith data)].

(** One [edit_at] per selector of the data and per index found for it,
    selectors in data order, indices in the order found. *)
Definition edits_for `{UpdateTool} (filePath : jsstr) (base : nat) (text : jsstr)
  (data : list ElementSelectorUpgradeData) : list EditOp :=
  flat_map (fun selector =>
              flat_map (fun offset => edit_at filePath (base + offset) selector)
                (findAllSubstringIndices text (replace selector)))
    data.

(** The deleted range of a removal, and when two removals in one file
    share a position. *)
Definition overlap (a b : EditOp) : bool :=
  match a, b with
  | Remove p1 s1 l1, Remove p2 s2 l2 =>
      bool_decide (p1 = p2) && (s1 <? s2 + l2)%nat && (s2 <? s1 + l1)%nat
  | _, _ => false
  end.

(** Some two distinct entries of the list overlap. *)
Fixpoint has_overlap (edits : list EditOp) : bool :=
  match edits with
  | [] => false
  | e :: rest => existsb (overlap e) rest || has_overlap rest
  end.

(** The search string stands in the input at index [i]. *)
Definition occurs_at (input search : jsstr) (i : nat) : Prop :=
  take (length search) (drop i input) = search.

(** [input.startsWith(search)]. *)
Fixpoint startsWith (s search : jsstr) : bool :=
  match search, s with
  | [], _ => true
  | c :: search', d :: s' => (c =? d) && startsWith s' search'
  | _ :: _, [] => false
  end.

(** Modelled from the spec: [findAllSubstringIndices] of
    ../typescript/literal, which is not among the sources, as its name
    and the "substring index" of an "occurrence" say: every index of the
    input at which the (non-empty) search string starts, ascending;
    [occurrences_from i input search] counts the indices from [i]. *)
Fixpoint occurrences_from (i : nat) (input search : jsstr) : list nat :=
  match input with
  | [] => []
  | _ :: rest =>
      (if startsWith input search then [i] else []) ++ occurrences_from (S i) rest search
  end.

(** Modelled from the spec: an update tool with that
    [findAllSubstringIndices], and paths that resolve to themselves. *)
Definition literal_updateTool : UpdateTool :=
  {| findAllSubstringIndices := fun input search => occurrences_from 0 input search;
     resolve := fun p => p |}.

End ElementSelectorsMigration.

(* ===================================================================== *)
(** ** protractor-element.ts: keys and clicks *)
(* ===================================================================== *)

Module ProtractorInput.

Import FakeEvents.

(** The [TestKey] constants the key map lists. *)
Module TestKey.
Inductive t :=
| BACKSPACE | TAB | ENTER | SHIFT | CONTROL | ALT | ESCAPE | PAGE_UP | PAGE_DOWN
| END | HOME | LEFT_ARROW | UP_ARROW | RIGHT_ARROW | DOWN_ARROW | INSERT | DELETE
| F1 | F2 | F3 | F4 | F5 | F6 | F7 | F8 | F9 | F10 | F11 | F12 | META.
End TestKey.

(** Protractor's [Key] constants the key map yields. *)
Module Key.
Inductive t :=
| BACK_SPACE | TAB | ENTER | SHIFT | CONTROL | ALT | ESCAPE | PAGE_UP | PAGE_DOWN
| END | HOME | ARROW_LEFT | ARROW_UP | ARROW_RIGHT | ARROW_DOWN | INSERT | DELETE
| F1 | F2 | F3 | F4 | F5 | F6 | F7 | F8 | F9 | F10 | F11 | F12 | META.
End Key.

#[global] Instance Key_t_eq_dec : EqDecision Key.t.
Proof. solve_decision. Defined.

(** [keyMap]. *)
Definition keyMap (k : TestKey.t) : Key.t :=
  match k with
  | TestKey.BACKSPACE => Key.BACK_SPACE
  | TestKey.TAB => Key.TAB
  | TestKey.ENTER => Key.ENTER
  | TestKey.SHIFT => Key.SHIFT
  | TestKey.CONTROL => Key.CONTROL
  | TestKey.ALT => Key.ALT
  | TestKey.ESCAPE => Key.ESCAPE
  | TestKey.PAGE_UP => Key.PAGE_UP
  | TestKey.PAGE_DOWN => Key.PAGE_DOWN
  | TestKey.END => Key.END
  | TestKey.HOME => Key.HOME
  | TestKey.LEFT_ARROW => Key.ARROW_LEFT
  | TestKey.UP_ARROW => Key.ARROW_UP
  | TestKey.RIGHT_ARROW => Key.ARROW_RIGHT
  | TestKey.DOWN_ARROW => Key.ARROW_DOWN
  | TestKey.INSERT => Key.INSERT
  | TestKey.DELETE => Key.DELETE
  | TestKey.F1 => Key.F1
  | TestKey.F2 => Key.F2
  | TestKey.F3 => Key.F3
  | TestKey.F4 => Key.F4
  | TestKey.F5 => Key.F5
  | TestKey.F6 => Key.F6
  | TestKey.F7 => Key.F7
  | TestKey.F8 => Key.F8
  | TestKey.F9 => Key.F9
  | TestKey.F10 => Key.F10
  | TestKey.F11 => Key.F11
  | TestKey.F12 => Key.F12
  | TestKey.META => Key.META
  end.

(** [toProtractorModifierKeys(modifiers)]; the result holds
    [Key.CONTROL], [Key.ALT], [Key.SHIFT], [Key.META]. *)
Definition toProtractorModifierKeys (modifiers : ModifierKeys) : list ProtractorElement.Key :=
  let result := [] in
  let result := if truthy_flag (control modifiers)
                then result ++ [ProtractorElement.CONTROL] else result in
  let result := if truthy_flag (alt modifiers)
                then result ++ [ProtractorElement.ALT] else result in
  let result := if truthy_flag (shift modifiers)
                then result ++ [ProtractorElement.SHIFT] else result in
  let result := if truthy_flag (meta modifiers)
                then result ++ [ProtractorElement.META] else result in
  result.

(** The flag of [modifiers] a modifier key stands for. *)
Definition modifier_flag (modifiers : ModifierKeys) (k : ProtractorElement.Key) : bool :=
  match k with
  | ProtractorElement.CONTROL => truthy_flag (control modifiers)
  | ProtractorElement.ALT => truthy_flag (alt modifiers)
  | ProtractorElement.SHIFT => truthy_flag (shift modifiers)
  | ProtractorElement.META => truthy_flag (meta modifiers)
  end.

(** An argument of [sendKeys(...modifiersAndKeys: any[])]: a modifiers
    object, a string, or a [TestKey] (a number). *)
Inductive SendArg :=
| ArgModifiers (m : ModifierKeys)
| ArgString (s : jsstr)
| ArgTestKey (k : TestKey.t).

(** One key handed on: a code unit of a string, [keyMap[k]], or
    [undefined] (what [keyMap] yields for a key that is not in it). *)
Inductive KeyStroke :=
| Char (c : N)
| Special (k : Key.t)
| NoKey.

(** An argument of [this.element.sendKeys]: the key itself, or
    [Key.chord(...modifierKeys, k)]. *)
Inductive SentKey :=
| Plain (k : KeyStroke)
| Chord (modifierKeys : list ProtractorElement.Key) (k : KeyStroke).

(** What a call can throw before anything is sent. *)
Inductive Thrown := TypeError.

(** [typeof k === 'string' ? k.split('') : [keyMap[k]]]. *)
Definition strokes (k : SendArg) : list KeyStroke :=
  match k with
  | ArgString s => map Char s
  | ArgTestKey k => [Special (keyMap k)]
  | ArgModifiers _ => [NoKey]
  end.

(** [modifierKeys.length > 0 ? Key.chord(...modifierKeys, k) : k]. *)
Definition chorded (modifierKeys : list ProtractorElement.Key) (k : KeyStroke) : SentKey :=
  if (0 <? length modifierKeys)%nat then Chord modifierKeys k else Plain k.

(** [sendKeys(...modifiersAndKeys)]: the keys handed to the element, or
    the error thrown.  With no argument [first] is [undefined], it is
    taken for the modifiers, and reading [modifiers.control] throws. *)
Definition sendKeys (modifiersAndKeys : list SendArg) : Thrown + list SentKey :=
  let first := head modifiersAndKeys in
  let '(modifiers, rest) :=
    match first with
    | Some (ArgString _) | Some (ArgTestKey _) => (Some no_modifiers, modifiersAndKeys)
    | Some (ArgModifiers m) => (Some m, drop 1 modifiersAndKeys)
    | None => (None, drop 1 modifiersAndKeys)
    end in
  match modifiers with
  | None => inl TypeError
  | Some modifiers =>
      let modifierKeys := toProtractorModifierKeys modifiers in
      let keys := map (chorded modifierKeys) (flat_map strokes rest) in
      inr keys
  end.

(** The keys a call hands to the element; none when it throws. *)
Definition keys_sent (modifiersAndKeys : list SendArg) : list SentKey :=
  match sendKeys modifiersAndKeys with
  | inr keys => keys
  | inl _ => []
  end.

(** An argument of [click] and [rightClick]. *)
Inductive ClickArg :=
| ClickNumber (z : Z)
| ClickCenter                 (* 'center' *)
| ClickModifiers (m : ModifierKeys)
| ClickUndefined.

Inductive Button := LEFT | RIGHT.

(** The steps of the action sequence that is performed. *)
Inductive PointerAction :=
| MouseMove (offset : option (ClickArg * ClickArg))
| ActionKeyDown (k : ProtractorElement.Key)
| ActionClick (button : Button)
| ActionKeyUp (k : ProtractorElement.Key).

(** [args.length && typeof args[args.length - 1] === 'object'], and the
    [args.pop()] that follows: the modifiers and the arguments left. *)
Definition pop_modifiers (args : list ClickArg) : ModifierKeys * list ClickArg :=
  match last args with
  | Some (ClickModifiers m) => (m, take (length args - 1) args)
  | _ => (no_modifiers, args)
  end.

(** [_dispatchClickEventSequence(args, button)]. *)
Definition _dispatchClickEventSequence (args : list ClickArg) (button : Button)
  : list PointerAction :=
  let '(modifiers, args) := pop_modifiers args in
  let modifierKeys := toProtractorModifierKeys modifiers in
  let offsetArgs :=
    match args with
    | [x; y] => Some (x, y)
    | _ => None
    end in
  [MouseMove offsetArgs]
  ++ map ActionKeyDown modifierKeys
  ++ [ActionClick button]
  ++ map ActionKeyUp modifierKeys.

(** [click(...args)] and [rightClick(...args)]. *)
Definition click (args : list ClickArg) : list PointerAction :=
  _dispatchClickEventSequence args LEFT.

Definition rightClick (args : list ClickArg) : list PointerAction :=
  _dispatchClickEventSequence args RIGHT.

(** Reading a sequence back: whether key [k] is down when the first
    click happens ([None]: there is no click), and whether it is down at
    the end; [down] is its state before. *)
Fixpoint down_at_click (k : ProtractorElement.Key) (down : bool)
  (actions : list PointerAction) : option bool :=
  match actions with
  | [] => None
  | MouseMove _ :: rest => down_at_click k down rest
  | ActionKeyDown k' :: rest =>
      down_at_click k (if bool_decide (k' = k) then true else down) rest
  | ActionKeyUp k' :: rest =>
      down_at_click k (if bool_decide (k' = k) then false else down) rest
  | ActionClick _ :: _ => Some down
  end.

Fixpoint down_at_end (k : ProtractorElement.Key) (down : bool)
  (actions : list PointerAction) : bool :=
  match actions with
  | [] => down
  | ActionKeyDown k' :: rest =>
      down_at_end k (if bool_decide (k' = k) then true else down) rest
  | ActionKeyUp k' :: rest =>
      down_at_end k (if bool_decide (k' = k) then false else down) rest
  | _ :: rest => down_at_end k down rest
  end.

Definition clicks_of (actions : list PointerAction) : list Button :=
  omap (fun a => match a with ActionClick b => Some b | _ => None end) actions.

Definition moves_of (actions : list PointerAction) : list (option (ClickArg * ClickArg)) :=
  omap (fun a => match a with MouseMove o => Some o | _ => None end) actions.

End ProtractorInput.

(* ===================================================================== *)
(** ** event-objects.ts: the modifier names of a keyboard event *)
(* ===================================================================== *)

Module KeyboardModifiers.

Import FakeEvents.

(** The names [createKeyboardEvent] appends for the truthy flags. *)
Definition held_names (modifiers : ModifierKeys) : list jsstr :=
  (if truthy_flag (control modifiers) then [js "Control"] else [])
  ++ (if truthy_flag (alt modifiers) then [js "Alt"] else [])
  ++ (if truthy_flag (shift modifiers) then [js "Shift"] else [])
  ++ (if truthy_flag (meta modifiers) then [js "Meta"] else []).

(** [names.join(' ')]. *)
Fixpoint join_with_space (names : list jsstr) : jsstr :=
  match names with
  | [] => []
  | [name] => name
  | name :: rest => name ++ [32] ++ join_with_space rest
  end.

End KeyboardModifiers.

(* ===================================================================== *)
(** ** checkbox.ts: transitions, clicks and the indeterminate state *)
(* ===================================================================== *)

Module MatCheckboxComponent.

Import MatCheckbox.

#[global] Instance TransitionCheckState_eq_dec : EqDecision TransitionCheckState.
Proof. solve_decision. Defined.

(** [MatCheckboxClickAction]. *)
Inductive ClickAction := noop | check | check_indeterminate.

#[global] Instance ClickAction_eq_dec : EqDecision ClickAction.
Proof. solve_decision. Defined.

(** What the component hands to its outputs and to the registered
    change function, in call order. *)
Inductive Emitted :=
| ControlValueAccessorChange (value : bool)   (* this._controlValueAccessorChangeFn(checked) *)
| Change (checked : bool)                     (* this.change.emit(event) *)
| IndeterminateChange (value : bool).         (* this.indeterminateChange.emit(value) *)

(** The native [<input type="checkbox">]. *)
Record NativeInput := mkNativeInput {
  native_checked : bool;
  native_indeterminate : bool
}.

(** [BooleanInput] of cdk/coercion, the values an input declared with
    [ngAcceptInputType_...: BooleanInput] is given:
    [string | boolean | null | undefined]. *)
Inductive BooleanInput :=
| InBoolean (b : bool)
| InString (s : jsstr)
| InNull
| InUndefined.

(** What the setter takes from outside this file:
    [coerceBooleanProperty] of cdk/coercion, and of ECMAScript the loose
    equality [s == b] of a string and a boolean, which compares the
    number of the string ([StringToNumber]) with 1 for [true] and 0 for
    [false]. *)
Class Coercion := {
  coerceBooleanProperty : BooleanInput -> bool;
  string_equals_boolean : jsstr -> bool -> bool
}.

(** [value != held] for a [BooleanInput] and a boolean: two booleans are
    compared as they are, [null] and [undefined] equal no boolean, and a
    string is compared by its number. *)
Definition loosely_unequal `{Coercion} (value : BooleanInput) (held : bool) : bool :=
  match value with
  | InBoolean b => negb (Bool.eqb b held)
  | InString s => negb (string_equals_boolean s held)
  | InNull | InUndefined => true
  end.

(** The component: the fields of [MatCheckbox.MatCheckbox], and with
    them what transitions, clicks and the indeterminate setter read and
    write. *)
Record Component := mkComponent {
  fields : MatCheckbox;
  _animationMode : option jsstr;
  _currentAnimationClass : jsstr;
  classList : gset jsstr;                (* this._elementRef.nativeElement.classList *)
  _inputElement : option NativeInput;    (* undefined until the view is there *)
  clickAction : option ClickAction;      (* this._options?.clickAction *)
  emitted : list Emitted;                (* oldest first *)
  pending_resets : nat;                  (* Promise.resolve().then(...) of a click, not yet run *)
  class_timers : list jsstr;             (* setTimeout(..., 1000) not yet run, oldest first *)
  stopPropagation_calls : nat
}.

Definition with_fields (f : MatCheckbox) (c : Component) : Component :=
  mkComponent f (_animationMode c) (_currentAnimationClass c) (classList c)
    (_inputElement c) (clickAction c) (emitted c) (pending_resets c) (class_timers c)
    (stopPropagation_calls c).

Definition with_animation (cls : jsstr) (classes : gset jsstr) (timers : list jsstr)
  (c : Component) : Component :=
  mkComponent (fields c) (_animationMode c) cls classes
    (_inputElement c) (clickAction c) (emitted c) (pending_resets c) timers
    (stopPropagation_calls c).

Definition with_input (input : option NativeInput) (c : Component) : Component :=
  mkComponent (fields c) (_animationMode c) (_currentAnimationClass c) (classList c)
    input (clickAction c) (emitted c) (pending_resets c) (class_timers c)
    (stopPropagation_calls c).

Definition emit (e : Emitted) (c : Component) : Component :=
  mkComponent (fields c) (_animationMode c) (_currentAnimationClass c) (classList c)
    (_inputElement c) (clickAction c) (emitted c ++ [e]) (pending_resets c) (class_timers c)
    (stopPropagation_calls c).

Definition with_pending_resets (n : nat) (c : Component) : Component :=
  mkComponent (fields c) (_animationMode c) (_currentAnimationClass c) (classList c)
    (_inputElement c) (clickAction c) (emitted c) n (class_timers c)
    (stopPropagation_calls c).

Definition stopPropagation (c : Component) : Component :=
  mkComponent (fields c) (_animationMode c) (_currentAnimationClass c) (classList c)
    (_inputElement c) (clickAction c) (emitted c) (pending_resets c) (class_timers c)
    (S (stopPropagation_calls c)).

(** Writes to single fields of [MatCheckbox.MatCheckbox]. *)
Definition set_currentCheckState (s : TransitionCheckState) (f : MatCheckbox) : MatCheckbox :=
  mkCheckbox (_checked f) (_disabled f) (_indeterminate f) s (markForCheck_calls f).

Definition set__indeterminate (b : bool) (f : MatCheckbox) : MatCheckbox :=
  mkCheckbox (_checked f) (_disabled f) b (_currentCheckState f) (markForCheck_calls f).

(** [_getAnimationClassForCheckStateTransition(oldState, newState)]. *)
Definition _getAnimationClassForCheckStateTransition (animationMode : option jsstr)
  (oldState newState : TransitionCheckState) : jsstr :=
  if bool_decide (animationMode = Some (js "NoopAnimations")) then []
  else
    let animSuffix : option jsstr :=
      match oldState with
      | Init =>
          if bool_decide (newState = Checked) then Some (js "unchecked-checked")
          else if bool_decide (newState = Indeterminate) then Some (js "unchecked-indeterminate")
          else None
      | Unchecked =>
          Some (if bool_decide (newState = Checked)
                then js "unchecked-checked" else js "unchecked-indeterminate")
      | Checked =>
          Some (if bool_decide (newState = Unchecked)
                then js "checked-unchecked" else js "checked-indeterminate")
      | Indeterminate =>
          Some (if bool_decide (newState = Checked)
                then js "indeterminate-checked" else js "indeterminate-unchecked")
      end in
    match animSuffix with
    | None => []                                  (* return ''; *)
    | Some animSuffix => js "mat-checkbox-anim-" ++ animSuffix
    end.

(** [_transitionCheckState(newState)]. *)
Definition _transitionCheckState (newState : TransitionCheckState) (this : Component)
  : Component :=
  let oldState := _currentCheckState (fields this) in
  if bool_decide (oldState = newState) then this
  else
    let classes :=
      if (0 <? length (_currentAnimationClass this))%nat
      then classList this ∖ {[ _currentAnimationClass this ]}
      else classList this in
    let animationClass :=
      _getAnimationClassForCheckStateTransition (_animationMode this) oldState newState in
    let this := with_fields (set_currentCheckState newState (fields this)) this in
    if (0 <? length animationClass)%nat then
      with_animation animationClass (classes ∪ {[ animationClass ]})
        (class_timers this ++ [animationClass]) this
    else with_animation animationClass classes (class_timers this) this.

(** The oldest [setTimeout] callback of [_transitionCheckState] runs:
    [element.classList.remove(animationClass)]. *)
Definition run_class_timer (this : Component) : Component :=
  match class_timers this with
  | [] => this
  | animationClass :: timers =>
      with_animation (_currentAnimationClass this) (classList this ∖ {[ animationClass ]})
        timers this
  end.

(** [_syncIndeterminate(value)]. *)
Definition _syncIndeterminate (value : bool) (this : Component) : Component :=
  match _inputElement this with
  | Some nativeCheckbox =>
      with_input (Some (mkNativeInput (native_checked nativeCheckbox) value)) this
  | None => this
  end.

(** [set indeterminate(value)]. *)
Definition set_indeterminate `{Coercion} (value : BooleanInput) (this : Component) : Component :=
  let changed := loosely_unequal value (_indeterminate (fields this)) in
  let this := with_fields (set__indeterminate (coerceBooleanProperty value) (fields this)) this in
  let this :=
    if changed then
      let this :=
        if _indeterminate (fields this) then _transitionCheckState Indeterminate this
        else _transitionCheckState
               (if checked (fields this) then Checked else Unchecked) this in
      emit (IndeterminateChange (_indeterminate (fields this))) this
    else this in
  _syncIndeterminate (_indeterminate (fields this)) this.

(** [writeValue(value)], [value] given by its truthiness [!!value]. *)
Definition writeValue (truthy_value : bool) (this : Component) : Component :=
  with_fields (set_checked truthy_value (fields this)) this.

(** [toggle()] on the component. *)
Definition toggle_checked (this : Component) : Component :=
  with_fields (toggle (fields this)) this.

(** [_emitChangeEvent()]. *)
Definition _emitChangeEvent (this : Component) : Component :=
  let event_checked := checked (fields this) in
  let this := emit (ControlValueAccessorChange (checked (fields this))) this in
  emit (Change event_checked) this.

(** [_onInputClick(event)]; [None] stands for the [TypeError] of reading
    [this._inputElement.nativeElement] while there is no input. *)
Definition _onInputClick (this : Component) : option Component :=
  let clickAction := clickAction this in
  let this := stopPropagation this in
  if negb (_disabled (fields this)) && negb (bool_decide (clickAction = Some noop)) then
    let this :=
      if indeterminate (fields this) && negb (bool_decide (clickAction = Some check))
      then with_pending_resets (S (pending_resets this)) this
      else this in
    let this := toggle_checked this in
    let this := _transitionCheckState
                  (if _checked (fields this) then Checked else Unchecked) this in
    Some (_emitChangeEvent this)
  else if negb (_disabled (fields this)) && bool_decide (clickAction = Some noop) then
    match _inputElement this with
    | Some _ =>
        Some (with_input (Some (mkNativeInput (checked (fields this))
                                  (indeterminate (fields this)))) this)
    | None => None
    end
  else Some this.

(** The oldest microtask queued by a click runs:
    [this._indeterminate = false; this.indeterminateChange.emit(this._indeterminate)]. *)
Definition run_indeterminate_reset (this : Component) : Component :=
  match pending_resets this with
  | O => this
  | S n =>
      let this := with_pending_resets n this in
      let this := with_fields (set__indeterminate false (fields this)) this in
      emit (IndeterminateChange (_indeterminate (fields this))) this
  end.

(** The name a transition state has in the animation classes; the
    initial state counts as unchecked. *)
Definition state_name (s : TransitionCheckState) : jsstr :=
  match s with
  | Init | Unchecked => js "unchecked"
  | Checked => js "checked"
  | Indeterminate => js "indeterminate"
  end.

(** A class name of the animation family. *)
Definition is_animation_class (cls : jsstr) : bool :=
  ElementSelectorsMigration.startsWith cls (js "mat-checkbox-anim-").

(** At most the current animation class is on the element. *)
Definition one_animation_class (c : Component) : Prop :=
  ∀ cls, cls ∈ classList c → is_animation_class cls = true →
         cls = _currentAnimationClass c.

(** A component as constructed and rendered: unchecked, enabled, nothing
    emitted or pending, the given classes on the host. *)
Definition new_component (classes : gset jsstr) (action : option ClickAction) : Component :=
  mkComponent new_checkbox None [] classes (Some (mkNativeInput false false)) action
    [] 0 [] 0.

(** A coercion to run the setter on.  [coerceBooleanProperty] gives a
    boolean back, false for [null], [undefined] and the string [false],
    and true for every other string.  Of the numbers of strings it knows
    those written with decimal digits only, and 0 for the empty string;
    any other string counts as no number. *)
Definition digits_number_is (s : jsstr) (b : bool) : bool :=
  match rev s with
  | [] => negb b
  | last :: before =>
      forallb (fun c => c =? 48) before
      && (if b then last =? 49 else last =? 48)
  end.

Definition boolean_coercion : Coercion :=
  {| coerceBooleanProperty := fun value =>
       match value with
       | InBoolean b => b
       | InString s => negb (bool_decide (s = js "false"))
       | InNull | InUndefined => false
       end;
     string_equals_boolean := digits_number_is |}.

End MatCheckboxComponent.

(* ===================================================================== *)
(** ** cdk/schematics/ng-update/migrations/property-names.ts *)
(* ===================================================================== *)

Module PropertyNamesMigration.

Import ElementSelectorsMigration.

(** [PropertyNameUpgradeData]; [limitedTo] is absent or [{classes}]. *)
Record PropertyNameUpgradeData := mkPropertyName {
  pn_replace : jsstr;
  pn_replaceWith : jsstr;
  pn_limitedTo : option (list jsstr)
}.

(** A [ts.Node], through what the migration reads of it: for a property
    access expression the accessed name ([node.name.text], [getStart()],
    [getWidth()]), the name of the symbol of the host expression's type
    if the type checker finds one, and the source file. *)
Inductive TsNode :=
| PropertyAccessExpression (name_text : jsstr) (name_start name_width : nat)
    (typeName : option jsstr) (fileName : jsstr)
| OtherNode.

(** [!data.limitedTo || data.limitedTo.classes.includes(typeName)]. *)
Definition applies_to (data : PropertyNameUpgradeData) (typeName : option jsstr) : bool :=
  match pn_limitedTo data with
  | None => true
  | Some classes =>
      match typeName with
      | Some t => bool_decide (t ∈ classes)
      | None => false
      end
  end.

(** The body of [this.data.forEach(data => ...)]. *)
Definition visit_with `{UpdateTool} (name_text : jsstr) (name_start name_width : nat)
  (typeName : option jsstr) (fileName : jsstr)
  (edits : list EditOp) (data : PropertyNameUpgradeData) : list EditOp :=
  if negb (bool_decide (name_text = pn_replace data)) then edits
  else if applies_to data typeName then
    edits ++ [Remove (resolve fileName) name_start name_width;
              InsertRight (resolve fileName) name_start (pn_replaceWith data)]
  else edits.

(** [visitNode(node)], with [_visitPropertyAccessExpression] inside. *)
Definition visitNode `{UpdateTool} (data : list PropertyNameUpgradeData) (node : TsNode)
  (edits : list EditOp) : list EditOp :=
  match node with
  | PropertyAccessExpression name_text name_start name_width typeName fileName =>
      fold_left (visit_with name_text name_start name_width typeName fileName) data edits
  | OtherNode => edits
  end.

(** The entries of the data that rename an access to [name_text] on a
    host of type [typeName]. *)
Definition renames (data : list PropertyNameUpgradeData) (name_text : jsstr)
  (typeName : option jsstr) : list PropertyNameUpgradeData :=
  List.filter (fun d => bool_decide (name_text = pn_replace d) && applies_to d typeName) data.

(** The file and position an operation is about. *)
Definition op_path (op : EditOp) : jsstr :=
  match op with Remove p _ _ | InsertRight p _ _ => p end.

Definition op_index (op : EditOp) : nat :=
  match op with Remove _ i _ | InsertRight _ i _ => i end.

(** What an operation recorded for a resource must satisfy to be in
    place: it is in the resource's file, not before its start, a removal
    takes out text of the content that is an old name of the data, and an
    insertion puts in a new name of the data. *)
Definition in_place (data : list ElementSelectorUpgradeData) (resource : ResolvedResource)
  (op : EditOp) : Prop :=
  op_path op = filePath resource
  ∧ (start resource <= op_index op)%nat
  ∧ match op with
    | Remove _ index len =>
        ∃ selector, selector ∈ data ∧ len = length (replace selector)
          ∧ take len (drop (index - start resource) (content resource)) = replace selector
    | InsertRight _ _ text =>
        ∃ selector, selector ∈ data ∧ text = replaceWith selector
    end.

End PropertyNamesMigration.

(* ===================================================================== *)
(** ** form-field/error.ts and checkbox.ts: generated ids *)
(* ===================================================================== *)

Module UniqueIds.

(** [`${n}`] for a non-negative integer [n] below 2^53: its decimal
    digits. *)
Fixpoint uint_digits (d : Decimal.uint) : jsstr :=
  match d with
  | Decimal.Nil => []
  | Decimal.D0 d => 48 :: uint_digits d
  | Decimal.D1 d => 49 :: uint_digits d
  | Decimal.D2 d => 50 :: uint_digits d
  | Decimal.D3 d => 51 :: uint_digits d
  | Decimal.D4 d => 52 :: uint_digits d
  | Decimal.D5 d => 53 :: uint_digits d
  | Decimal.D6 d => 54 :: uint_digits d
  | Decimal.D7 d => 55 :: uint_digits d
  | Decimal.D8 d => 56 :: uint_digits d
  | Decimal.D9 d => 57 :: uint_digits d
  end.

Definition number_to_string (n : N) : jsstr := uint_digits (N.to_uint n).

(** The value [nextUniqueId] holds after [nextUniqueId++] or
    [++nextUniqueId], for a counter that started at 0: the sum is exact
    below 2^53, and 2^53 + 1 is rounded back to 2^53. *)
Definition increment (nextUniqueId : N) : N :=
  if nextUniqueId <? 2 ^ 53 then nextUniqueId + 1 else nextUniqueId.

(** [class MatError { @Input() id: string = `mat-error-${nextUniqueId++}`; }]:
    the instance and the counter it leaves. *)
Record MatError := mkMatError { id : jsstr }.

Definition new_MatError (nextUniqueId : N) : MatError * N :=
  (mkMatError (js "mat-error-" ++ number_to_string nextUniqueId), increment nextUniqueId).

(** [n] instances made one after the other. *)
Fixpoint new_MatErrors (n : nat) (nextUniqueId : N) : list MatError * N :=
  match n with
  | O => ([], nextUniqueId)
  | S n =>
      let '(e, next) := new_MatError nextUniqueId in
      let '(es, last) := new_MatErrors n next in
      (e :: es, last)
  end.

(** The id fields of a checkbox:
    [private _uniqueId: string = `mat-checkbox-${++nextUniqueId}`;]
    [@Input() id: string = this._uniqueId;]. *)
Record CheckboxIds := mkCheckboxIds {
  _uniqueId : jsstr;
  checkbox_id : jsstr
}.

Definition new_CheckboxIds (nextUniqueId : N) : CheckboxIds * N :=
  let nextUniqueId := increment nextUniqueId in
  let _uniqueId := js "mat-checkbox-" ++ number_to_string nextUniqueId in
  (mkCheckboxIds _uniqueId _uniqueId, nextUniqueId).

(** [get inputId(): string { return `${this.id || this._uniqueId}-input`; }]. *)
Definition inputId (this : CheckboxIds) : jsstr :=
  or_else (Some (checkbox_id this)) (_uniqueId this) ++ js "-input".

(** The [id] input bound to another value. *)
Definition set_id (value : jsstr) (this : CheckboxIds) : CheckboxIds :=
  mkCheckboxIds (_uniqueId this) value.

Fixpoint new_Checkboxes (n : nat) (nextUniqueId : N) : list CheckboxIds * N :=
  match n with
  | O => ([], nextUniqueId)
  | S n =>
      let '(c, next) := new_CheckboxIds nextUniqueId in
      let '(cs, last) := new_Checkboxes n next in
      (c :: cs, last)
  end.

End UniqueIds.

(* ===================================================================== *)
(** ** cdk/text-field/autosize.ts *)
(* ===================================================================== *)

Module CdkTextareaAutosize.

(** [`${n}px`] for an integer [n] that a number holds exactly (up to
    2^53 in size), where the digits of the number are what is printed. *)
Definition px (n : Z) : jsstr :=
  (if (n <? 0)%Z then js "-" else [])
  ++ UniqueIds.number_to_string (Z.abs_N n) ++ js "px".

(** The textarea element, through what the directive reads and writes of
    it; a style property holds the text last assigned to it. *)
Record Textarea := mkTextarea {
  value : jsstr;
  placeholder : jsstr;
  classList : gset jsstr;
  style_height : jsstr;
  style_minHeight : jsstr;
  style_maxHeight : jsstr
}.

(** What the browser's layout supplies: [textarea.scrollHeight], and the
    [clientHeight] of the one-row clone made to measure a line. *)
Class Layout := {
  scrollHeight : Textarea -> Z;
  clone_clientHeight : Textarea -> Z
}.

(** The directive. [_minRows], [_maxRows] and [_cachedLineHeight] are
    [undefined] until assigned; rows are whole numbers, as heights
    are. *)
Record Autosize := mkAutosize {
  _previousValue : option jsstr;
  _initialHeight : option jsstr;
  _minRows : option Z;
  _maxRows : option Z;
  _enabled : bool;
  _previousMinRows : option Z;
  _cachedLineHeight : option Z;
  isBrowser : bool;                 (* this._platform.isBrowser *)
  _measuringClass : jsstr;
  textarea : Textarea;
  frames_requested : nat            (* requestAnimationFrame / setTimeout callbacks asked for *)
}.

(** The directive as constructed on an element. *)
Definition new_autosize (FIREFOX browser : bool) (element : Textarea) : Autosize :=
  mkAutosize None None None None true (Some (-1)%Z) None browser
    (if FIREFOX then js "cdk-textarea-autosize-measuring-firefox"
     else js "cdk-textarea-autosize-measuring")
    element 0.

(** Truthiness of a number that may be [undefined]. *)
Definition truthy_number (n : option Z) : bool :=
  match n with
  | Some n => negb (n =? 0)%Z
  | None => false
  end.

Definition with_textarea (t : Textarea) (this : Autosize) : Autosize :=
  mkAutosize (_previousValue this) (_initialHeight this) (_minRows this) (_maxRows this)
    (_enabled this) (_previousMinRows this) (_cachedLineHeight this) (isBrowser this)
    (_measuringClass this) t (frames_requested this).

Definition set_style_height (h : jsstr) (t : Textarea) : Textarea :=
  mkTextarea (value t) (placeholder t) (classList t) h (style_minHeight t) (style_maxHeight t).

Definition set_style_minHeight (h : jsstr) (t : Textarea) : Textarea :=
  mkTextarea (value t) (placeholder t) (classList t) (style_height t) h (style_maxHeight t).

Definition set_style_maxHeight (h : jsstr) (t : Textarea) : Textarea :=
  mkTextarea (value t) (placeholder t) (classList t) (style_height t) (style_minHeight t) h.

Definition set_classList (classes : gset jsstr) (t : Textarea) : Textarea :=
  mkTextarea (value t) (placeholder t) classes (style_height t) (style_minHeight t)
    (style_maxHeight t).

Definition set_placeholder (p : jsstr) (t : Textarea) : Textarea :=
  mkTextarea (value t) p (classList t) (style_height t) (style_minHeight t)
    (style_maxHeight t).

(** [_setMinHeight()]. *)
Definition _setMinHeight (this : Autosize) : Autosize :=
  match _minRows this, _cachedLineHeight this with
  | Some rows, Some line =>
      if truthy_number (Some rows) && truthy_number (Some line) then
        with_textarea (set_style_minHeight (px (rows * line)) (textarea this)) this
      else this
  | _, _ => this
  end.

(** [_setMaxHeight()]. *)
Definition _setMaxHeight (this : Autosize) : Autosize :=
  match _maxRows this, _cachedLineHeight this with
  | Some rows, Some line =>
      if truthy_number (Some rows) && truthy_number (Some line) then
        with_textarea (set_style_maxHeight (px (rows * line)) (textarea this)) this
      else this
  | _, _ => this
  end.

(** [set minRows(value)] and [set maxRows(value)], [value] already
    through [coerceNumberProperty]. *)
Definition set_minRows (coerced : Z) (this : Autosize) : Autosize :=
  _setMinHeight
    (mkAutosize (_previousValue this) (_initialHeight this) (Some coerced) (_maxRows this)
       (_enabled this) (_previousMinRows this) (_cachedLineHeight this) (isBrowser this)
       (_measuringClass this) (textarea this) (frames_requested this)).

Definition set_maxRows (coerced : Z) (this : Autosize) : Autosize :=
  _setMaxHeight
    (mkAutosize (_previousValue this) (_initialHeight this) (_minRows this) (Some coerced)
       (_enabled this) (_previousMinRows this) (_cachedLineHeight this) (isBrowser this)
       (_measuringClass this) (textarea this) (frames_requested this)).

(** [_cacheTextareaLineHeight()]; the clone is appended, measured and
    removed again. *)
Definition _cacheTextareaLineHeight `{Layout} (this : Autosize) : Autosize :=
  if truthy_number (_cachedLineHeight this) then this
  else
    let this :=
      mkAutosize (_previousValue this) (_initialHeight this) (_minRows this) (_maxRows this)
        (_enabled this) (_previousMinRows this) (Some (clone_clientHeight (textarea this)))
        (isBrowser this) (_measuringClass this) (textarea this) (frames_requested this) in
    _setMaxHeight (_setMinHeight this).

(** [resizeToFitContent(force = false)]. *)
Definition resizeToFitContent `{Layout} (force : bool) (this : Autosize) : Autosize :=
  if negb (_enabled this) then this
  else
    let this := _cacheTextareaLineHeight this in
    if negb (truthy_number (_cachedLineHeight this)) then this
    else
      let value := value (textarea this) in
      if negb force && bool_decide (_minRows this = _previousMinRows this)
         && bool_decide (Some value = _previousValue this)
      then this
      else
        let placeholderText := placeholder (textarea this) in
        let t := set_classList (classList (textarea this) ∪ {[ _measuringClass this ]})
                   (textarea this) in
        let t := set_placeholder [] t in
        let height := (scrollHeight t - 4)%Z in
        let t := set_style_height (px height) t in
        let t := set_classList (classList t ∖ {[ _measuringClass this ]}) t in
        let t := set_placeholder placeholderText t in
        mkAutosize (Some value) (_initialHeight this) (_minRows this) (_maxRows this)
          (_enabled this) (_minRows this) (_cachedLineHeight this) (isBrowser this)
          (_measuringClass this) t (S (frames_requested this)).

(** [reset()]. *)
Definition reset (this : Autosize) : Autosize :=
  match _initialHeight this with
  | Some h => with_textarea (set_style_height h (textarea this)) this
  | None => this
  end.

(** [set enabled(value)], [value] already through
    [coerceBooleanProperty]. *)
Definition set_enabled `{Layout} (coerced : bool) (this : Autosize) : Autosize :=
  if negb (Bool.eqb (_enabled this) coerced) then
    let this :=
      mkAutosize (_previousValue this) (_initialHeight this) (_minRows this) (_maxRows this)
        coerced (_previousMinRows this) (_cachedLineHeight this) (isBrowser this)
        (_measuringClass this) (textarea this) (frames_requested this) in
    if coerced then resizeToFitContent true this else reset this
  else this.

(** [ngAfterViewInit()], up to the subscription to window resizes. *)
Definition ngAfterViewInit `{Layout} (this : Autosize) : Autosize :=
  if isBrowser this then
    let this :=
      mkAutosize (_previousValue this) (Some (style_height (textarea this))) (_minRows this)
        (_maxRows this) (_enabled this) (_previousMinRows this) (_cachedLineHeight this)
        (isBrowser this) (_measuringClass this) (textarea this) (frames_requested this) in
    resizeToFitContent false this
  else this.

(** [ngDoCheck()]. *)
Definition ngDoCheck `{Layout} (this : Autosize) : Autosize :=
  if isBrowser this then resizeToFitContent false this else this.

(** The user types: the element's value changes. *)
Definition input (text : jsstr) (this : Autosize) : Autosize :=
  with_textarea
    (mkTextarea text (placeholder (textarea this)) (classList (textarea this))
       (style_height (textarea this)) (style_minHeight (textarea this))
       (style_maxHeight (textarea this))) this.

(** What happens to a directive between two moments. *)
Inductive Step :=
| StepInput (text : jsstr)
| StepDoCheck
| StepResize (force : bool)
| StepMinRows (coerced : Z)
| StepMaxRows (coerced : Z).

Definition step `{Layout} (s : Step) (this : Autosize) : Autosize :=
  match s with
  | StepInput text => input text this
  | StepDoCheck => ngDoCheck this
  | StepResize force => resizeToFitContent force this
  | StepMinRows coerced => set_minRows coerced this
  | StepMaxRows coerced => set_maxRows coerced this
  end.

Definition steps `{Layout} (l : list Step) (this : Autosize) : Autosize :=
  fold_left (fun this s => step s this) l this.

(** A layout to run the directive on: 20px a line, one line per line
    feed of the value, and 4px of padding while measuring. *)
Definition example_layout : Layout :=
  {| scrollHeight := fun t =>
       (20 * Z.of_nat (S (length (List.filter (fun c => (c =? 10)%N) (value t)))) + 4)%Z;
     clone_clientHeight := fun _ => 20%Z |}.

End CdkTextareaAutosize.

(* ===================================================================== *)
(** * Properties *)
(* ===================================================================== *)

(** ** [ProtractorElement.hasClass] *)

Example split_ws_pieces : split_ws (js " a  b ") = [[]; js "a"; js "b"; []].
Proof. reflexivity. Qed.

Example split_ws_empty : split_ws [] = [[]].
Proof. reflexivity. Qed.

Example hasClass_second_of_two :
  ProtractorElement.hasClass
    (mkElement 0 {[ "class" := js "mat-a  mat-b" ]} [] []) (js "mat-b") = true.
Proof. vm_compute. reflexivity. Qed.

Lemma truthy_nonempty (s : jsstr) : truthy s = true ↔ s ≠ [].
Proof. destruct s; simpl; split; intros; congruence. Qed.

(** *** What [split] yields *)

(** [piece_of c s p]: [p] is a token of [c ++ s], [c] being free of white
    space and not preceded by anything: either [p] starts with [c], or it
    lies inside [s] behind white space. *)
Definition piece_of (c s p : jsstr) : Prop :=
  (∃ t post, s = t ++ post ∧ p = c ++ t ∧ boundary (head post) = true)
  ∨ (∃ pre post, s = pre ++ p ++ post ∧ pre ≠ []
                 ∧ boundary (last pre) = true ∧ boundary (head post) = true).

Lemma boundary_last_cons (ch : N) (pre : jsstr) :
  pre ≠ [] → boundary (last (ch :: pre)) = boundary (last pre).
Proof. destruct pre as [|c pre]; [done|]. intros _. by rewrite last_cons_cons. Qed.

Lemma piece_of_white (c rest p : jsstr) (ch : N) :
  isWhiteSpace ch = true → no_white_space c → p ≠ [] →
  no_white_space p ∧ piece_of c (ch :: rest) p ↔
  p = c ∨ (no_white_space p ∧ piece_of [] rest p).
Proof.
  intros Hch Hc Hp. split.
  - intros [Hnows [(t & post & Hs & -> & Hpost)|(pre & post & Hs & Hpre & Hlast & Hpost)]].
    + left. destruct t as [|x t]; [by rewrite app_nil_r|].
      simpl in Hs. injection Hs as <- _.
      apply Forall_app in Hnows as [_ Hnows]. apply Forall_cons in Hnows as [Hx _].
      congruence.
    + right. split; [done|].
      destruct pre as [|x pre]; [done|]. simpl in Hs. injection Hs as <- Hrest.
      destruct pre as [|y pre].
      * left. exists p, post. by simpl in Hrest.
      * right. exists (y :: pre), post. rewrite last_cons_cons in Hlast. done.
  - intros [->|[Hnows [(t & post & Hs & Ht & Hpost)|(pre & post & Hs & Hpre & Hlast & Hpost)]]].
    + split; [done|]. left. exists [], (ch :: rest). by rewrite app_nil_r.
    + split; [done|]. simpl in Ht. subst t. right.
      exists [ch], post. simpl. by rewrite Hs.
    + split; [done|]. right. exists (ch :: pre), post. simpl.
      rewrite Hs, boundary_last_cons by done. done.
Qed.

Lemma piece_of_letter (c rest p : jsstr) (ch : N) :
  isWhiteSpace ch = false →
  piece_of c (ch :: rest) p ↔ piece_of (c ++ [ch]) rest p.
Proof.
  intros Hch. split.
  - intros [(t & post & Hs & -> & Hpost)|(pre & post & Hs & Hpre & Hlast & Hpost)].
    + left. destruct t as [|x t].
      * simpl in Hs. subst post. simpl in Hpost. congruence.
      * simpl in Hs. injection Hs as <- Hrest.
        exists t, post. by rewrite <- app_assoc.
    + right. destruct pre as [|x pre]; [done|]. simpl in Hs. injection Hs as <- Hrest.
      destruct pre as [|y pre]; [simpl in Hlast; congruence|].
      exists (y :: pre), post. rewrite last_cons_cons in Hlast. done.
  - intros [(t & post & Hs & -> & Hpost)|(pre & post & Hs & Hpre & Hlast & Hpost)].
    + left. exists (ch :: t), post. simpl. rewrite Hs, <- app_assoc. done.
    + right. exists (ch :: pre), post. simpl.
      rewrite Hs, boundary_last_cons by done. done.
Qed.

Lemma split_ws_from_pieces (s cur : jsstr) (inRun : bool) (p : jsstr) :
  no_white_space (rev cur) → (inRun = true → cur = []) → p ≠ [] →
  p ∈ split_ws_from cur inRun s ↔ no_white_space p ∧ piece_of (rev cur) s p.
Proof.
  revert cur inRun. induction s as [|ch rest IH]; intros cur inRun Hcur Hrun Hp; simpl.
  - rewrite list_elem_of_singleton. split.
    + intros ->. split; [done|]. left. exists [], []. by rewrite !app_nil_r.
    + intros [_ [(t & post & Hs & -> & _)|(pre & post & Hs & Hpre & _)]].
      * symmetry in Hs. apply app_eq_nil in Hs as [-> _]. by rewrite app_nil_r.
      * symmetry in Hs. by apply app_eq_nil in Hs as [-> _].
  - destruct (isWhiteSpace ch) eqn:Hch.
    + rewrite (piece_of_white _ _ _ _ Hch Hcur Hp).
      rewrite <- (IH [] true) by (done || constructor).
      destruct inRun.
      * rewrite (Hrun eq_refl). simpl. split; [by right|].
        intros [->|Hin]; [done|done].
      * rewrite elem_of_cons. done.
    + rewrite (piece_of_letter _ _ _ _ Hch).
      apply (IH (ch :: cur) false); [|done|done].
      simpl. apply Forall_app. split; [done|]. by constructor.
Qed.

Lemma split_ws_token (s name : jsstr) :
  name ≠ [] ∧ name ∈ split_ws s ↔ token s name.
Proof.
  unfold token, split_ws. split.
  - intros [Hne Hin]. split; [done|].
    apply (split_ws_from_pieces s [] false name) in Hin as [Hnows Hpiece];
      [|constructor|done|done].
    split; [done|].
    destruct Hpiece as [(t & post & Hs & Ht & Hpost)|(pre & post & Hs & Hpre & Hlast & Hpost)].
    + simpl in Ht. subst t. by exists [], post.
    + by exists pre, post.
  - intros (Hne & Hnows & pre & post & Hs & Hlast & Hpost). split; [done|].
    apply (split_ws_from_pieces s [] false name); [constructor|done|done|].
    split; [done|]. destruct pre as [|x pre].
    + left. by exists name, post.
    + right. by exists (x :: pre), post.
Qed.

Lemma classSet_elem (e : Element) (name : jsstr) :
  name ∈ ProtractorElement.classSet e ↔
  name ≠ [] ∧ name ∈ split_ws (or_else (getAttribute e "class") []).
Proof.
  unfold ProtractorElement.classSet.
  rewrite elem_of_list_to_set, list_elem_of_In, filter_In, <- list_elem_of_In.
  rewrite truthy_nonempty. tauto.
Qed.

(** C3, as the code has it: [hasClass] is true exactly for the non-empty
    members of the set of pieces obtained by splitting the class
    attribute (the empty string when the attribute is missing) on runs of
    white space; the empty pieces the split yields are dropped before the
    membership test.  Said without the split: exactly for the tokens of
    the class attribute.  Nothing but the class attribute is read. *)
Theorem hasClass_nonempty_piece (e : Element) (name : jsstr) :
  (ProtractorElement.hasClass e name = true ↔
   name ≠ [] ∧
   name ∈ (list_to_set (split_ws (or_else (getAttribute e "class") [])) : gset jsstr))
  ∧ (ProtractorElement.hasClass e name = true ↔
     token (or_else (getAttribute e "class") []) name).
Proof.
  unfold ProtractorElement.hasClass.
  rewrite bool_decide_eq_true, classSet_elem, elem_of_list_to_set, split_ws_token.
  done.
Qed.

(** C3, as the claim has it, fails: on an element without a class
    attribute the split of the empty string has the empty string as its
    one piece, and [hasClass('')] is false. *)
Lemma hasClass_empty_name_counterexample :
  let e := mkElement 0 ∅ [] [] in
  ([] : jsstr) ∈ (list_to_set (split_ws (or_else (getAttribute e "class") [])) : gset jsstr)
  ∧ ProtractorElement.hasClass_unfiltered e [] = true
  ∧ ProtractorElement.hasClass e [] = false.
Proof.
  cbn zeta. split; [|split].
  - apply elem_of_list_to_set. vm_compute. left.
  - vm_compute. reflexivity.
  - vm_compute. reflexivity.
Qed.

(** [hasClass] reads nothing of the element but its class attribute. *)
Lemma hasClass_depends_on_class_attribute (e1 e2 : Element) (name : jsstr) :
  getAttribute e1 "class" = getAttribute e2 "class" →
  ProtractorElement.hasClass e1 name = ProtractorElement.hasClass e2 name.
Proof.
  intros Heq. unfold ProtractorElement.hasClass, ProtractorElement.classSet.
  rewrite Heq. reflexivity.
Qed.

(** ** [ProtractorElement.selectOptions] *)

Import ProtractorElement.

Example selectOptions_two_of_three :
  selectOptions (mkFinder (mkElement 0 ∅ [] []) 3) [2; 0; 2; 7]%Z [] =
  [SetInputValue [];
   KeyDown CONTROL; OptionClick 0; KeyUp CONTROL;
   KeyDown CONTROL; OptionClick 2; KeyUp CONTROL].
Proof. vm_compute. reflexivity. Qed.

Lemma selectOptions_loop_log (indexes : gset Z) (idx : list nat) (log : list BrowserAction) :
  selectOptions_loop indexes idx log =
  log ++ flat_map control_click (filter (λ i, Z.of_nat i ∈ indexes) idx).
Proof.
  revert log. induction idx as [|i idx IH]; intros log; simpl.
  - by rewrite app_nil_r.
  - rewrite filter_cons. case_bool_decide as Hi.
    + rewrite decide_True by done. rewrite IH. simpl. by rewrite <- app_assoc.
    + rewrite decide_False by done. apply IH.
Qed.

Lemma clicks_with_control_click (l : list nat) (down : bool) :
  clicks_with CONTROL down (flat_map control_click l) = true.
Proof.
  revert down. induction l as [|i l IH]; intros down; simpl; [done|].
  apply IH.
Qed.

Lemma indexes_nonempty (optionIndexes : list Z) :
  size (list_to_set optionIndexes : gset Z) ≠ 0%nat ↔ optionIndexes ≠ [].
Proof.
  rewrite size_non_empty_iff. destruct optionIndexes as [|x l]; simpl.
  - split; [intros H; by destruct H|done].
  - split; [done|]. intros _. set_solver.
Qed.

Lemma selectOptions_unfold (this : ElementFinder) (optionIndexes : list Z)
  (log : list BrowserAction) :
  selectOptions this optionIndexes log =
    if bool_decide (n_options this ≠ 0%nat ∧ optionIndexes ≠ []) then
      log ++ SetInputValue [] ::
        flat_map control_click
          (filter (λ i, Z.of_nat i ∈ optionIndexes) (seq 0 (n_options this)))
    else log.
Proof.
  unfold selectOptions, setInputValue.
  rewrite <- bool_decide_and.
  rewrite (bool_decide_ext _ (n_options this ≠ 0%nat ∧ optionIndexes ≠ []))
    by (by rewrite indexes_nonempty).
  case_bool_decide; [|done].
  rewrite selectOptions_loop_log, <- app_assoc. simpl. do 3 f_equal.
  apply list_filter_iff. intros i. apply elem_of_list_to_set.
Qed.

(** C1, as the code has it: when the element has an option and an index
    is given, [selectOptions] first resets the value to the empty string
    and then, for each option position in ascending order that is among
    the given indices, presses the control key, clicks that option and
    releases the key; the control key is down at every click, whatever
    the selection mode.  When the element has no option or no index is
    given, nothing is sent and the selection stays as it is. *)
Theorem selectOptions_log (this : ElementFinder) (optionIndexes : list Z)
  (log : list BrowserAction) :
  selectOptions this optionIndexes log =
    (if bool_decide (n_options this ≠ 0%nat ∧ optionIndexes ≠ []) then
       log ++ SetInputValue [] ::
         flat_map control_click
           (filter (λ i, Z.of_nat i ∈ optionIndexes) (seq 0 (n_options this)))
     else log)
  ∧ clicks_with CONTROL false (selectOptions this optionIndexes []) = true.
Proof.
  split; [apply selectOptions_unfold|].
  rewrite selectOptions_unfold. case_bool_decide; [|done].
  simpl. apply clicks_with_control_click.
Qed.

(** C1, as the claim has it, fails: a call that gives no index sends
    nothing, so the selection is not cleared. *)
Lemma selectOptions_no_index_counterexample :
  selectOptions (mkFinder (mkElement 0 ∅ [] []) 2) [] [] = []
  ∧ ¬ SetInputValue [] ∈ selectOptions (mkFinder (mkElement 0 ∅ [] []) 2) [] [].
Proof.
  split; [vm_compute; reflexivity|].
  replace (selectOptions (mkFinder (mkElement 0 ∅ [] []) 2) [] []) with (@nil BrowserAction)
    by (vm_compute; reflexivity).
  apply not_elem_of_nil.
Qed.

(** Each given position that names an option is clicked once, in
    ascending order; a repeated or out-of-range index adds nothing. *)
Lemma selectOptions_clicked (this : ElementFinder) (optionIndexes : list Z) :
  n_options this ≠ 0%nat → optionIndexes ≠ [] →
  clicked (selectOptions this optionIndexes []) =
  filter (λ i, Z.of_nat i ∈ optionIndexes) (seq 0 (n_options this)).
Proof.
  intros Hn Hi. rewrite selectOptions_unfold, bool_decide_true by done.
  generalize (filter (λ i, Z.of_nat i ∈ optionIndexes) (seq 0 (n_options this))).
  intros l. unfold clicked. simpl.
  induction l as [|i l IH]; simpl; [done|]. by rewrite IH.
Qed.

(** ** [HarnessPredicate] *)

Lemma bind_resolved {A B} (m : Async A) (k : A → Async B) (w w' : World) (a : A) :
  m w = (Resolved a, w') → bind m k w = k a w'.
Proof. intros Hm. unfold bind. by rewrite Hm. Qed.

Lemma bind_rejected {A B} (m : Async A) (k : A → Async B) (w w' : World) (e : JsError) :
  m w = (Rejected e, w') → bind m k w = (Rejected e, w').
Proof. intros Hm. unfold bind. by rewrite Hm. Qed.

Lemma bind_assoc {A B C} (m : Async A) (k : A → Async B) (k' : B → Async C) (w : World) :
  bind (bind m k) k' w = bind m (λ a, bind (k a) k') w.
Proof. unfold bind. by destruct (m w) as [[a|e] w']. Qed.

Lemma bind_at {A B} (m m' : Async A) (k : A → Async B) (w : World) :
  m w = m' w → bind m k w = bind m' k w.
Proof. intros Hm. unfold bind. by rewrite Hm. Qed.

Lemma evaluate_checks_snoc {T : Type} (checks : list (string * (T → Async bool)))
  (name : string) (check : T → Async bool) (harness : T) (w : World) :
  evaluate_checks (checks ++ [(name, check)]) harness w =
  (let* a := evaluate_checks checks harness in
   let* b := check harness in
   ret (a && b)) w.
Proof.
  revert w. induction checks as [|[n c] checks IH]; intros w; simpl.
  - unfold bind, ret. destruct (check harness w) as [[b|e] w']; [|done].
    by rewrite andb_true_r.
  - rewrite bind_assoc.
    destruct (c harness w) as [[b|e] w'] eqn:Hc.
    + rewrite !(bind_resolved _ _ _ _ _ Hc).
      rewrite (bind_at _ _ _ _ (IH w')), !bind_assoc.
      unfold bind, ret.
      destruct (evaluate_checks checks harness w') as [[bs|e] w1]; [|done].
      destruct (check harness w1) as [[b'|e] w2]; [|done].
      by rewrite andb_assoc.
    + by rewrite !(bind_rejected _ _ _ _ _ Hc).
Qed.

Example stringMatches_foo_exact (w : World) :
  stringMatches (ret (js "foo")) (Str (js "foo")) w = (Resolved true, w)
  ∧ stringMatches (ret (js "foobar")) (Str (js "foo")) w = (Resolved false, w).
Proof. split; reflexivity. Qed.

Example stringMatches_foo_prefix (w : World) :
  let starts_with_f := mkRegExp (js "^f") (λ s, match s with 102 :: _ => true | _ => false end) in
  stringMatches (ret (js "foo")) (Re starts_with_f) w = (Resolved true, w)
  ∧ stringMatches (ret (js "bar")) (Re starts_with_f) w = (Resolved false, w).
Proof. split; reflexivity. Qed.

(** C2: a check registered with [addOption] is skipped when the value
    is undefined: the predicate is the same as before; with a value, the
    predicate resolves to the earlier result and [matchFn(harness, value)];
    [stringMatches] on a literal string resolves true exactly on equality
    with the text, and on a pattern resolves to the pattern's test of the
    text; the autocomplete's [with] filters on [getValue] in this way. *)
Theorem addOption_stringMatches :
  (∀ (T O : Type) (p : HarnessPredicate T) name (matchFn : T → O → Async bool),
      addOption p name None matchFn = p)
  ∧ (∀ (T O : Type) (p : HarnessPredicate T) name (v : O) (matchFn : T → O → Async bool)
       (harness : T) (w : World),
      evaluate (addOption p name (Some v) matchFn) harness w =
      (let* a := evaluate p harness in
       let* b := matchFn harness v in
       ret (a && b)) w)
  ∧ (∀ (T O : Type) (p : HarnessPredicate T) name (v : O) (matchFn : T → O → Async bool)
       (harness : T) (w w' : World),
      evaluate (addOption p name (Some v) matchFn) harness w = (Resolved true, w') →
      ∃ w1, evaluate p harness w = (Resolved true, w1)
            ∧ matchFn harness v w1 = (Resolved true, w'))
  ∧ (∀ (text s : jsstr) (w : World),
      stringMatches (ret text) (Str s) w = (Resolved true, w) ↔ text = s)
  ∧ (∀ (text : jsstr) (r : RegExp) (w : World),
      stringMatches (ret text) (Re r) w = (Resolved (re_test r text), w))
  ∧ (∀ (w : World),
      evaluate (MatAutocompleteHarness.with_ (MatAutocompleteHarness.mkAutocompleteFilters None)) tt w
      = (Resolved true, w))
  ∧ (∀ (pattern : StringOrRegExp) (w : World),
      evaluate (MatAutocompleteHarness.with_
                  (MatAutocompleteHarness.mkAutocompleteFilters (Some pattern))) tt w
      = (Resolved
           (match pattern with
            | Str s => bool_decide (el_value (host_element (doc w)) = s)
            | Re r => re_test r (el_value (host_element (doc w)))
            end),
         mkWorld (doc w)
           (calls w ++ [CallGetProperty (el_node (host_element (doc w))) "value"]))).
Proof.
  assert (Hsome : ∀ (T O : Type) (p : HarnessPredicate T) name (v : O)
            (matchFn : T → O → Async bool) (harness : T) (w : World),
      evaluate (addOption p name (Some v) matchFn) harness w =
      (let* a := evaluate p harness in
       let* b := matchFn harness v in
       ret (a && b)) w).
  { intros T O p name v matchFn harness w. unfold evaluate, addOption. simpl.
    apply (evaluate_checks_snoc _ name (λ h, matchFn h v)). }
  split; [|split; [|split; [|split; [|split; [|split]]]]].
  - reflexivity.
  - apply Hsome.
  - intros T O p name v matchFn harness w w'. rewrite Hsome. unfold bind, ret.
    destruct (evaluate p harness w) as [[a|e] w1]; [|done].
    destruct (matchFn harness v w1) as [[b|e] w2] eqn:Hm; [|done].
    intros Heq. injection Heq as Hab ->.
    apply andb_true_iff in Hab as [-> ->]. by exists w1.
  - intros text s w. unfold stringMatches, bind, ret. split.
    + intros Heq. injection Heq as Heq. by apply bool_decide_eq_true in Heq.
    + intros ->. by rewrite bool_decide_true.
  - reflexivity.
  - reflexivity.
  - intros pattern w. unfold evaluate, MatAutocompleteHarness.with_. simpl.
    unfold bind, ret. simpl. by rewrite andb_true_r.
Qed.

(** ** [JSON.stringify] *)

Section JsonQuoting.
Import Json.

Lemma hex_value_digit (n : N) : n < 16 → hex_value (hex_digit n) = n.
Proof.
  intros Hn. unfold hex_value, hex_digit.
  destruct (N.ltb_spec n 10).
  - destruct (N.ltb_spec (48 + n) 58); lia.
  - destruct (N.ltb_spec (87 + n) 58); lia.
Qed.

Lemma UnicodeEscape_value (c : N) :
  c < 65536 →
  4096 * (c / 4096 mod 16) + 256 * (c / 256 mod 16) + 16 * (c / 16 mod 16) + c mod 16 = c.
Proof. intros Hc. zify. Z.to_euclidean_division_equations. lia. Qed.

Lemma unquote_UnicodeEscape (c : N) (r : jsstr) :
  c < 65536 → unquote_code_point (UnicodeEscape c ++ r) = Some (Single c, r).
Proof.
  intros Hc. unfold UnicodeEscape. cbn [app unquote_code_point].
  change (92 =? 92) with true. cbv iota.
  change (117 =? 98) with false. change (117 =? 116) with false.
  change (117 =? 110) with false. change (117 =? 102) with false.
  change (117 =? 114) with false. change (117 =? 34) with false.
  change (117 =? 92) with false. cbv iota.
  rewrite !hex_value_digit by (apply N.mod_lt; lia).
  by rewrite UnicodeEscape_value.
Qed.

Lemma unquote_literal (c : N) (r : jsstr) :
  c ≠ 92 → is_leading_surrogate c = false →
  unquote_code_point (c :: r) = Some (Single c, r).
Proof.
  intros Hc Hl. unfold unquote_code_point.
  destruct (N.eqb_spec c 92); [done|]. rewrite Hl. by destruct r.
Qed.

(** Reading back what [quote_code_point] wrote gives the code point and
    leaves the rest. *)
Lemma unquote_quote_code_point (cp : CodePoint) (r : jsstr) :
  well_formed cp →
  unquote_code_point (quote_code_point cp ++ r) = Some (cp, r).
Proof.
  destruct cp as [lead trail|c].
  - intros [Hl Ht]. cbn [quote_code_point app unquote_code_point].
    assert (H92 : (lead =? 92) = false).
    { apply N.eqb_neq. intros ->. discriminate Hl. }
    by rewrite H92, Hl, Ht.
  - intros _. unfold quote_code_point.
    destruct (N.eqb_spec c 8) as [->|H8]; [done|].
    destruct (N.eqb_spec c 9) as [->|H9]; [done|].
    destruct (N.eqb_spec c 10) as [->|H10]; [done|].
    destruct (N.eqb_spec c 12) as [->|H12]; [done|].
    destruct (N.eqb_spec c 13) as [->|H13]; [done|].
    destruct (N.eqb_spec c 34) as [->|H34]; [done|].
    destruct (N.eqb_spec c 92) as [->|H92]; [done|].
    destruct ((c <? 32) || is_leading_surrogate c || is_trailing_surrogate c) eqn:Hesc.
    + apply unquote_UnicodeEscape.
      unfold is_leading_surrogate, is_trailing_surrogate in Hesc.
      destruct (N.ltb_spec c 32); [lia|].
      destruct (N.leb_spec c 56319); [lia|].
      destruct (N.leb_spec c 57343); [lia|].
      rewrite !andb_false_r in Hesc. done.
    + apply orb_false_iff in Hesc as [Hesc _].
      apply orb_false_iff in Hesc as [_ Hl].
      by apply unquote_literal.
Qed.

Lemma unquote_quote_mark (r : jsstr) :
  unquote_code_point (34 :: r) = Some (Single 34, r).
Proof. by apply unquote_literal. Qed.

(** Quoted code points up to the closing quote determine the code
    points. *)
Lemma quoted_code_points_inj (l1 l2 : list CodePoint) (r1 r2 : jsstr) :
  Forall well_formed l1 → Forall well_formed l2 →
  flat_map quote_code_point l1 ++ 34 :: r1 = flat_map quote_code_point l2 ++ 34 :: r2 →
  l1 = l2 ∧ r1 = r2.
Proof.
  intros Hwf1. revert l2. induction Hwf1 as [|cp1 l1 Hcp1 _ IH]; intros l2 Hwf2 Heq.
  - destruct Hwf2 as [|cp2 l2 Hcp2 _]; simpl in Heq.
    + by injection Heq as ->.
    + rewrite <- app_assoc in Heq.
      pose proof (f_equal unquote_code_point Heq) as Hhead.
      rewrite unquote_quote_mark, unquote_quote_code_point in Hhead by done.
      injection Hhead as <- _. discriminate Heq.
  - destruct Hwf2 as [|cp2 l2 Hcp2 Hwf2]; simpl in Heq.
    + rewrite <- app_assoc in Heq.
      pose proof (f_equal unquote_code_point Heq) as Hhead.
      rewrite unquote_quote_mark, unquote_quote_code_point in Hhead by done.
      injection Hhead as -> _. discriminate Heq.
    + rewrite <- !app_assoc in Heq.
      pose proof (f_equal unquote_code_point Heq) as Hhead.
      rewrite !unquote_quote_code_point in Hhead by done.
      injection Hhead as -> Hrest.
      destruct (IH l2 Hwf2 Hrest) as [-> ->]. done.
Qed.

Lemma StringToCodePoints_two (c d : N) (rest : jsstr) :
  StringToCodePoints (c :: d :: rest) =
  if is_leading_surrogate c && is_trailing_surrogate d
  then Supplementary c d :: StringToCodePoints rest
  else Single c :: StringToCodePoints (d :: rest).
Proof. reflexivity. Qed.

Lemma StringToCodePoints_read (n : nat) (s : jsstr) :
  (length s ≤ n)%nat →
  Forall well_formed (StringToCodePoints s)
  ∧ flat_map code_units (StringToCodePoints s) = s.
Proof.
  revert s. induction n as [|n IH]; intros s Hlen.
  - destruct s; [by split; [constructor|]|simpl in Hlen; lia].
  - destruct s as [|c [|d rest]]; [by split; [constructor|]| |].
    + split; [by repeat constructor|done].
    + rewrite StringToCodePoints_two.
      destruct (is_leading_surrogate c && is_trailing_surrogate d) eqn:Hpair.
      * apply andb_true_iff in Hpair.
        destruct (IH rest) as [Hwf Hread]; [simpl in Hlen; lia|].
        split; [by constructor|]. simpl. by rewrite Hread.
      * destruct (IH (d :: rest)) as [Hwf Hread]; [simpl in Hlen |- *; lia|].
        split; [by constructor|]. cbn [flat_map code_units app]. by rewrite Hread.
Qed.

(** [QuoteJSONString] loses nothing: a quoted string, whatever follows
    it, determines the string and what follows. *)
Lemma QuoteJSONString_inj (s1 s2 r1 r2 : jsstr) :
  QuoteJSONString s1 ++ r1 = QuoteJSONString s2 ++ r2 → s1 = s2 ∧ r1 = r2.
Proof.
  unfold QuoteJSONString. rewrite <- !app_assoc. cbn [app]. intros Heq.
  injection Heq as Heq.
  destruct (StringToCodePoints_read (length s1) s1) as [Hwf1 Hread1]; [done|].
  destruct (StringToCodePoints_read (length s2) s2) as [Hwf2 Hread2]; [done|].
  destruct (quoted_code_points_inj _ _ _ _ Hwf1 Hwf2 Heq) as [Hcps ->].
  split; [|done]. by rewrite <- Hread1, <- Hread2, Hcps.
Qed.

End JsonQuoting.

(** ** [MatAutocompleteHarness] *)

Section FilterMessages.
Import MatAutocompleteHarness.

Lemma JSON_member_inj (key1 key2 : string) (value1 value2 r1 r2 : jsstr) :
  JSON_member key1 value1 ++ r1 = JSON_member key2 value2 ++ r2 →
  js key1 = js key2 ∧ value1 ++ r1 = value2 ++ r2.
Proof.
  unfold JSON_member. rewrite <- !app_assoc. intros Heq.
  apply QuoteJSONString_inj in Heq as [Hkey Heq]. split; [done|].
  by injection Heq.
Qed.

Lemma JSON_member_head (key : string) (value : jsstr) :
  ∃ rest, JSON_member key value = 34 :: rest.
Proof. unfold JSON_member, Json.QuoteJSONString. cbn [app]. by eexists. Qed.

Lemma JSON_property_head (p : OptionFilterProperty) (m : jsstr) :
  JSON_property p = Some m → ∃ rest, m = 34 :: rest.
Proof.
  destruct p as [[s|]|[s|]|[[s|r]|]|[b|]]; simpl; intros Hm; try discriminate Hm;
    injection Hm as <-; apply JSON_member_head.
Qed.

Lemma JSON_property_defined (p : OptionFilterProperty) :
  has_value p = true → ∃ m, JSON_property p = Some m.
Proof. destruct p as [[s|]|[s|]|[[s|r]|]|[b|]]; simpl; intros Hv; by eauto. Qed.

Lemma JSON_boolean_inj (b1 b2 : bool) (r1 r2 : jsstr) :
  (if b1 then js "true" else js "false") ++ r1 =
  (if b2 then js "true" else js "false") ++ r2 → b1 = b2 ∧ r1 = r2.
Proof. destruct b1, b2; simpl; intros Heq; by simplify_eq. Qed.

(** A printed property, whatever follows it, determines the property,
    patterns apart. *)
Lemma JSON_property_inj (p1 p2 : OptionFilterProperty) (m1 m2 r1 r2 : jsstr) :
  is_pattern p1 = false → is_pattern p2 = false →
  JSON_property p1 = Some m1 → JSON_property p2 = Some m2 →
  m1 ++ r1 = m2 ++ r2 → p1 = p2 ∧ r1 = r2.
Proof.
  intros Hp1 Hp2 Hm1 Hm2 Heq.
  destruct p1 as [[s1|]|[s1|]|[[s1|x1]|]|[b1|]]; simpl in Hm1, Hp1;
    try discriminate; injection Hm1 as <-;
    destruct p2 as [[s2|]|[s2|]|[[s2|x2]|]|[b2|]]; simpl in Hm2, Hp2;
    try discriminate; injection Hm2 as <-;
    apply JSON_member_inj in Heq as [Hkey Heq]; try discriminate Hkey;
    first [ apply QuoteJSONString_inj in Heq as [-> ->]; done
          | apply JSON_boolean_inj in Heq as [-> ->]; done ].
Qed.

Lemma cons_tail_eq {A} (x : A) (l1 l2 : list A) : x :: l1 = x :: l2 → l1 = l2.
Proof. by intros [=]. Qed.

Lemma join_with_comma_cons (m : jsstr) (members : list jsstr) (r : jsstr) :
  join_with_comma (m :: members) ++ r =
  m ++ match members with
       | [] => r
       | _ :: _ => 44 :: join_with_comma members ++ r
       end.
Proof.
  destruct members as [|m' members]; [done|].
  cbn [join_with_comma]. by rewrite <- !app_assoc.
Qed.

Lemma printed_properties_inj (d1 d2 : OptionHarnessFilters) (r1 r2 : jsstr) :
  Forall (λ p, has_value p = true ∧ is_pattern p = false) d1 →
  Forall (λ p, has_value p = true ∧ is_pattern p = false) d2 →
  join_with_comma (omap JSON_property d1) ++ 125 :: r1 =
  join_with_comma (omap JSON_property d2) ++ 125 :: r2 →
  d1 = d2.
Proof.
  intros Hd1. revert d2.
  induction Hd1 as [|p1 d1 [Hv1 Hp1] Hd1 IH]; intros d2 Hd2 Heq.
  - destruct Hd2 as [|p2 d2 [Hv2 Hp2] Hd2]; [done|].
    destruct (JSON_property_defined p2 Hv2) as [m2 Hm2].
    cbn [omap list_omap] in Heq. rewrite Hm2 in Heq.
    rewrite join_with_comma_cons in Heq.
    destruct (JSON_property_head p2 m2 Hm2) as [rest ->]. discriminate Heq.
  - destruct (JSON_property_defined p1 Hv1) as [m1 Hm1].
    destruct Hd2 as [|p2 d2 [Hv2 Hp2] Hd2].
    + cbn [omap list_omap] in Heq. rewrite Hm1 in Heq.
      rewrite join_with_comma_cons in Heq.
      destruct (JSON_property_head p1 m1 Hm1) as [rest ->]. discriminate Heq.
    + destruct (JSON_property_defined p2 Hv2) as [m2 Hm2].
      cbn [omap list_omap] in Heq. rewrite Hm1, Hm2 in Heq.
      rewrite !join_with_comma_cons in Heq.
      destruct (JSON_property_inj p1 p2 m1 m2 _ _ Hp1 Hp2 Hm1 Hm2 Heq) as [-> Hrest].
      f_equal.
      destruct Hd1 as [|q1 d1 [Hw1 Hq1] Hd1], Hd2 as [|q2 d2 [Hw2 Hq2] Hd2]; [done| | |].
      * destruct (JSON_property_defined q2 Hw2) as [n2 Hn2].
        cbn [omap list_omap] in Hrest. rewrite Hn2 in Hrest. discriminate Hrest.
      * destruct (JSON_property_defined q1 Hw1) as [n1 Hn1].
        cbn [omap list_omap] in Hrest. rewrite Hn1 in Hrest. discriminate Hrest.
      * destruct (JSON_property_defined q1 Hw1) as [n1 Hn1].
        destruct (JSON_property_defined q2 Hw2) as [n2 Hn2].
        assert (Hs1 : ∃ M, omap JSON_property (q1 :: d1) = n1 :: M).
        { cbn [omap list_omap]. rewrite Hn1. by eexists. }
        assert (Hs2 : ∃ M, omap JSON_property (q2 :: d2) = n2 :: M).
        { cbn [omap list_omap]. rewrite Hn2. by eexists. }
        destruct Hs1 as [M1 Hs1], Hs2 as [M2 Hs2].
        rewrite Hs1, Hs2 in Hrest. apply cons_tail_eq in Hrest.
        rewrite <- Hs1, <- Hs2 in Hrest.
        apply (IH (q2 :: d2)); [by constructor|done].
Qed.

Lemma omap_defined_properties (filters : OptionHarnessFilters) :
  omap JSON_property (defined_properties filters) = omap JSON_property filters.
Proof.
  unfold defined_properties.
  induction filters as [|p filters IH]; [done|].
  cbn [List.filter omap list_omap] in *.
  destruct p as [[s|]|[s|]|[[s|r]|]|[b|]]; cbn [has_value JSON_property omap list_omap];
    by rewrite IH.
Qed.

Lemma defined_properties_ok (filters : OptionHarnessFilters) :
  no_pattern filters →
  Forall (λ p, has_value p = true ∧ is_pattern p = false) (defined_properties filters).
Proof.
  unfold defined_properties.
  induction 1 as [|p filters Hp _ IH]; [constructor|].
  cbn [List.filter]. destruct (has_value p) eqn:Hv; [by constructor|done].
Qed.

(** What the message of an unmatched filter tells.  Of two filter
    objects without a pattern that print alike, the properties that have
    a value are the same, in the same order. *)
Lemma JSON_stringify_identifies (filters1 filters2 : OptionHarnessFilters) :
  no_pattern filters1 → no_pattern filters2 →
  JSON_stringify filters1 = JSON_stringify filters2 →
  defined_properties filters1 = defined_properties filters2.
Proof.
  intros Hn1 Hn2. unfold JSON_stringify. cbn [js app]. intros Heq.
  injection Heq as Heq.
  rewrite <- (omap_defined_properties filters1), <- (omap_defined_properties filters2) in Heq.
  by apply (printed_properties_inj _ _ [] []); [apply defined_properties_ok..|].
Qed.

(** A pattern leaves no trace in the message. *)
Lemma JSON_stringify_pattern (before after : OptionHarnessFilters) (r1 r2 : RegExp) :
  JSON_stringify (before ++ FilterText (Some (Re r1)) :: after) =
  JSON_stringify (before ++ FilterText (Some (Re r2)) :: after).
Proof. unfold JSON_stringify. by rewrite !omap_app. Qed.

Lemma of_ancestor_with_ancestor (filters : OptionHarnessFilters) (a : jsstr) :
  of_ancestor (option_with_ancestor filters a) = Some a.
Proof. induction filters as [|[v|v|v|v] filters IH]; simpl; done. Qed.

Lemma gf_ancestor_with_ancestor (filters : OptgroupHarnessFilters) (a : jsstr) :
  gf_ancestor (optgroup_with_ancestor filters a) = Some a.
Proof. induction filters as [|[v|v|v] filters IH]; simpl; done. Qed.

Lemma option_with_ancestor_twice (filters : OptionHarnessFilters) (a b : jsstr) :
  option_with_ancestor (option_with_ancestor filters a) b = option_with_ancestor filters b.
Proof. induction filters as [|[v|v|v|v] filters IH]; simpl; by rewrite ?IH. Qed.

End FilterMessages.

Section AutocompleteHarness.
Context `{backend : Backend} `{core : MatAutocompleteHarness.MdcCoreTesting}.
Import MatAutocompleteHarness.

Lemma getPanelSelector_run (w : World) :
  _getPanelSelector w = (Resolved (owned_panel_selector (doc w)), after_panel_selector w).
Proof.
  unfold _getPanelSelector, owned_panel_selector, after_panel_selector, host,
    te_getAttribute, getAttribute, current_document, query, bind, ret. simpl.
  by destruct (el_attributes (host_element (doc w)) !! "aria-owns").
Qed.

Lemma getOptions_run (filters : OptionHarnessFilters) (w : World) :
  getOptions filters w =
  (optionHarnesses (option_with_ancestor filters (owned_panel_selector (doc w))) (doc w),
   mkWorld (doc w)
     (calls (after_panel_selector w) ++ [CallLocateAll (Some (owned_panel_selector (doc w)))])).
Proof.
  unfold getOptions. rewrite (bind_resolved _ _ _ _ _ (getPanelSelector_run w)).
  unfold locatorForAll_options, bind, query. simpl.
  by rewrite of_ancestor_with_ancestor.
Qed.

Lemma getOptionGroups_run (filters : OptgroupHarnessFilters) (w : World) :
  getOptionGroups filters w =
  (optgroupHarnesses (optgroup_with_ancestor filters (owned_panel_selector (doc w))) (doc w),
   mkWorld (doc w)
     (calls (after_panel_selector w) ++ [CallLocateAll (Some (owned_panel_selector (doc w)))])).
Proof.
  unfold getOptionGroups. rewrite (bind_resolved _ _ _ _ _ (getPanelSelector_run w)).
  unfold locatorForAll_optgroups, bind, query. simpl.
  by rewrite gf_ancestor_with_ancestor.
Qed.

Lemma isOpen_run (w : World) :
  isOpen w =
  let selector := owned_panel_selector (doc w) in
  let located := mkWorld (doc w) (calls (after_panel_selector w) ++ [CallLocate selector]) in
  match selectorError selector with
  | Some error => (Rejected error, located)
  | None =>
      match head (List.filter (matchesSelector selector) (elements (doc w))) with
      | None => (Resolved false, located)
      | Some panel =>
          (Resolved (ProtractorElement.hasClass panel (js "mat-mdc-autocomplete-visible")),
           mkWorld (doc w)
             (calls located ++ [CallHasClass (el_node panel) (js "mat-mdc-autocomplete-visible")]))
      end
  end.
Proof.
  unfold isOpen, _getPanel. rewrite (bind_assoc _ _ _ w).
  rewrite (bind_resolved _ _ _ _ _ (getPanelSelector_run w)).
  unfold locatorForOptional, bind, query, current_document, ret, throw. simpl.
  destruct (selectorError _); [done|]. by destruct (head _).
Qed.

Lemma selectOption_run (filters : OptionHarnessFilters) (w : World) :
  selectOption filters w =
  let focused :=
    mkWorld (react (CallFocus (el_node (host_element (doc w)))) (doc w))
      (calls w ++ [CallFocus (el_node (host_element (doc w)))]) in
  let selector := owned_panel_selector (doc focused) in
  let located :=
    mkWorld (doc focused)
      (calls (after_panel_selector focused) ++ [CallLocateAll (Some selector)]) in
  match optionHarnesses (option_with_ancestor filters selector) (doc focused) with
  | Rejected error => (Rejected error, located)
  | Resolved [] =>
      (Rejected (mkError (js "Could not find a mat-option matching " ++ JSON_stringify filters)),
       located)
  | Resolved (first :: _) =>
      (Resolved tt,
       mkWorld (react (CallClick (el_node first)) (doc located))
         (calls located ++ [CallClick (el_node first)]))
  end.
Proof.
  unfold selectOption. unfold focus at 1, te_focus, host, perform, current_document.
  unfold bind at 1 2 3, ret at 1. simpl.
  unfold bind. rewrite getOptions_run. simpl.
  by destruct (optionHarnesses _ _) as [[|first others]|error].
Qed.

(** C4: every operation that addresses the panel reads the host's
    [aria-owns] attribute in that same call and looks the panel up under
    [#] and the value just read ([#null] without the attribute):
    [isOpen], [getOptions], [getOptionGroups] and [selectOption] (after
    its focus, on the document as re-rendered by then).  Nothing of an
    earlier call is reused: a call made after the document changed reads
    the attribute of the new document and looks up under its value.  The
    selector is handed on as it is: when the CSS engine refuses it, as it
    does for an empty [aria-owns], [isOpen] rejects with the engine's
    error. *)
Theorem panel_selector_read_on_each_call (w : World) :
  _getPanelSelector w = (Resolved (owned_panel_selector (doc w)), after_panel_selector w)
  ∧ isOpen w =
      (let selector := owned_panel_selector (doc w) in
       let located := mkWorld (doc w) (calls (after_panel_selector w) ++ [CallLocate selector]) in
       match selectorError selector with
       | Some error => (Rejected error, located)
       | None =>
           match head (List.filter (matchesSelector selector) (elements (doc w))) with
           | None => (Resolved false, located)
           | Some panel =>
               (Resolved (ProtractorElement.hasClass panel (js "mat-mdc-autocomplete-visible")),
                mkWorld (doc w)
                  (calls located ++
                     [CallHasClass (el_node panel) (js "mat-mdc-autocomplete-visible")]))
           end
       end)
  ∧ (∀ filters, getOptions filters w =
      (optionHarnesses
         (option_with_ancestor filters (owned_panel_selector (doc w))) (doc w),
       mkWorld (doc w)
         (calls (after_panel_selector w) ++
            [CallLocateAll (Some (owned_panel_selector (doc w)))])))
  ∧ (∀ filters, getOptionGroups filters w =
      (optgroupHarnesses
         (optgroup_with_ancestor filters (owned_panel_selector (doc w))) (doc w),
       mkWorld (doc w)
         (calls (after_panel_selector w) ++
            [CallLocateAll (Some (owned_panel_selector (doc w)))])))
  ∧ (∀ filters,
      let rendered := react (CallFocus (el_node (host_element (doc w)))) (doc w) in
      ∃ rest, calls (snd (selectOption filters w)) =
        calls w ++
        [CallFocus (el_node (host_element (doc w)));
         CallGetAttribute (el_node (host_element rendered)) "aria-owns";
         CallLocateAll (Some (owned_panel_selector rendered))] ++ rest)
  ∧ (∀ (d' : Document),
      let w1 := snd (isOpen w) in
      ∃ rest, calls (snd (isOpen (mkWorld d' (calls w1)))) =
        calls w1 ++
        [CallGetAttribute (el_node (host_element d')) "aria-owns";
         CallLocate (owned_panel_selector d')] ++ rest)
  ∧ (el_attributes (host_element (doc w)) !! "aria-owns" = Some [] →
     ∃ error w', isOpen w = (Rejected error, w')).
Proof.
  split; [apply getPanelSelector_run|].
  split; [apply isOpen_run|].
  split; [intros filters; apply getOptions_run|].
  split; [intros filters; apply getOptionGroups_run|].
  split; [|split].
  - intros filters rendered. rewrite selectOption_run. cbn zeta.
    destruct (optionHarnesses _ _) as [[|first others]|error]; simpl.
    + exists []. by rewrite <- !app_assoc.
    + exists [CallClick (el_node first)]. by rewrite <- !app_assoc.
    + exists []. by rewrite <- !app_assoc.
  - intros d' w1. rewrite isOpen_run. cbn zeta.
    destruct (selectorError _) as [error|]; [|destruct (head _) as [panel|]]; simpl.
    + exists []. by rewrite <- !app_assoc.
    + eexists [_]. by rewrite <- !app_assoc.
    + exists []. by rewrite <- !app_assoc.
  - intros Howns. rewrite isOpen_run. cbn zeta.
    unfold owned_panel_selector. rewrite Howns.
    destruct (selectorError [35]) as [error|] eqn:Herr; [by eexists _, _|].
    by destruct lone_hash_rejected.
Qed.


End AutocompleteHarness.

Section AutocompleteExamples.
Import MatAutocompleteHarness.

Let input (owns : string) : Element :=
  mkElement 1 {[ "class" := js "mat-mdc-autocomplete-trigger"; "aria-owns" := js owns ]}
    (js "Ap") [].
Let panel (id classes : string) (node : nat) : Element :=
  mkElement node {[ "id" := js id; "class" := js classes ]} [] [].
Let option_ (node : nat) (text : string) : Element :=
  mkElement node {[ "class" := js "mat-mdc-option" ]} [] (js text).
Let rendered (owns : string) : Document :=
  mkDocument (input owns)
    [input owns;
     panel "mat-autocomplete-0" "mat-mdc-autocomplete-panel mat-mdc-autocomplete-visible" 2;
     option_ 3 "Apple"; option_ 4 "Apricot";
     panel "mat-autocomplete-1" "mat-mdc-autocomplete-panel" 5].
Let text_filter (text : string) : OptionHarnessFilters :=
  [FilterText (Some (Str (js text)))].

Example isOpen_follows_aria_owns :
  fst (@isOpen simple_backend (mkWorld (rendered "mat-autocomplete-0") [])) = Resolved true
  ∧ fst (@isOpen simple_backend (mkWorld (rendered "mat-autocomplete-1") [])) = Resolved false
  ∧ fst (@isOpen simple_backend (mkWorld (rendered "mat-autocomplete-9") [])) = Resolved false.
Proof. repeat split; vm_compute; reflexivity. Qed.

Example isOpen_empty_aria_owns :
  @isOpen simple_backend (mkWorld (rendered "") []) =
  (Rejected (mkError (js "# is not a valid selector")),
   mkWorld (rendered "") [CallGetAttribute 1 "aria-owns"; CallLocate (js "#")]).
Proof. vm_compute. reflexivity. Qed.

Example getPanelSelector_without_attribute :
  fst (_getPanelSelector (mkWorld (mkDocument (mkElement 1 ∅ [] []) []) []))
  = Resolved (js "#null").
Proof. vm_compute. reflexivity. Qed.

Example selectOption_clicks_first :
  @selectOption simple_backend example_core (text_filter "Apricot")
    (mkWorld (rendered "mat-autocomplete-0") []) =
  (Resolved tt,
   mkWorld (rendered "mat-autocomplete-0")
     [CallFocus 1; CallGetAttribute 1 "aria-owns";
      CallLocateAll (Some (js "#mat-autocomplete-0")); CallClick 4]).
Proof. vm_compute. reflexivity. Qed.

Example selectOption_no_match :
  @selectOption simple_backend example_core (text_filter "Kiwi")
    (mkWorld (rendered "mat-autocomplete-0") []) =
  (Rejected (mkError (js "Could not find a mat-option matching {" ++ [34] ++ js "text"
                      ++ [34] ++ js ":" ++ [34] ++ js "Kiwi" ++ [34] ++ js "}")),
   mkWorld (rendered "mat-autocomplete-0")
     [CallFocus 1; CallGetAttribute 1 "aria-owns";
      CallLocateAll (Some (js "#mat-autocomplete-0"))]).
Proof. vm_compute. reflexivity. Qed.

Example JSON_stringify_filters :
  JSON_stringify [FilterText (Some (Str [97; 34; 10; 55357; 56832; 55357]));
                  FilterSelector None; FilterIsSelected (Some true)] =
  js "{" ++ [34] ++ js "text" ++ [34] ++ js ":" ++ [34; 97; 92; 34; 92; 110; 55357; 56832]
  ++ js "\ud83d" ++ [34] ++ js "," ++ [34] ++ js "isSelected" ++ [34] ++ js ":true}".
Proof. vm_compute. reflexivity. Qed.

End AutocompleteExamples.


(** ** [MatTooltipHarness] *)

Section TooltipHarness.
Context `{backend : Backend}.
Import MatTooltipHarness.

Lemma optionalPanel_run (w : World) :
  _optionalPanel w =
  (Resolved (head (List.filter (matchesSelector (js ".mat-tooltip")) (elements (doc w)))),
   mkWorld (doc w) (calls w ++ [CallLocate (js ".mat-tooltip")])).
Proof.
  unfold _optionalPanel, locatorForOptional, bind, query.
  assert (Hvalid : selectorError (js ".mat-tooltip") = None).
  { by apply (class_selector_parses (js "mat-tooltip")). }
  by rewrite Hvalid.
Qed.

Lemma filter_none {A} (f : A → bool) (l : list A) :
  Forall (λ x, f x = false) l → List.filter f l = [].
Proof.
  induction 1 as [|x l Hx _ IH]; simpl; [done|]. by rewrite Hx.
Qed.

(** C10: when no element of the document matches [.mat-tooltip],
    [getTooltipText] resolves to the empty string and [isOpen] to false;
    and on every document [getTooltipText] resolves: it never rejects. *)
Theorem getTooltipText_closed (w : World) :
  Forall (λ e, matchesSelector (js ".mat-tooltip") e = false) (elements (doc w)) →
  getTooltipText w = (Resolved [], mkWorld (doc w) (calls w ++ [CallLocate (js ".mat-tooltip")]))
  ∧ isOpen w = (Resolved false, mkWorld (doc w) (calls w ++ [CallLocate (js ".mat-tooltip")]))
  ∧ (∀ w0 : World, ∃ text w', getTooltipText w0 = (Resolved text, w')).
Proof.
  intros Hnone. split; [|split].
  - unfold getTooltipText. rewrite (bind_resolved _ _ _ _ _ (optionalPanel_run w)).
    by rewrite (filter_none _ _ Hnone).
  - unfold isOpen. rewrite (bind_resolved _ _ _ _ _ (optionalPanel_run w)).
    by rewrite (filter_none _ _ Hnone).
  - intros w0. unfold getTooltipText.
    rewrite (bind_resolved _ _ _ _ _ (optionalPanel_run w0)).
    destruct (head _) as [panel|]; by eexists _, _.
Qed.

End TooltipHarness.

Lemma getTooltipText_closed_witness :
  let trigger := mkElement 1 {[ "class" := js "mat-tooltip-trigger" ]} [] (js "Hover me") in
  let w := mkWorld (mkDocument trigger [mkElement 0 ∅ [] []; trigger]) [] in
  @MatTooltipHarness.getTooltipText simple_backend w =
    (Resolved [], mkWorld (doc w) [CallLocate (js ".mat-tooltip")])
  ∧ @MatTooltipHarness.isOpen simple_backend w =
    (Resolved false, mkWorld (doc w) [CallLocate (js ".mat-tooltip")])
  ∧ (∀ w0 : World, ∃ text w',
        @MatTooltipHarness.getTooltipText simple_backend w0 = (Resolved text, w')).
Proof.
  cbn zeta.
  apply (@getTooltipText_closed simple_backend).
  repeat constructor.
Defined.

Example getTooltipText_open :
  let trigger := mkElement 1 {[ "class" := js "mat-tooltip-trigger" ]} [] (js "Hover me") in
  let panel := mkElement 2 {[ "class" := js "mat-tooltip mat-tooltip-show" ]} [] (js "Hint") in
  let w := mkWorld (mkDocument trigger [trigger; panel]) [] in
  fst (@MatTooltipHarness.getTooltipText simple_backend w) = Resolved (js "Hint")
  ∧ fst (@MatTooltipHarness.isOpen simple_backend w) = Resolved true.
Proof. split; vm_compute; reflexivity. Qed.

(** ** Fake events *)

Section SyntheticEvents.
Context `{browser : FakeEvents.Browser}.
Import FakeEvents.

Lemma get_defined (event : EventObject) (name : string) (value : JsVal) :
  get (defineReadonlyEventProperty event name value) name = value.
Proof. unfold get, defineReadonlyEventProperty. simpl. by rewrite lookup_insert_eq. Qed.

Lemma get_defined_other (event : EventObject) (name name' : string) (value : JsVal) :
  name ≠ name' →
  get (defineReadonlyEventProperty event name value) name' = get event name'.
Proof.
  intros Hne. unfold get, defineReadonlyEventProperty. simpl.
  by rewrite lookup_insert_ne.
Qed.

Lemma get_originalPreventDefault_own (event : EventObject) (name : string) (value : JsVal) :
  own event !! name = Some value → get (originalPreventDefault event) name = value.
Proof. intros Hown. unfold get, originalPreventDefault. simpl. by rewrite Hown. Qed.

Lemma preventDefault_assigned_sets (event : EventObject) :
  preventDefault_assigned event = true →
  own (preventDefault event) !! "defaultPrevented" = Some (VBool true)
  ∧ get (preventDefault event) "defaultPrevented" = VBool true.
Proof.
  intros Hassigned. unfold preventDefault. rewrite Hassigned.
  assert (Hown : own (originalPreventDefault
                        (defineReadonlyEventProperty event "defaultPrevented" (VBool true)))
                 !! "defaultPrevented" = Some (VBool true)).
  { simpl. apply lookup_insert_eq. }
  split; [done|]. unfold get. by rewrite Hown.
Qed.

Lemma createMouseEvent_assigned type clientX clientY button modifiers :
  preventDefault_assigned (createMouseEvent type clientX clientY button modifiers) = true.
Proof. reflexivity. Qed.

Lemma createKeyboardEvent_assigned type keyCode key modifiers :
  preventDefault_assigned (createKeyboardEvent type keyCode key modifiers) = true.
Proof. unfold createKeyboardEvent. by destruct hasInitKeyEvent. Qed.

(** C6: on every browser, a mouse event made by [createMouseEvent] has
    an own [buttons] property that reads 1, before and after
    [preventDefault()]; and after [preventDefault()] a mouse event or a
    keyboard event made by [createKeyboardEvent] has an own
    [defaultPrevented] property that reads true, whatever the browser's
    own initializers and [preventDefault] do. *)
Theorem synthetic_event_own_properties :
  (∀ type clientX clientY button modifiers,
      let event := createMouseEvent type clientX clientY button modifiers in
      own event !! "buttons" = Some (VNum 1)
      ∧ get event "buttons" = VNum 1
      ∧ get (preventDefault event) "buttons" = VNum 1
      ∧ own (preventDefault event) !! "defaultPrevented" = Some (VBool true)
      ∧ get (preventDefault event) "defaultPrevented" = VBool true)
  ∧ (∀ type keyCode key modifiers,
      let event := createKeyboardEvent type keyCode key modifiers in
      own (preventDefault event) !! "defaultPrevented" = Some (VBool true)
      ∧ get (preventDefault event) "defaultPrevented" = VBool true).
Proof.
  split.
  - intros type clientX clientY button modifiers event.
    assert (Hown : own event !! "buttons" = Some (VNum 1)).
    { subst event. unfold createMouseEvent. simpl. apply lookup_insert_eq. }
    assert (Hassigned : preventDefault_assigned event = true)
      by apply createMouseEvent_assigned.
    split; [done|]. split; [by unfold get; rewrite Hown|]. split.
    + unfold preventDefault. rewrite Hassigned.
      apply get_originalPreventDefault_own. simpl.
      rewrite lookup_insert_ne by done. apply Hown.
    + by apply preventDefault_assigned_sets.
  - intros type keyCode key modifiers event.
    apply preventDefault_assigned_sets, createKeyboardEvent_assigned.
Qed.

End SyntheticEvents.

Example legacy_browser_mouse_event :
  let event := @FakeEvents.createMouseEvent FakeEvents.legacy_browser (js "click") 0 0 0
                 FakeEvents.no_modifiers in
  FakeEvents.nativeGet (FakeEvents.native event) "buttons" = FakeEvents.VNum 0
  ∧ FakeEvents.get event "buttons" = FakeEvents.VNum 1
  ∧ FakeEvents.get event "defaultPrevented" = FakeEvents.VBool false
  ∧ FakeEvents.get (FakeEvents.preventDefault event) "defaultPrevented" = FakeEvents.VBool true
  ∧ FakeEvents.nativeGet (FakeEvents.native (FakeEvents.preventDefault event)) "defaultPrevented"
    = FakeEvents.VBool false.
Proof. repeat split; vm_compute; reflexivity. Qed.

Example legacy_browser_keyboard_event :
  let event := @FakeEvents.createKeyboardEvent FakeEvents.legacy_browser (js "keydown") 13
                 (js "Enter") (FakeEvents.mkModifiers (Some true) None None None) in
  FakeEvents.get event "keyCode" = FakeEvents.VNum 13
  ∧ FakeEvents.get event "ctrlKey" = FakeEvents.VBool true
  ∧ FakeEvents.get event "altKey" = FakeEvents.VBool false
  ∧ FakeEvents.get (FakeEvents.preventDefault event) "defaultPrevented" = FakeEvents.VBool true.
Proof. repeat split; vm_compute; reflexivity. Qed.

(** ** [MatCheckbox] *)

Section Checkbox.
Import MatCheckbox.

Lemma toggle_checked (c : MatCheckbox) : checked (toggle c) = negb (checked c).
Proof. unfold toggle, set_checked. by destruct c as [[] ? ? ? ?]. Qed.

Lemma toggle_indeterminate (c : MatCheckbox) : indeterminate (toggle c) = indeterminate c.
Proof. unfold toggle, set_checked. by destruct c as [[] ? ? ? ?]. Qed.

(** C7: two [toggle()] calls bring the checked state back, and with it
    what [_getAriaChecked] presents; the other fields a toggle does not
    touch at all.  On an unchecked checkbox that is not indeterminate the
    first toggle makes [checked] true, the second makes it false. *)
Theorem toggle_twice (c : MatCheckbox) :
  checked (toggle (toggle c)) = checked c
  ∧ _getAriaChecked (toggle (toggle c)) = _getAriaChecked c
  ∧ indeterminate (toggle (toggle c)) = indeterminate c
  ∧ _disabled (toggle (toggle c)) = _disabled c
  ∧ _currentCheckState (toggle (toggle c)) = _currentCheckState c
  ∧ (∀ disabled state marks,
       let unchecked := mkCheckbox false disabled false state marks in
       checked (toggle unchecked) = true
       ∧ checked (toggle (toggle unchecked)) = false).
Proof.
  destruct c as [[] d i s n]; repeat split.
Qed.

(** C9: [_getAriaChecked] is 'true' exactly when the checkbox is
    checked, also when it is indeterminate as well; 'mixed' exactly when
    it is unchecked and indeterminate; 'false' exactly when it is
    neither. *)
Theorem getAriaChecked_cases (c : MatCheckbox) :
  (_getAriaChecked c = aria_true ↔ checked c = true)
  ∧ (_getAriaChecked c = aria_mixed ↔ checked c = false ∧ indeterminate c = true)
  ∧ (_getAriaChecked c = aria_false ↔ checked c = false ∧ indeterminate c = false)
  ∧ _getAriaChecked (mkCheckbox true (_disabled c) true (_currentCheckState c)
                       (markForCheck_calls c)) = aria_true.
Proof.
  unfold _getAriaChecked, checked, indeterminate.
  destruct c as [[] d [] s n]; simpl; repeat split; intros; try congruence;
    try (destruct_and?; congruence).
Qed.

End Checkbox.

Example toggle_marks_for_check :
  MatCheckbox.markForCheck_calls (MatCheckbox.toggle (MatCheckbox.toggle MatCheckbox.new_checkbox))
  = 2%nat.
Proof. reflexivity. Qed.

(** ** The element-selectors migration *)

Section ElementSelectors.
Context `{tool : ElementSelectorsMigration.UpdateTool}.
Import ElementSelectorsMigration.

Lemma replace_each_start (filePath : jsstr) (selector : ElementSelectorUpgradeData)
  (starts : list nat) (edits : list EditOp) :
  fold_left (λ edits start, _replaceSelector filePath start selector edits) starts edits =
  edits ++ flat_map (λ start, edit_at filePath start selector) starts.
Proof.
  revert edits. induction starts as [|s starts IH]; intros edits; simpl.
  - by rewrite app_nil_r.
  - rewrite IH. unfold _replaceSelector. by rewrite <- app_assoc.
Qed.

Lemma replaceAll_edits (filePath : jsstr) (base : nat) (text : jsstr)
  (selector : ElementSelectorUpgradeData) (edits : list EditOp) :
  replaceAll filePath base text selector edits =
  edits ++ flat_map (λ offset, edit_at filePath (base + offset) selector)
             (findAllSubstringIndices text (replace selector)).
Proof.
  unfold replaceAll. rewrite replace_each_start. f_equal.
  induction (findAllSubstringIndices text (replace selector)) as [|o l IH]; simpl; [done|].
  by rewrite IH.
Qed.

Lemma forEach_selector_edits (filePath : jsstr) (base : nat) (text : jsstr)
  (data : list ElementSelectorUpgradeData) (edits : list EditOp) :
  fold_left (λ edits selector, replaceAll filePath base text selector edits) data edits =
  edits ++ edits_for filePath base text data.
Proof.
  revert edits. induction data as [|selector data IH]; intros edits; simpl.
  - by rewrite app_nil_r.
  - rewrite IH, replaceAll_edits. by rewrite <- app_assoc.
Qed.

Lemma edits_for_in (filePath : jsstr) (base : nat) (text : jsstr)
  (data : list ElementSelectorUpgradeData) (op : EditOp) :
  op ∈ edits_for filePath base text data ↔
  ∃ selector offset, selector ∈ data
    ∧ offset ∈ findAllSubstringIndices text (replace selector)
    ∧ (op = Remove filePath (base + offset) (length (replace selector))
       ∨ op = InsertRight filePath (base + offset) (replaceWith selector)).
Proof.
  unfold edits_for. rewrite list_elem_of_In, in_flat_map. split.
  - intros (selector & Hsel & Hop). apply in_flat_map in Hop as (offset & Hoff & Hop).
    exists selector, offset. rewrite !list_elem_of_In. split; [done|]. split; [done|].
    simpl in Hop. destruct Hop as [<-|[<-|[]]]; auto.
  - intros (selector & offset & Hsel & Hoff & Hop). exists selector.
    rewrite <- list_elem_of_In. split; [done|]. apply in_flat_map. exists offset.
    rewrite <- list_elem_of_In. split; [done|]. simpl. destruct Hop as [->| ->]; auto.
Qed.

Lemma edits_for_split (filePath : jsstr) (base : nat) (text : jsstr)
  (data : list ElementSelectorUpgradeData) (selector : ElementSelectorUpgradeData)
  (offset : nat) :
  selector ∈ data → offset ∈ findAllSubstringIndices text (replace selector) →
  ∃ earlier later, edits_for filePath base text data =
                   earlier ++ edit_at filePath (base + offset) selector ++ later.
Proof.
  intros Hsel Hoff.
  apply list_elem_of_split in Hsel as (d1 & d2 & ->).
  apply list_elem_of_split in Hoff as (l1 & l2 & Hl).
  exists (edits_for filePath base text d1
          ++ flat_map (λ offset, edit_at filePath (base + offset) selector) l1),
         (flat_map (λ offset, edit_at filePath (base + offset) selector) l2
          ++ edits_for filePath base text d2).
  unfold edits_for. rewrite flat_map_app. cbn [flat_map]. rewrite Hl.
  rewrite flat_map_app. cbn [flat_map]. by rewrite <- !app_assoc.
Qed.

Lemma overlap_sym (a b : EditOp) : overlap a b = overlap b a.
Proof.
  destruct a as [p1 s1 l1|], b as [p2 s2 l2|]; simpl; try done.
  apply eq_true_iff_eq.
  rewrite !andb_true_iff, !bool_decide_eq_true, !Nat.ltb_lt. naive_solver.
Qed.

Lemma has_overlap_intro (l : list EditOp) (a b : EditOp) :
  a ∈ l → b ∈ l → a ≠ b → overlap a b = true → has_overlap l = true.
Proof.
  intros Ha Hb Hne Hov. induction l as [|e l IH]; [by apply elem_of_nil in Ha|].
  simpl. apply orb_true_iff.
  apply elem_of_cons in Ha as [->|Ha]; apply elem_of_cons in Hb as [->|Hb].
  - done.
  - left. apply existsb_exists. exists b. by rewrite <- list_elem_of_In.
  - left. apply existsb_exists. exists a. rewrite <- list_elem_of_In, overlap_sym. done.
  - right. by apply IH.
Qed.

Lemma occurs_at_inside (text outer inner before after : jsstr) (i : nat) :
  outer = before ++ inner ++ after → occurs_at text outer i →
  occurs_at text inner (i + length before).
Proof.
  unfold occurs_at. intros -> Hocc.
  rewrite <- drop_drop, <- (take_drop (length (before ++ inner ++ after)) (drop i text)).
  rewrite Hocc, <- app_assoc, drop_app_length, <- app_assoc.
  by rewrite take_app_length.
Qed.

(** C8, as the code has it.  [findAllSubstringIndices], which is not
    among the sources, is taken to report each index at which a non-empty
    search string stands in the text, once; the old names of the upgrade
    data are not empty.  For a template or a stylesheet, and for a string
    literal that has no parent or whose parent is a call expression, the
    migration records, for each selector of the upgrade data in turn and
    for each occurrence of its old name in the text, one removal of the
    old name's length at the resource's start plus the index of the
    occurrence, followed by one insertion of the new name at the same
    position, and nothing else; a string literal under any other parent,
    and a node that is no string literal, record nothing.  The removals
    are not kept apart: when the old name of one selector stands inside
    the longer old name of another, each occurrence of the longer one
    gets two removals that share positions. *)
Theorem element_selector_edits (data : list ElementSelectorUpgradeData)
  (edits : list EditOp) :
  (∀ input search, search ≠ [] →
     NoDup (findAllSubstringIndices input search)
     ∧ ∀ i, i ∈ findAllSubstringIndices input search ↔ occurs_at input search i) →
  Forall (λ selector, replace selector ≠ []) data →
  (∀ template : ResolvedResource,
      visitTemplate data template edits =
      edits ++ edits_for (filePath template) (start template) (content template) data)
  ∧ (∀ stylesheet : ResolvedResource,
      visitStylesheet data stylesheet edits =
      edits ++ edits_for (filePath stylesheet) (start stylesheet) (content stylesheet) data)
  ∧ (∀ node : Node,
      visitNode data node edits =
      if isStringLiteralLike node && negb (parent_not_a_call node) then
        edits ++ edits_for (resolve (fileName node)) (getStart node) (getText node) data
      else edits)
  ∧ (∀ filePath base text,
      ∃ occurrences : ElementSelectorUpgradeData → list nat,
        (∀ selector, selector ∈ data →
           NoDup (occurrences selector)
           ∧ ∀ i, i ∈ occurrences selector ↔ occurs_at text (replace selector) i)
        ∧ edits_for filePath base text data =
          flat_map (λ selector,
                      flat_map (λ i, [Remove filePath (base + i) (length (replace selector));
                                      InsertRight filePath (base + i) (replaceWith selector)])
                        (occurrences selector))
            data)
  ∧ (∀ filePath base text selector i,
      selector ∈ data → occurs_at text (replace selector) i →
      ∃ earlier later,
        edits_for filePath base text data =
        earlier ++ [Remove filePath (base + i) (length (replace selector));
                    InsertRight filePath (base + i) (replaceWith selector)] ++ later)
  ∧ (∀ filePath base text inner outer before after i,
      inner ∈ data → outer ∈ data →
      replace outer = before ++ replace inner ++ after → before ++ after ≠ [] →
      occurs_at text (replace outer) i →
      has_overlap (edits_for filePath base text data) = true).
Proof.
  intros Hexact Hnames.
  assert (Hname : ∀ selector, selector ∈ data → replace selector ≠ []).
  { intros selector Hsel. by apply (proj1 (Forall_forall _ _) Hnames). }
  split; [|split; [|split; [|split; [|split]]]].
  - intros template. apply forEach_selector_edits.
  - intros stylesheet. apply forEach_selector_edits.
  - intros node. unfold visitNode, _visitStringLiteralLike.
    destruct (isStringLiteralLike node); [|done].
    destruct (parent_not_a_call node); [done|]. simpl.
    apply forEach_selector_edits.
  - intros filePath base text.
    exists (λ selector, findAllSubstringIndices text (replace selector)).
    split; [|reflexivity].
    intros selector Hsel. by apply Hexact, Hname.
  - intros filePath base text selector i Hsel Hocc.
    apply (edits_for_split filePath base text data selector i Hsel).
    by apply Hexact; [apply Hname|].
  - intros filePath base text inner outer before after i Hin Hout Hparts Hlonger Hocc.
    pose proof (occurs_at_inside _ _ _ _ _ _ Hparts Hocc) as Hocc'.
    assert (Hlen : length (replace inner) ≠ 0%nat).
    { pose proof (Hname inner Hin). by destruct (replace inner). }
    apply (has_overlap_intro _
             (Remove filePath (base + i) (length (replace outer)))
             (Remove filePath (base + (i + length before)) (length (replace inner)))).
    + apply edits_for_in. exists outer, i. split; [done|].
      split; [by apply Hexact; [apply Hname|]|by left].
    + apply edits_for_in. exists inner, (i + length before)%nat. split; [done|].
      split; [by apply Hexact; [apply Hname|]|by left].
    + rewrite Hparts, !length_app. intros [= Hstart Hsize].
      destruct before, after; simpl in *; try done; lia.
    + simpl. rewrite bool_decide_true by done. rewrite Hparts, !length_app.
      apply andb_true_iff. split; [apply andb_true_iff; split; [done|]|];
        apply Nat.ltb_lt; lia.
Qed.

End ElementSelectors.

Section Occurrences.
Import ElementSelectorsMigration.

Lemma startsWith_take (s search : jsstr) :
  startsWith s search = true → take (length search) s = search.
Proof.
  revert s. induction search as [|c search IH]; intros s; simpl; [done|].
  destruct s as [|d s]; [done|]. intros H. apply andb_true_iff in H as [Hc Hs].
  apply N.eqb_eq in Hc as ->. simpl. by rewrite IH.
Qed.

Lemma take_startsWith (s search : jsstr) :
  take (length search) s = search → startsWith s search = true.
Proof.
  revert s. induction search as [|c search IH]; intros s; [by destruct s|].
  destruct s as [|d s]; [done|]. simpl. intros [= -> Hs].
  rewrite N.eqb_refl. by apply IH.
Qed.

Lemma occurrences_from_sound (input search : jsstr) (i j : nat) :
  j ∈ occurrences_from i input search →
  ∃ k, j = (i + k)%nat ∧ take (length search) (drop k input) = search.
Proof.
  revert i. induction input as [|c input IH]; intros i; simpl.
  - intros H. by apply not_elem_of_nil in H.
  - intros H. apply elem_of_app in H as [H|H].
    + destruct (match search with [] => true | _ => _ end) eqn:Hs;
        [|by apply not_elem_of_nil in H].
      apply list_elem_of_singleton in H as ->. exists 0%nat. split; [lia|].
      simpl. by apply (startsWith_take (c :: input)).
    + apply IH in H as (k & -> & Hk). exists (S k). split; [lia|done].
Qed.

Lemma occurrences_from_complete (input search : jsstr) (i k : nat) :
  search ≠ [] → occurs_at input search k → (i + k)%nat ∈ occurrences_from i input search.
Proof.
  intros Hne. unfold occurs_at. revert i k.
  induction input as [|c input IH]; intros i k Hocc.
  - rewrite drop_nil, take_nil in Hocc. by destruct search.
  - cbn [occurrences_from]. apply elem_of_app. destruct k as [|k].
    + left. rewrite (take_startsWith (c :: input) search) by done.
      rewrite Nat.add_0_r. by apply list_elem_of_singleton.
    + right. replace (i + S k)%nat with (S i + k)%nat by lia. by apply IH.
Qed.

Lemma occurrences_from_NoDup (input search : jsstr) (i : nat) :
  NoDup (occurrences_from i input search).
Proof.
  revert i. induction input as [|c input IH]; intros i; cbn [occurrences_from].
  - constructor.
  - apply NoDup_app. split; [|split; [|apply IH]].
    + destruct (startsWith (c :: input) search); [apply NoDup_singleton|constructor].
    + intros j Hj Hj'. apply occurrences_from_sound in Hj' as (k & -> & _).
      destruct (startsWith (c :: input) search); [|by apply not_elem_of_nil in Hj].
      apply list_elem_of_singleton in Hj. lia.
Qed.

(** The literal search of [literal_updateTool] reports each occurrence
    of a non-empty search string once. *)
Lemma literal_search_exact (input search : jsstr) :
  search ≠ [] →
  NoDup (@findAllSubstringIndices literal_updateTool input search)
  ∧ ∀ i, i ∈ @findAllSubstringIndices literal_updateTool input search
         ↔ occurs_at input search i.
Proof.
  intros Hne. split; [apply occurrences_from_NoDup|]. intros i. simpl. split.
  - intros Hi. by apply occurrences_from_sound in Hi as (k & -> & Hk).
  - intros Hocc. by apply (occurrences_from_complete input search 0 i).
Qed.

End Occurrences.

Lemma element_selector_edits_witness :
  let data := [ElementSelectorsMigration.mkSelector (js "mat-input") (js "matInput");
               ElementSelectorsMigration.mkSelector (js "mat-input-container")
                 (js "mat-form-field")] in
  (∀ template : ElementSelectorsMigration.ResolvedResource,
      @ElementSelectorsMigration.visitTemplate ElementSelectorsMigration.literal_updateTool
        data template [] =
      [] ++ @ElementSelectorsMigration.edits_for ElementSelectorsMigration.literal_updateTool
              (ElementSelectorsMigration.filePath template)
              (ElementSelectorsMigration.start template)
              (ElementSelectorsMigration.content template) data)
  ∧ (∀ filePath base text i,
      ElementSelectorsMigration.occurs_at text (js "mat-input-container") i →
      ElementSelectorsMigration.has_overlap
        (@ElementSelectorsMigration.edits_for ElementSelectorsMigration.literal_updateTool
           filePath base text data) = true).
Proof.
  cbv zeta.
  destruct (@element_selector_edits ElementSelectorsMigration.literal_updateTool
              [ElementSelectorsMigration.mkSelector (js "mat-input") (js "matInput");
               ElementSelectorsMigration.mkSelector (js "mat-input-container")
                 (js "mat-form-field")] [])
    as (Htemplate & _ & _ & _ & _ & Hoverlap).
  - intros input search Hne. by apply literal_search_exact.
  - by repeat constructor.
  - split; [exact Htemplate|].
    intros filePath base text i Hocc.
    apply (Hoverlap filePath base text
             (ElementSelectorsMigration.mkSelector (js "mat-input") (js "matInput"))
             (ElementSelectorsMigration.mkSelector (js "mat-input-container")
                (js "mat-form-field"))
             [] (js "-container") i); [set_solver|set_solver|done|done|done].
Defined.

(** C8, as the claim has it, fails: with a selector that is the start of
    another, the two removals recorded at one occurrence cover the same
    positions; and a string literal that is no argument of a call gets
    no edit for the occurrence it holds. *)
Lemma element_selector_overlap_counterexample :
  let data := [ElementSelectorsMigration.mkSelector (js "mat-input") (js "matInput");
               ElementSelectorsMigration.mkSelector (js "mat-input-container")
                 (js "mat-form-field")] in
  let template := ElementSelectorsMigration.mkResource (js "<mat-input-container>") 10
                    (js "app.html") in
  let literal := ElementSelectorsMigration.mkNode ElementSelectorsMigration.StringLiteral
                   (Some (ElementSelectorsMigration.OtherKind 0))
                   (js "'mat-input'") 40 (js "app.ts") in
  @ElementSelectorsMigration.visitTemplate ElementSelectorsMigration.literal_updateTool
    data template [] =
    [ElementSelectorsMigration.Remove (js "app.html") 11 9;
     ElementSelectorsMigration.InsertRight (js "app.html") 11 (js "matInput");
     ElementSelectorsMigration.Remove (js "app.html") 11 19;
     ElementSelectorsMigration.InsertRight (js "app.html") 11 (js "mat-form-field")]
  ∧ ElementSelectorsMigration.has_overlap
      (@ElementSelectorsMigration.visitTemplate ElementSelectorsMigration.literal_updateTool
         data template []) = true
  ∧ @ElementSelectorsMigration.findAllSubstringIndices
      ElementSelectorsMigration.literal_updateTool
      (ElementSelectorsMigration.getText literal) (js "mat-input") = [1%nat]
  ∧ @ElementSelectorsMigration.visitNode ElementSelectorsMigration.literal_updateTool
      data literal [] = [].
Proof. cbn zeta. repeat split; vm_compute; reflexivity. Qed.

Example element_selector_call_argument :
  let data := [ElementSelectorsMigration.mkSelector (js "mat-input") (js "matInput")] in
  let literal := ElementSelectorsMigration.mkNode ElementSelectorsMigration.StringLiteral
                   (Some ElementSelectorsMigration.CallExpression)
                   (js "'mat-input mat-input'") 40 (js "app.ts") in
  @ElementSelectorsMigration.visitNode ElementSelectorsMigration.literal_updateTool
    data literal [] =
    [ElementSelectorsMigration.Remove (js "app.ts") 41 9;
     ElementSelectorsMigration.InsertRight (js "app.ts") 41 (js "matInput");
     ElementSelectorsMigration.Remove (js "app.ts") 51 9;
     ElementSelectorsMigration.InsertRight (js "app.ts") 51 (js "matInput")].
Proof. vm_compute. reflexivity. Qed.

(* ===================================================================== *)
(** * Further properties of the modelled code *)
(* ===================================================================== *)

(** ** Keys and clicks of the Protractor element *)

Section ProtractorInputProperties.
Import FakeEvents ProtractorInput.

Ltac each_flag m :=
  destruct m as [[[]|] [[]|] [[]|] [[]|]].

(** X1: [toProtractorModifierKeys] lists the keys of the truthy flags,
    each once, in the order control, alt, shift, meta. *)
Theorem toProtractorModifierKeys_flags (modifiers : ModifierKeys) :
  toProtractorModifierKeys modifiers =
    filter (λ k, modifier_flag modifiers k = true)
      [ProtractorElement.CONTROL; ProtractorElement.ALT;
       ProtractorElement.SHIFT; ProtractorElement.META]
  ∧ NoDup (toProtractorModifierKeys modifiers)
  ∧ (∀ k, k ∈ toProtractorModifierKeys modifiers ↔ modifier_flag modifiers k = true).
Proof.
  assert (Heq : toProtractorModifierKeys modifiers =
    filter (λ k, modifier_flag modifiers k = true)
      [ProtractorElement.CONTROL; ProtractorElement.ALT;
       ProtractorElement.SHIFT; ProtractorElement.META])
    by (each_flag modifiers; reflexivity).
  split; [done|]. rewrite Heq. split.
  - apply NoDup_filter. apply (bool_decide_unpack _). by vm_compute.
  - intros k. rewrite list_elem_of_filter. split; [tauto|].
    intros Hk. split; [done|]. destruct k; set_solver.
Qed.

(** X2: no two [TestKey]s are sent as the same Protractor key. *)
Theorem keyMap_injective (a b : TestKey.t) : keyMap a = keyMap b ↔ a = b.
Proof.
  split; [|by intros ->].
  destruct a, b; simpl; intros H; first [reflexivity | discriminate H].
Qed.

(** X3: [sendKeys] throws exactly when it is called without arguments;
    in every other call it hands keys to the element, and leaving the
    modifiers out is the same as passing the empty modifiers object. *)
Theorem sendKeys_throws_iff_no_argument (modifiersAndKeys : list SendArg) :
  (sendKeys modifiersAndKeys = inl TypeError ↔ modifiersAndKeys = [])
  ∧ (∀ first keys, (∀ m, first ≠ ArgModifiers m) →
       sendKeys (first :: keys) = sendKeys (ArgModifiers no_modifiers :: first :: keys)).
Proof.
  split.
  - destruct modifiersAndKeys as [|[m|s|k] rest]; unfold sendKeys; simpl;
      (split; [intros H; first [reflexivity | discriminate H] | intros H; first [reflexivity | discriminate H]]).
  - intros [m|s|k] keys Hmods; [by destruct (Hmods m)|reflexivity|reflexivity].
Qed.

Lemma sendKeys_with_modifiers (m : ModifierKeys) (keys : list SendArg) :
  sendKeys (ArgModifiers m :: keys) =
  inr (map (chorded (toProtractorModifierKeys m)) (flat_map strokes keys)).
Proof. reflexivity. Qed.

Lemma no_flag_no_key (m : ModifierKeys) :
  toProtractorModifierKeys m = [] ↔ ∀ k, modifier_flag m k = false.
Proof.
  split.
  - intros Hnil k. destruct (modifier_flag m k) eqn:Hk; [|done].
    apply (toProtractorModifierKeys_flags m) in Hk. rewrite Hnil in Hk.
    by apply not_elem_of_nil in Hk.
  - intros Hnone.
    destruct (toProtractorModifierKeys m) as [|k l] eqn:Hl; [done|].
    assert (Hk : k ∈ toProtractorModifierKeys m) by (rewrite Hl; left).
    apply (toProtractorModifierKeys_flags m) in Hk. by rewrite Hnone in Hk.
Qed.

(** X4: with modifiers of which none is truthy every key is handed on
    by itself, never as a chord; as soon as one is truthy every key is a
    chord of the same modifier keys.  One key is sent per code unit of a
    string and per special key. *)
Theorem sendKeys_chords_all_or_none (m : ModifierKeys) (keys : list SendArg) :
  ((∀ k, modifier_flag m k = false) →
     keys_sent (ArgModifiers m :: keys) = map Plain (flat_map strokes keys))
  ∧ ((∃ k, modifier_flag m k = true) →
     keys_sent (ArgModifiers m :: keys) =
     map (Chord (toProtractorModifierKeys m)) (flat_map strokes keys))
  ∧ length (keys_sent (ArgModifiers m :: keys)) =
    sum_list (map (λ k, match k with ArgString s => length s | _ => 1%nat end) keys).
Proof.
  unfold keys_sent. rewrite sendKeys_with_modifiers. split; [|split].
  - intros Hnone. apply no_flag_no_key in Hnone. by rewrite Hnone.
  - intros [k Hk]. apply (toProtractorModifierKeys_flags m) in Hk.
    destruct (toProtractorModifierKeys m) as [|k' l]; [by apply not_elem_of_nil in Hk|].
    done.
  - rewrite length_map. induction keys as [|[m'|s|k] keys IH]; simpl; [done|..];
      rewrite ?length_app, ?length_map, IH; done.
Qed.

(** X5: what is sent depends on the keys only through their
    concatenation: sending two lists of keys in one call sends the keys
    of the first, then those of the second, and a string may be cut into
    two arguments anywhere, also into its single code units. *)
Theorem sendKeys_concatenation (m : ModifierKeys) (keys1 keys2 : list SendArg)
  (s1 s2 : jsstr) :
  keys_sent (ArgModifiers m :: keys1 ++ keys2) =
    keys_sent (ArgModifiers m :: keys1) ++ keys_sent (ArgModifiers m :: keys2)
  ∧ keys_sent (ArgModifiers m :: keys1 ++ ArgString (s1 ++ s2) :: keys2) =
    keys_sent (ArgModifiers m :: keys1 ++ ArgString s1 :: ArgString s2 :: keys2)
  ∧ keys_sent (ArgModifiers m :: [ArgString s1]) =
    keys_sent (ArgModifiers m :: map (λ c, ArgString [c]) s1).
Proof.
  unfold keys_sent. rewrite !sendKeys_with_modifiers. split; [|split].
  - by rewrite flat_map_app, map_app.
  - rewrite !flat_map_app. simpl. do 2 f_equal.
    by rewrite (map_app Char), <- app_assoc.
  - f_equal. simpl. rewrite app_nil_r.
    induction s1 as [|c s1 IH]; simpl; [done|]. by rewrite IH.
Qed.

Lemma bool_decide_elem_cons (k k' : ProtractorElement.Key) (keys : list ProtractorElement.Key) :
  bool_decide (k ∈ k' :: keys) = bool_decide (k' = k) || bool_decide (k ∈ keys).
Proof.
  destruct (bool_decide (k' = k)) eqn:Hk; simpl.
  - apply bool_decide_eq_true in Hk as ->. apply bool_decide_true. left.
  - apply bool_decide_eq_false in Hk. apply bool_decide_ext.
    rewrite elem_of_cons. naive_solver.
Qed.

Lemma bool_decide_elem_nil (k : ProtractorElement.Key) :
  bool_decide (k ∈ @nil ProtractorElement.Key) = false.
Proof. apply bool_decide_false, not_elem_of_nil. Qed.

Lemma down_at_click_keys (k : ProtractorElement.Key) (keys : list ProtractorElement.Key)
  (down : bool) (button : Button) (rest : list PointerAction) :
  down_at_click k down (map ActionKeyDown keys ++ ActionClick button :: rest) =
  Some (down || bool_decide (k ∈ keys)).
Proof.
  revert down. induction keys as [|k' keys IH]; intros down.
  - rewrite bool_decide_elem_nil, orb_false_r. reflexivity.
  - cbn [map app down_at_click]. rewrite IH, bool_decide_elem_cons.
    by destruct (bool_decide (k' = k)), down.
Qed.

Lemma down_at_end_keys_up (k : ProtractorElement.Key) (keys : list ProtractorElement.Key)
  (down : bool) :
  down_at_end k down (map ActionKeyUp keys) = down && negb (bool_decide (k ∈ keys)).
Proof.
  revert down. induction keys as [|k' keys IH]; intros down.
  - rewrite bool_decide_elem_nil, andb_true_r. reflexivity.
  - cbn [map down_at_end]. rewrite IH, bool_decide_elem_cons.
    by destruct (bool_decide (k' = k)), down.
Qed.

Lemma down_at_end_keys_down (k : ProtractorElement.Key) (keys : list ProtractorElement.Key)
  (down : bool) (rest : list PointerAction) :
  down_at_end k down (map ActionKeyDown keys ++ rest) =
  down_at_end k (down || bool_decide (k ∈ keys)) rest.
Proof.
  revert down. induction keys as [|k' keys IH]; intros down.
  - rewrite bool_decide_elem_nil, orb_false_r. reflexivity.
  - cbn [map app down_at_end]. rewrite IH, bool_decide_elem_cons.
    by destruct (bool_decide (k' = k)), down.
Qed.

Lemma clicks_of_keys (keys : list ProtractorElement.Key) :
  clicks_of (map ActionKeyDown keys) = [] ∧ clicks_of (map ActionKeyUp keys) = [].
Proof. split; (induction keys; [done|by cbn]). Qed.

Lemma moves_of_keys (keys : list ProtractorElement.Key) :
  moves_of (map ActionKeyDown keys) = [] ∧ moves_of (map ActionKeyUp keys) = [].
Proof. split; (induction keys; [done|by cbn]). Qed.

Lemma clicks_of_sequence offset (keys : list ProtractorElement.Key) (button : Button) :
  clicks_of ([MouseMove offset] ++ map ActionKeyDown keys ++ [ActionClick button]
             ++ map ActionKeyUp keys) = [button].
Proof.
  destruct (clicks_of_keys keys) as [Hdown Hup].
  unfold clicks_of in *. rewrite !omap_app, Hdown, Hup. reflexivity.
Qed.

Lemma moves_of_sequence offset (keys : list ProtractorElement.Key) (button : Button) :
  moves_of ([MouseMove offset] ++ map ActionKeyDown keys ++ [ActionClick button]
            ++ map ActionKeyUp keys) = [offset].
Proof.
  destruct (moves_of_keys keys) as [Hdown Hup].
  unfold moves_of in *. rewrite !omap_app, Hdown, Hup. reflexivity.
Qed.

(** X6: whatever the arguments, a click sequence moves the mouse once,
    clicks once with the button asked for, holds at that click exactly
    the modifier keys whose flag is truthy in a trailing modifiers
    object, and leaves none of them down at the end. *)
Theorem click_sequence_modifiers (args : list ClickArg) (button : Button)
  (k : ProtractorElement.Key) :
  let actions := _dispatchClickEventSequence args button in
  clicks_of actions = [button]
  ∧ length (moves_of actions) = 1%nat
  ∧ down_at_click k false actions = Some (modifier_flag (fst (pop_modifiers args)) k)
  ∧ down_at_end k false actions = false.
Proof.
  unfold _dispatchClickEventSequence. destruct (pop_modifiers args) as [m rest].
  cbn [fst]. cbv zeta.
  generalize (match rest with [x; y] => Some (x, y) | _ => None end). intros offset.
  assert (Hflag : bool_decide (k ∈ toProtractorModifierKeys m) = modifier_flag m k).
  { destruct (modifier_flag m k) eqn:Hk.
    - apply bool_decide_true. by apply (toProtractorModifierKeys_flags m).
    - apply bool_decide_false. intros Hin.
      apply (toProtractorModifierKeys_flags m) in Hin. congruence. }
  split; [|split; [|split]].
  - apply clicks_of_sequence.
  - by rewrite moves_of_sequence.
  - cbn [app down_at_click]. rewrite down_at_click_keys. by rewrite Hflag.
  - cbn [app down_at_end]. rewrite down_at_end_keys_down.
    cbn [app down_at_end]. rewrite down_at_end_keys_up.
    by destruct (bool_decide _).
Qed.

(** X7: where the click lands.  The pointer is moved to an offset only
    when exactly two arguments are left once a trailing modifiers object
    is taken off; a call without them, or with ['center'], clicks the
    centre, and so does a call that passes the coordinates and an
    explicit [undefined] for the modifiers. *)
Theorem click_offset (x y : ClickArg) (m : ModifierKeys) (button : Button) :
  (∀ m', y ≠ ClickModifiers m') →
  moves_of (_dispatchClickEventSequence [] button) = [None]
  ∧ moves_of (_dispatchClickEventSequence [ClickModifiers m] button) = [None]
  ∧ moves_of (_dispatchClickEventSequence [ClickCenter] button) = [None]
  ∧ moves_of (_dispatchClickEventSequence [ClickCenter; ClickModifiers m] button) = [None]
  ∧ moves_of (_dispatchClickEventSequence [x; y] button) = [Some (x, y)]
  ∧ moves_of (_dispatchClickEventSequence [x; y; ClickModifiers m] button) = [Some (x, y)]
  ∧ moves_of (_dispatchClickEventSequence [x; y; ClickUndefined] button) = [None].
Proof.
  intros Hy.
  unfold _dispatchClickEventSequence, pop_modifiers.
  repeat split; cbn [last length take Nat.sub]; try apply moves_of_sequence.
  destruct y as [z| |m'|]; try apply moves_of_sequence. by destruct (Hy m').
Qed.

Lemma click_offset_witness :
  moves_of (click [ClickNumber 3; ClickNumber 4]) = [Some (ClickNumber 3, ClickNumber 4)]
  ∧ moves_of (click [ClickNumber 3; ClickNumber 4; ClickUndefined]) = [None].
Proof.
  pose proof (click_offset (ClickNumber 3) (ClickNumber 4) no_modifiers LEFT) as H.
  destruct H as (_ & _ & _ & _ & Hxy & _ & Hundef); [done|].
  split; [exact Hxy|exact Hundef].
Defined.

End ProtractorInputProperties.

(** ** Keyboard events *)

Section KeyboardEventProperties.
Context `{browser : FakeEvents.Browser}.
Import FakeEvents KeyboardModifiers.

Lemma own_createKeyboardEvent type keyCode key modifiers :
  own (createKeyboardEvent type keyCode key modifiers) =
  <["metaKey" := VBool (truthy_flag (meta modifiers))]>
    (<["shiftKey" := VBool (truthy_flag (shift modifiers))]>
       (<["altKey" := VBool (truthy_flag (alt modifiers))]>
          (<["ctrlKey" := VBool (truthy_flag (control modifiers))]>
             (<["key" := VStr key]> (<["keyCode" := VNum keyCode]> ∅))))).
Proof. unfold createKeyboardEvent. by destruct hasInitKeyEvent. Qed.

Lemma own_preventDefault (event : EventObject) (name : string) :
  name ≠ "defaultPrevented" →
  own (preventDefault event) !! name = own event !! name.
Proof.
  intros Hne. unfold preventDefault.
  destruct (preventDefault_assigned event); simpl; [|done].
  by rewrite lookup_insert_ne.
Qed.

(** X8: on every browser, whichever initializer it offers and whatever
    that initializer sets, a keyboard event made by [createKeyboardEvent]
    reads the key code and the key it was asked for, and each of
    [ctrlKey], [altKey], [shiftKey], [metaKey] reads true exactly when
    the modifier's flag is truthy; [preventDefault()] changes none of
    them. *)
Theorem keyboard_event_reads_its_arguments type keyCode key modifiers :
  let event := createKeyboardEvent type keyCode key modifiers in
  Forall (λ e,
    get e "keyCode" = VNum keyCode
    ∧ get e "key" = VStr key
    ∧ get e "ctrlKey" = VBool (truthy_flag (control modifiers))
    ∧ get e "altKey" = VBool (truthy_flag (alt modifiers))
    ∧ get e "shiftKey" = VBool (truthy_flag (shift modifiers))
    ∧ get e "metaKey" = VBool (truthy_flag (meta modifiers)))
    [event; preventDefault event].
Proof.
  intros event.
  assert (Hboth : ∀ e, (∀ name, name ≠ "defaultPrevented" →
                           own e !! name = own event !! name) →
    get e "keyCode" = VNum keyCode
    ∧ get e "key" = VStr key
    ∧ get e "ctrlKey" = VBool (truthy_flag (control modifiers))
    ∧ get e "altKey" = VBool (truthy_flag (alt modifiers))
    ∧ get e "shiftKey" = VBool (truthy_flag (shift modifiers))
    ∧ get e "metaKey" = VBool (truthy_flag (meta modifiers))).
  { intros e Hown. unfold get. rewrite !Hown by done. subst event.
    rewrite own_createKeyboardEvent. repeat split; by simplify_map_eq. }
  apply Forall_cons. split; [by apply Hboth|].
  apply Forall_cons. split; [|by apply Forall_nil].
  apply Hboth. intros name Hne. by apply own_preventDefault.
Qed.

End KeyboardEventProperties.

Section KeyboardModifierNames.
Import FakeEvents KeyboardModifiers.

(** X9: the modifiers list handed to [initKeyboardEvent] holds the names
    of the truthy modifiers in the order Control, Alt, Shift, Meta, one
    space between two names and none at either end; split on white
    space it gives those names back, and it is empty when no flag is
    truthy. *)
Theorem modifiersList_names (modifiers : ModifierKeys) :
  trim (modifiersList modifiers) = join_with_space (held_names modifiers)
  ∧ List.filter truthy (split_ws (trim (modifiersList modifiers))) = held_names modifiers
  ∧ (trim (modifiersList modifiers) = [] ↔
     truthy_flag (control modifiers) = false ∧ truthy_flag (alt modifiers) = false
     ∧ truthy_flag (shift modifiers) = false ∧ truthy_flag (meta modifiers) = false).
Proof.
  destruct modifiers as [[[]|] [[]|] [[]|] [[]|]];
    (split; [vm_compute; reflexivity|split; [vm_compute; reflexivity|]]);
    vm_compute; (split; [intros H; first [discriminate H | done] | intros (?&?&?&?); congruence]).
Qed.

End KeyboardModifierNames.

(** ** The checkbox component *)

Section CheckboxComponentProperties.
Import MatCheckbox MatCheckboxComponent.

Lemma transition_same (new : TransitionCheckState) (c : Component) :
  _currentCheckState (fields c) = new → _transitionCheckState new c = c.
Proof. intros Heq. unfold _transitionCheckState. by rewrite bool_decide_true. Qed.

Lemma transition_keeps (new : TransitionCheckState) (c : Component) :
  let c' := _transitionCheckState new c in
  _checked (fields c') = _checked (fields c)
  ∧ _disabled (fields c') = _disabled (fields c)
  ∧ _indeterminate (fields c') = _indeterminate (fields c)
  ∧ markForCheck_calls (fields c') = markForCheck_calls (fields c)
  ∧ _currentCheckState (fields c') = new
  ∧ emitted c' = emitted c
  ∧ pending_resets c' = pending_resets c
  ∧ _inputElement c' = _inputElement c
  ∧ clickAction c' = clickAction c
  ∧ _animationMode c' = _animationMode c
  ∧ stopPropagation_calls c' = stopPropagation_calls c.
Proof.
  unfold _transitionCheckState. cbv zeta. case_bool_decide as Hsame.
  - by rewrite Hsame.
  - destruct (0 <? length (_getAnimationClassForCheckStateTransition _ _ _))%nat;
      repeat split.
Qed.

(** X10: a transition to the state the checkbox is in changes nothing.
    A transition to another state records the new state and, the new
    state being one of checked, unchecked and indeterminate, makes the
    animation class name the two states, old then new (the initial state
    counting as unchecked); the class is empty when animations are off
    and from the initial state to unchecked. *)
Theorem transition_names_both_states (new : TransitionCheckState) (c : Component) :
  let old := _currentCheckState (fields c) in
  let c' := _transitionCheckState new c in
  if bool_decide (old = new) then c' = c
  else
    _currentCheckState (fields c') = new
    ∧ (new ≠ Init →
       _currentAnimationClass c' =
       (if bool_decide (_animationMode c = Some (js "NoopAnimations")) then []
        else if bool_decide (old = Init ∧ new = Unchecked) then []
        else js "mat-checkbox-anim-" ++ state_name old ++ js "-" ++ state_name new)).
Proof.
  cbv zeta. case_bool_decide as Hsame; [by apply transition_same|].
  split; [apply (transition_keeps new c)|]. intros Hnew.
  assert (Hcls : _currentAnimationClass (_transitionCheckState new c) =
    _getAnimationClassForCheckStateTransition (_animationMode c)
      (_currentCheckState (fields c)) new).
  { unfold _transitionCheckState. rewrite bool_decide_false by done. cbv zeta.
    by destruct (0 <? length (_getAnimationClassForCheckStateTransition _ _ _))%nat. }
  rewrite Hcls. unfold _getAnimationClassForCheckStateTransition.
  destruct (bool_decide (_animationMode c = Some (js "NoopAnimations"))); [done|].
  destruct (_currentCheckState (fields c)), new;
    first [by destruct Hsame | by destruct Hnew | vm_compute; reflexivity].
Qed.

Lemma animation_class_nonempty (cls : jsstr) :
  is_animation_class cls = true → (0 <? length cls)%nat = true.
Proof. by destruct cls. Qed.

Lemma transition_one_animation_class (new : TransitionCheckState) (c : Component) :
  one_animation_class c → one_animation_class (_transitionCheckState new c).
Proof.
  intros Hinv. unfold _transitionCheckState. case_bool_decide as Hsame; [done|].
  cbv zeta.
  set (cls' := _getAnimationClassForCheckStateTransition _ _ _).
  assert (Hold : ∀ cls,
    cls ∈ (if (0 <? length (_currentAnimationClass c))%nat
           then classList c ∖ {[ _currentAnimationClass c ]} else classList c) →
    is_animation_class cls = true → False).
  { intros cls Hin Hanim.
    destruct (0 <? length (_currentAnimationClass c))%nat eqn:Hlen.
    - apply elem_of_difference in Hin as [Hin Hne].
      apply Hne, elem_of_singleton. by apply Hinv.
    - rewrite <- (Hinv cls Hin Hanim) in Hlen.
      rewrite (animation_class_nonempty cls Hanim) in Hlen. done. }
  destruct (0 <? length cls')%nat; intros cls Hin Hanim; simpl in *.
  - apply elem_of_union in Hin as [Hin|Hin]; [by destruct (Hold cls)|].
    by apply elem_of_singleton in Hin.
  - by destruct (Hold cls).
Qed.

Lemma timer_one_animation_class (c : Component) :
  one_animation_class c → one_animation_class (run_class_timer c).
Proof.
  intros Hinv. unfold run_class_timer. destruct (class_timers c) as [|t timers]; [done|].
  intros cls Hin Hanim. simpl in *.
  apply elem_of_difference in Hin as [Hin _]. by apply Hinv.
Qed.


Lemma click_enabled_run (c : Component) :
  _disabled (fields c) = false → clickAction c ≠ Some noop →
  ∃ c', _onInputClick c = Some c'
    ∧ checked (fields c') = negb (checked (fields c))
    ∧ _indeterminate (fields c') = _indeterminate (fields c)
    ∧ _disabled (fields c') = false
    ∧ clickAction c' = clickAction c
    ∧ _currentCheckState (fields c') =
      (if negb (checked (fields c)) then Checked else Unchecked)
    ∧ emitted c' = emitted c ++ [ControlValueAccessorChange (negb (checked (fields c)));
                                 Change (negb (checked (fields c)))]
    ∧ pending_resets c' =
      (if indeterminate (fields c) && negb (bool_decide (clickAction c = Some check))
       then S (pending_resets c) else pending_resets c)
    ∧ stopPropagation_calls c' = S (stopPropagation_calls c).
Proof.
  intros Hdis Hnoop. unfold _onInputClick. cbv zeta.
  cbn [stopPropagation fields clickAction].
  rewrite Hdis, (bool_decide_false _ Hnoop). cbn [negb andb].
  eexists. split; [reflexivity|].
  set (queued := if indeterminate (fields c) &&
                    negb (bool_decide (clickAction c = Some check)) then _ else _).
  assert (Hq : fields queued = fields c ∧ emitted queued = emitted c
               ∧ clickAction queued = clickAction c
               ∧ stopPropagation_calls queued = S (stopPropagation_calls c)
               ∧ pending_resets queued =
                 (if indeterminate (fields c) &&
                     negb (bool_decide (clickAction c = Some check))
                  then S (pending_resets c) else pending_resets c)).
  { subst queued. by destruct (indeterminate (fields c) && _). }
  destruct Hq as (Hf & He & Ha & Hs & Hp).
  set (toggled := toggle_checked queued).
  assert (Ht : checked (fields toggled) = negb (checked (fields c))).
  { subst toggled. unfold toggle_checked. cbn [fields with_fields].
    rewrite Hf. unfold toggle, set_checked, checked. by destruct (fields c) as [[] ? ? ? ?]. }
  assert (Hti : _indeterminate (fields toggled) = _indeterminate (fields c)
                ∧ _disabled (fields toggled) = _disabled (fields c)).
  { subst toggled. unfold toggle_checked. cbn [fields with_fields].
    rewrite Hf. unfold toggle, set_checked, checked. by destruct (fields c) as [[] ? ? ? ?]. }
  destruct Hti as [Hti Htd].
  pose proof (transition_keeps
                (if _checked (fields toggled) then Checked else Unchecked) toggled) as Hk.
  cbv zeta in Hk.
  destruct Hk as (Hk1 & Hk2 & Hk3 & _ & Hk5 & Hk6 & Hk7 & _ & Hk9 & _ & Hk11).
  unfold _emitChangeEvent. cbv zeta. cbn [fields emit emitted pending_resets clickAction
                                          stopPropagation_calls].
  unfold checked in *. rewrite Hk1, Hk2, Hk3, Hk5, Hk6, Hk7, Hk9, Hk11, Ht, Hti, Htd.
  subst toggled. cbn [toggle_checked with_fields emitted pending_resets clickAction
                      stopPropagation_calls].
  rewrite He, Ha, Hs, Hp, Hdis, <- app_assoc. done.
Qed.

(** X11: a click on an enabled checkbox whose click action is not
    [noop] stops the event's propagation, flips [checked], calls the
    registered change function and then emits one change event, both with
    the new value, and brings the transition state to checked or
    unchecked accordingly; [indeterminate] is not changed by the click
    itself. *)
Theorem click_toggles_and_emits (c : Component) :
  _disabled (fields c) = false → clickAction c ≠ Some noop →
  ∃ c', _onInputClick c = Some c'
    ∧ checked (fields c') = negb (checked (fields c))
    ∧ _indeterminate (fields c') = _indeterminate (fields c)
    ∧ _currentCheckState (fields c') =
      (if negb (checked (fields c)) then Checked else Unchecked)
    ∧ emitted c' = emitted c ++ [ControlValueAccessorChange (negb (checked (fields c)));
                                 Change (negb (checked (fields c)))]
    ∧ stopPropagation_calls c' = S (stopPropagation_calls c).
Proof.
  intros Hdis Hnoop.
  destruct (click_enabled_run c Hdis Hnoop) as (c' & Hc & H1 & H2 & _ & _ & H3 & H4 & _ & H5).
  by exists c'.
Qed.

Lemma click_toggles_and_emits_witness :
  ∃ c', _onInputClick (new_component ∅ None) = Some c'
    ∧ checked (fields c') = true
    ∧ _indeterminate (fields c') = false
    ∧ _currentCheckState (fields c') = Checked
    ∧ emitted c' = [ControlValueAccessorChange true; Change true]
    ∧ stopPropagation_calls c' = 1%nat.
Proof.
  apply (click_toggles_and_emits (new_component ∅ None)); [reflexivity|discriminate].
Defined.

(** X12: a click that does not toggle.  On a disabled checkbox a click
    only stops the event's propagation; with the click action [noop] on
    an enabled checkbox it also writes the component's [checked] and
    [indeterminate] back to the native input.  Either way [checked],
    [indeterminate] and the transition state stay, and nothing is
    emitted. *)
Theorem click_without_toggle (c : Component) :
  (_disabled (fields c) = true → _onInputClick c = Some (stopPropagation c))
  ∧ (_disabled (fields c) = false → clickAction c = Some noop →
     ∀ input, _inputElement c = Some input →
       _onInputClick c =
       Some (with_input (Some (mkNativeInput (checked (fields c)) (indeterminate (fields c))))
               (stopPropagation c)))
  ∧ (∀ c', _onInputClick c = Some c' →
       _disabled (fields c) = true ∨ clickAction c = Some noop →
       fields c' = fields c ∧ emitted c' = emitted c
       ∧ pending_resets c' = pending_resets c).
Proof.
  assert (Hdis : _disabled (fields c) = true → _onInputClick c = Some (stopPropagation c)).
  { intros Hd. unfold _onInputClick. cbv zeta. cbn [stopPropagation fields].
    by rewrite Hd. }
  assert (Hnoop : _disabled (fields c) = false → clickAction c = Some noop →
     ∀ input, _inputElement c = Some input →
       _onInputClick c =
       Some (with_input (Some (mkNativeInput (checked (fields c)) (indeterminate (fields c))))
               (stopPropagation c))).
  { intros Hd Ha input Hi. unfold _onInputClick. cbv zeta.
    cbn [stopPropagation fields _inputElement]. rewrite Hd, Ha, Hi.
    by rewrite bool_decide_true. }
  split; [done|]. split; [done|].
  intros c' Hc Hcase.
  destruct (_disabled (fields c)) eqn:Hd.
  - rewrite Hdis in Hc by done. by injection Hc as <-.
  - destruct Hcase as [?|Ha]; [done|].
    destruct (_inputElement c) as [input|] eqn:Hi.
    + rewrite (Hnoop eq_refl Ha input eq_refl) in Hc. by injection Hc as <-.
    + unfold _onInputClick in Hc. cbv zeta in Hc.
      cbn [stopPropagation fields _inputElement] in Hc. rewrite Hd, Ha, Hi in Hc.
      by rewrite bool_decide_true in Hc.
Qed.

(** X13: a click on an enabled, indeterminate checkbox.  Unless the
    click action is [check] (or [noop]), the click queues one reset, and
    once that has run [indeterminate] is false, one
    [indeterminateChange(false)] has been emitted after the change event,
    and the aria state is no longer 'mixed'. *)
Theorem click_resets_indeterminate (c : Component) :
  _disabled (fields c) = false → indeterminate (fields c) = true →
  clickAction c ≠ Some noop → clickAction c ≠ Some check →
  ∃ c', _onInputClick c = Some c'
    ∧ pending_resets c' = S (pending_resets c)
    ∧ indeterminate (fields c') = true
    ∧ indeterminate (fields (run_indeterminate_reset c')) = false
    ∧ checked (fields (run_indeterminate_reset c')) = negb (checked (fields c))
    ∧ emitted (run_indeterminate_reset c') =
      emitted c ++ [ControlValueAccessorChange (negb (checked (fields c)));
                    Change (negb (checked (fields c)));
                    IndeterminateChange false]
    ∧ _getAriaChecked (fields (run_indeterminate_reset c')) ≠ aria_mixed.
Proof.
  intros Hdis Hind Hnoop Hcheck.
  destruct (click_enabled_run c Hdis Hnoop)
    as (c' & Hc & Hchk & Hi & _ & _ & _ & Hem & Hp & _).
  rewrite Hind, (bool_decide_false _ Hcheck) in Hp. cbn [negb andb] in Hp.
  exists c'. split; [done|]. split; [done|].
  unfold indeterminate in *. split; [congruence|].
  unfold run_indeterminate_reset. rewrite Hp. cbv zeta.
  cbn [fields emit with_fields with_pending_resets emitted set__indeterminate
       _indeterminate _checked].
  unfold checked in *. cbn [_checked set__indeterminate].
  rewrite Hem, Hchk, <- app_assoc.
  repeat split. unfold _getAriaChecked, checked, indeterminate. cbn.
  by destruct (_checked (fields c')).
Qed.

Lemma click_resets_indeterminate_witness :
  let c := with_fields (mkCheckbox false false true Indeterminate 0) (new_component ∅ None) in
  ∃ c', _onInputClick c = Some c'
    ∧ pending_resets c' = 1%nat
    ∧ indeterminate (fields c') = true
    ∧ indeterminate (fields (run_indeterminate_reset c')) = false
    ∧ checked (fields (run_indeterminate_reset c')) = true
    ∧ emitted (run_indeterminate_reset c') =
      [ControlValueAccessorChange true; Change true; IndeterminateChange false]
    ∧ _getAriaChecked (fields (run_indeterminate_reset c')) ≠ aria_mixed.
Proof.
  cbv zeta.
  apply (click_resets_indeterminate
           (with_fields (mkCheckbox false false true Indeterminate 0) (new_component ∅ None)));
    [reflexivity|reflexivity|discriminate|discriminate].
Defined.

(** X14: with the click action [check] a click on an enabled,
    indeterminate checkbox toggles [checked] and queues no reset:
    [indeterminate] stays true, so the aria state is 'true' after a click
    that checks and 'mixed' after one that unchecks. *)
Theorem click_check_keeps_indeterminate (c : Component) :
  _disabled (fields c) = false → indeterminate (fields c) = true →
  clickAction c = Some check →
  ∃ c', _onInputClick c = Some c'
    ∧ pending_resets c' = pending_resets c
    ∧ indeterminate (fields c') = true
    ∧ _getAriaChecked (fields c') = (if checked (fields c) then aria_mixed else aria_true).
Proof.
  intros Hdis Hind Hcheck.
  assert (Hnoop : clickAction c ≠ Some noop) by (rewrite Hcheck; discriminate).
  destruct (click_enabled_run c Hdis Hnoop)
    as (c' & Hc & Hchk & Hi & _ & _ & _ & _ & Hp & _).
  rewrite Hind, (bool_decide_true _ Hcheck) in Hp. cbn [negb andb] in Hp.
  exists c'. split; [done|]. split; [done|].
  unfold indeterminate in *. split; [congruence|].
  unfold _getAriaChecked, indeterminate. rewrite Hchk, Hi, Hind.
  by destruct (checked (fields c)).
Qed.

Lemma click_check_keeps_indeterminate_witness :
  let c := with_fields (mkCheckbox true false true Indeterminate 0)
             (new_component ∅ (Some check)) in
  ∃ c', _onInputClick c = Some c'
    ∧ pending_resets c' = 0%nat
    ∧ indeterminate (fields c') = true
    ∧ _getAriaChecked (fields c') = aria_mixed.
Proof.
  cbv zeta.
  apply (click_check_keeps_indeterminate
           (with_fields (mkCheckbox true false true Indeterminate 0)
              (new_component ∅ (Some check)))); reflexivity.
Defined.



Section IndeterminateSetter.
Context `{coercion : Coercion}.

(** X16: [set indeterminate(value)] stores [coerceBooleanProperty(value)]
    and writes it to the native input when there is one.  It emits
    [indeterminateChange], once and with the stored value, exactly when
    the value as given is loosely unequal ([!=]) to the value held
    before, and only then does the transition state move: to
    indeterminate, or to the checked state.  [checked] is never touched.
    The comparison is made before the coercion.  For a boolean that a
    coercion gives back as it is, the event comes exactly when the stored
    value changes; [null] and [undefined] always make an event; a string
    whose number is that of the held value makes none, whatever is
    stored. *)
Theorem set_indeterminate_emits_on_change (value : BooleanInput) (c : Component) :
  let c' := set_indeterminate value c in
  let stored := coerceBooleanProperty value in
  let held := _indeterminate (fields c) in
  _indeterminate (fields c') = stored
  ∧ checked (fields c') = checked (fields c)
  ∧ _inputElement c' =
    (λ input, mkNativeInput (native_checked input) stored) <$> _inputElement c
  ∧ emitted c' =
    emitted c ++ (if loosely_unequal value held then [IndeterminateChange stored] else [])
  ∧ _currentCheckState (fields c') =
    (if loosely_unequal value held then
       if stored then Indeterminate
       else if checked (fields c) then Checked else Unchecked
     else _currentCheckState (fields c))
  ∧ (∀ b, value = InBoolean b → coerceBooleanProperty (InBoolean b) = b →
       (emitted c' = emitted c ↔ stored = held))
  ∧ (value = InNull ∨ value = InUndefined →
       emitted c' = emitted c ++ [IndeterminateChange stored])
  ∧ (∀ s, value = InString s →
       (emitted c' = emitted c ↔ string_equals_boolean s held = true)).
Proof.
  cbv zeta.
  assert (Hrun :
    _indeterminate (fields (set_indeterminate value c)) = coerceBooleanProperty value
    ∧ checked (fields (set_indeterminate value c)) = checked (fields c)
    ∧ _inputElement (set_indeterminate value c) =
      (λ input, mkNativeInput (native_checked input) (coerceBooleanProperty value))
        <$> _inputElement c
    ∧ emitted (set_indeterminate value c) =
      emitted c ++ (if loosely_unequal value (_indeterminate (fields c))
                    then [IndeterminateChange (coerceBooleanProperty value)] else [])
    ∧ _currentCheckState (fields (set_indeterminate value c)) =
      (if loosely_unequal value (_indeterminate (fields c)) then
         if coerceBooleanProperty value then Indeterminate
         else if checked (fields c) then Checked else Unchecked
       else _currentCheckState (fields c))).
  { unfold set_indeterminate. cbv zeta.
    cbn [fields with_fields set__indeterminate _indeterminate].
    destruct (loosely_unequal value (_indeterminate (fields c))) eqn:Hchanged.
    - set (moved := if coerceBooleanProperty value then _ else _).
      assert (Hm : _checked (fields moved) = _checked (fields c)
                   ∧ _indeterminate (fields moved) = coerceBooleanProperty value
                   ∧ emitted moved = emitted c
                   ∧ _inputElement moved = _inputElement c
                   ∧ _currentCheckState (fields moved) =
                     (if coerceBooleanProperty value then Indeterminate
                      else if checked (fields c) then Checked else Unchecked)).
      { subst moved. unfold checked. cbn [fields with_fields set__indeterminate _checked].
        destruct (coerceBooleanProperty value);
          match goal with
          | |- context [_transitionCheckState ?s ?x] =>
              pose proof (transition_keeps s x) as Hk
          end; cbv zeta in Hk;
          destruct Hk as (Hk1 & _ & Hk3 & _ & Hk5 & Hk6 & _ & Hk8 & _);
          rewrite Hk1, Hk3, Hk5, Hk6, Hk8; done. }
      destruct Hm as (Hm1 & Hm2 & Hm3 & Hm4 & Hm5).
      unfold _syncIndeterminate, checked. cbn [_inputElement emit fields].
      rewrite Hm4. destruct (_inputElement c) as [input|] eqn:Hi; simpl;
        rewrite ?Hm1, ?Hm2, ?Hm3, ?Hm4, ?Hm5, ?Hi; done.
    - unfold _syncIndeterminate, checked. simpl.
      destruct (_inputElement c) as [input|] eqn:Hi; simpl; rewrite ?Hi, ?app_nil_r; done. }
  destruct Hrun as (Hstored & Hchecked & Hinput & Hemitted & Hstate).
  do 5 (split; [done|]). rewrite Hemitted. clear Hstored Hchecked Hinput Hemitted Hstate.
  assert (Hnone : ∀ e, emitted c ++ [e] = emitted c → False).
  { intros e He. apply (f_equal length) in He. rewrite length_app in He.
    simpl in He. lia. }
  split; [|split].
  - intros b -> ->. cbn [loosely_unequal].
    destruct b, (_indeterminate (fields c)); cbn [Bool.eqb negb];
      rewrite ?app_nil_r; split; intros H; try done; by destruct (Hnone _ H).
  - by intros [-> | ->].
  - intros s ->. cbn [loosely_unequal].
    destruct (string_equals_boolean s (_indeterminate (fields c))); cbn [negb];
      rewrite ?app_nil_r; split; intros H; try done; by destruct (Hnone _ H).
Qed.

Lemma set_indeterminate_classes (value : BooleanInput) (c : Component) :
  ∃ s, (classList (set_indeterminate value c) =
          classList (_transitionCheckState s (with_fields
                       (set__indeterminate (coerceBooleanProperty value) (fields c)) c))
        ∧ _currentAnimationClass (set_indeterminate value c) =
          _currentAnimationClass (_transitionCheckState s (with_fields
                       (set__indeterminate (coerceBooleanProperty value) (fields c)) c))).
Proof.
  unfold set_indeterminate. cbv zeta.
  cbn [fields with_fields set__indeterminate _indeterminate].
  destruct (loosely_unequal value (_indeterminate (fields c))).
  - destruct (coerceBooleanProperty value); eexists;
      unfold _syncIndeterminate; cbn [_inputElement emit];
      match goal with |- context [match ?x with Some _ => _ | None => _ end] =>
        destruct x end; split; reflexivity.
  - exists (_currentCheckState (fields c)).
    rewrite transition_same by reflexivity.
    unfold _syncIndeterminate. cbn [_inputElement with_fields].
    destruct (_inputElement c); split; reflexivity.
Qed.

End IndeterminateSetter.

Example set_indeterminate_strings :
  let c := new_component ∅ None in
  let empty := @set_indeterminate boolean_coercion (InString []) c in
  let false_ := @set_indeterminate boolean_coercion (InString (js "false")) c in
  _indeterminate (fields c) = false
  ∧ _indeterminate (fields empty) = true ∧ emitted empty = []
  ∧ _indeterminate (fields false_) = false ∧ emitted false_ = [IndeterminateChange false].
Proof. repeat split. Qed.

Lemma one_animation_class_same (c c' : Component) :
  classList c' = classList c → _currentAnimationClass c' = _currentAnimationClass c →
  one_animation_class c → one_animation_class c'.
Proof. intros Hcl Hcur Hinv cls. rewrite Hcl, Hcur. apply Hinv. Qed.

(** X17: of the animation classes at most one is on the host element at
    any time, the current one.  If that holds it holds after a
    transition, after a timer that removes a class has run, after the
    indeterminate setter, after a click and after the reset a click
    queued; so two animation classes found on the element are the same
    class. *)
Theorem animation_classes_never_pile_up `{coercion : Coercion} (c : Component) :
  one_animation_class c →
  (∀ new, one_animation_class (_transitionCheckState new c))
  ∧ one_animation_class (run_class_timer c)
  ∧ (∀ value, one_animation_class (set_indeterminate value c))
  ∧ (∀ c', _onInputClick c = Some c' → one_animation_class c')
  ∧ one_animation_class (run_indeterminate_reset c)
  ∧ (∀ cls1 cls2, cls1 ∈ classList c → cls2 ∈ classList c →
       is_animation_class cls1 = true → is_animation_class cls2 = true → cls1 = cls2).
Proof.
  intros Hinv. split; [|split; [|split; [|split; [|split]]]].
  - intros new. by apply transition_one_animation_class.
  - by apply timer_one_animation_class.
  - intros value. destruct (set_indeterminate_classes value c) as (s & Hcl & Hcur).
    eapply one_animation_class_same; [exact Hcl|exact Hcur|].
    apply transition_one_animation_class.
    by apply (one_animation_class_same c).
  - intros c' Hc. unfold _onInputClick in Hc. cbv zeta in Hc.
    cbn [stopPropagation fields clickAction _inputElement] in Hc.
    destruct (negb (_disabled (fields c)) && negb (bool_decide (clickAction c = Some noop))).
    + injection Hc as <-. unfold _emitChangeEvent. cbv zeta.
      eapply one_animation_class_same; [reflexivity|reflexivity|].
      apply transition_one_animation_class.
      apply (one_animation_class_same c); [|  |done];
        by destruct (indeterminate (fields c) && _).
    + destruct (negb (_disabled (fields c)) && bool_decide (clickAction c = Some noop)).
      * destruct (_inputElement c); [|done]. injection Hc as <-.
        by apply (one_animation_class_same c).
      * injection Hc as <-. by apply (one_animation_class_same c).
  - unfold run_indeterminate_reset. destruct (pending_resets c); [done|].
    by apply (one_animation_class_same c).
  - intros cls1 cls2 H1 H2 Ha1 Ha2. by rewrite (Hinv cls1), (Hinv cls2).
Qed.

Lemma animation_classes_never_pile_up_witness :
  let c := new_component {[ js "mat-checkbox" ]} None in
  (∀ new, one_animation_class (_transitionCheckState new c))
  ∧ one_animation_class (run_class_timer c)
  ∧ (∀ value, one_animation_class (@set_indeterminate boolean_coercion value c))
  ∧ (∀ c', _onInputClick c = Some c' → one_animation_class c')
  ∧ one_animation_class (run_indeterminate_reset c)
  ∧ (∀ cls1 cls2, cls1 ∈ classList c → cls2 ∈ classList c →
       is_animation_class cls1 = true → is_animation_class cls2 = true → cls1 = cls2).
Proof.
  cbv zeta.
  apply (@animation_classes_never_pile_up boolean_coercion
           (new_component {[ js "mat-checkbox" ]} None)).
  intros cls Hin Hanim. cbn in Hin. apply elem_of_singleton in Hin. subst cls.
  discriminate Hanim.
Defined.

Example transition_classes :
  let c1 := _transitionCheckState Checked (new_component {[ js "mat-checkbox" ]} None) in
  let c2 := _transitionCheckState Unchecked c1 in
  classList c1 = {[ js "mat-checkbox"; js "mat-checkbox-anim-unchecked-checked" ]}
  ∧ classList c2 = {[ js "mat-checkbox"; js "mat-checkbox-anim-checked-unchecked" ]}
  ∧ classList (run_class_timer c2) =
    {[ js "mat-checkbox"; js "mat-checkbox-anim-checked-unchecked" ]}
  ∧ classList (run_class_timer (run_class_timer c2)) = {[ js "mat-checkbox" ]}.
Proof. repeat split; apply (bool_decide_unpack _); by vm_compute. Qed.

End CheckboxComponentProperties.

(** ** The migrations *)

Section MigrationProperties.
Context `{tool : ElementSelectorsMigration.UpdateTool}.
Import ElementSelectorsMigration PropertyNamesMigration.

Lemma visit_with_edits name_text name_start name_width typeName fileName
  (data : list PropertyNameUpgradeData) (edits : list EditOp) :
  fold_left (visit_with name_text name_start name_width typeName fileName) data edits =
  edits ++ flat_map (λ d, [Remove (resolve fileName) name_start name_width;
                           InsertRight (resolve fileName) name_start (pn_replaceWith d)])
             (renames data name_text typeName).
Proof.
  revert edits. induction data as [|d data IH]; intros edits; simpl.
  - by rewrite app_nil_r.
  - rewrite IH. unfold visit_with.
    destruct (bool_decide (name_text = pn_replace d)); simpl; [|done].
    destruct (applies_to d typeName); simpl; [|done].
    by rewrite <- app_assoc.
Qed.

(** X18: on a property access the property-names migration records one
    removal of the accessed name (its start, its width) and one
    insertion of the new name at that start for every entry of the data
    whose old name is the accessed name and that is either unrestricted
    or lists the class of the host's type; an entry restricted to classes
    never applies when the host's type is unknown.  Everything recorded
    is in the node's file at the name's start, and nothing is recorded
    for a name no entry renames or for a node of another kind. *)
Theorem property_name_edits (data : list PropertyNameUpgradeData) (edits : list EditOp)
  name_text name_start name_width typeName fileName :
  let node := PropertyAccessExpression name_text name_start name_width typeName fileName in
  PropertyNamesMigration.visitNode data node edits =
    edits ++ flat_map (λ d, [Remove (resolve fileName) name_start name_width;
                             InsertRight (resolve fileName) name_start (pn_replaceWith d)])
               (renames data name_text typeName)
  ∧ (∀ d, d ∈ renames data name_text typeName ↔
          d ∈ data ∧ name_text = pn_replace d
          ∧ (pn_limitedTo d = None
             ∨ ∃ classes t, pn_limitedTo d = Some classes ∧ typeName = Some t ∧ t ∈ classes))
  ∧ (∀ op, op ∈ PropertyNamesMigration.visitNode data node [] →
          op_path op = resolve fileName ∧ op_index op = name_start)
  ∧ ((∀ d, d ∈ data → name_text ≠ pn_replace d) →
       PropertyNamesMigration.visitNode data node edits = edits)
  ∧ PropertyNamesMigration.visitNode data OtherNode edits = edits.
Proof.
  cbv zeta. unfold PropertyNamesMigration.visitNode.
  assert (Hin : ∀ d, d ∈ renames data name_text typeName ↔
          d ∈ data ∧ name_text = pn_replace d
          ∧ (pn_limitedTo d = None
             ∨ ∃ classes t, pn_limitedTo d = Some classes ∧ typeName = Some t ∧ t ∈ classes)).
  { intros d. unfold renames.
    rewrite list_elem_of_In, filter_In, <- list_elem_of_In, andb_true_iff,
      bool_decide_eq_true.
    unfold applies_to. destruct (pn_limitedTo d) as [classes|].
    - destruct typeName as [t|].
      + rewrite bool_decide_eq_true. split.
        * intros (? & ? & ?). split; [done|]. split; [done|]. right. by exists classes, t.
        * intros (? & ? & [?|(cl & t' & Hcl & Ht & Hmem)]); [done|].
          injection Hcl as <-. injection Ht as <-. done.
      + split; [intros (? & ? & ?); done|].
        intros (? & ? & [?|(cl & t' & _ & Ht & _)]); done.
    - split; [intros (? & ? & _); by eauto|]. intros (? & ? & _). done. }
  split; [apply visit_with_edits|]. split; [exact Hin|]. split; [|split; [|done]].
  - intros op. rewrite visit_with_edits. simpl.
    rewrite list_elem_of_In, in_flat_map. intros (d & _ & Hop).
    simpl in Hop. destruct Hop as [<-|[<-|[]]]; done.
  - intros Hnone. rewrite visit_with_edits.
    assert (Hnil : renames data name_text typeName = []).
    { apply elem_of_nil_inv. intros d Hd.
      apply Hin in Hd as (Hd & Hname & _). by destruct (Hnone d Hd). }
    by rewrite Hnil, app_nil_r.
Qed.

(** X19: when [findAllSubstringIndices] reports only indices at which the
    search string stands in the text, every operation the
    element-selectors migration records for a template is in the
    template's file, at or after its start, and each removal takes out
    exactly an occurrence of an old selector: the text it removes is the
    old name. *)
Theorem element_selector_edits_in_place (data : list ElementSelectorUpgradeData)
  (template : ResolvedResource) :
  (∀ text search i, i ∈ findAllSubstringIndices text search →
                    take (length search) (drop i text) = search) →
  Forall (in_place data template) (visitTemplate data template []).
Proof.
  intros Hsound. apply Forall_forall. intros op Hop.
  unfold visitTemplate in Hop. rewrite forEach_selector_edits in Hop. simpl in Hop.
  apply edits_for_in in Hop as (selector & offset & Hsel & Hoff & Hop).
  unfold in_place.
  destruct Hop as [-> | ->]; simpl; (split; [done|]); (split; [lia|]).
  - exists selector. split; [done|]. split; [done|].
    replace (start template + offset - start template)%nat with offset by lia.
    by apply Hsound.
  - by exists selector.
Qed.

End MigrationProperties.

Lemma element_selector_edits_in_place_witness :
  let data := [ElementSelectorsMigration.mkSelector (js "mat-input") (js "matInput")] in
  let template := ElementSelectorsMigration.mkResource (js "<mat-input> <mat-input>") 10
                    (js "app.html") in
  Forall (PropertyNamesMigration.in_place data template)
    (@ElementSelectorsMigration.visitTemplate ElementSelectorsMigration.literal_updateTool
       data template []).
Proof.
  cbv zeta.
  apply (@element_selector_edits_in_place ElementSelectorsMigration.literal_updateTool).
  intros text search i Hi. simpl in Hi.
  apply occurrences_from_sound in Hi as (k & -> & Hk). exact Hk.
Defined.

(** ** Generated ids *)

Section UniqueIdProperties.
Import UniqueIds.

Lemma uint_digits_inj (d d' : Decimal.uint) : uint_digits d = uint_digits d' → d = d'.
Proof.
  revert d'. induction d as [|d IH|d IH|d IH|d IH|d IH|d IH|d IH|d IH|d IH|d IH];
    intros d'; destruct d'; simpl; intros H; try discriminate H; try reflexivity;
    injection H as H; f_equal; by apply IH.
Qed.

Lemma number_to_string_inj (n n' : N) : number_to_string n = number_to_string n' → n = n'.
Proof. intros H. by apply DecimalN.Unsigned.to_uint_inj, uint_digits_inj. Qed.

Lemma new_MatErrors_ids (n : nat) (nextUniqueId : N) :
  nextUniqueId + N.of_nat n <= 2 ^ 53 →
  map id (fst (new_MatErrors n nextUniqueId)) =
    map (λ k, js "mat-error-" ++ number_to_string (nextUniqueId + N.of_nat k)) (seq 0 n)
  ∧ snd (new_MatErrors n nextUniqueId) = nextUniqueId + N.of_nat n.
Proof.
  revert nextUniqueId. induction n as [|n IH]; intros next Hle.
  - simpl. split; [done|]. lia.
  - cbn [new_MatErrors new_MatError].
    assert (Hinc : increment next = next + 1).
    { unfold increment. destruct (next <? 2 ^ 53) eqn:Hlt; [done|].
      apply N.ltb_ge in Hlt. lia. }
    rewrite Hinc. destruct (IH (next + 1)) as [Hids Hlast]; [lia|].
    destruct (new_MatErrors n (next + 1)) as [es last]. cbn [fst snd] in *.
    split; [|lia]. cbn [map seq id]. f_equal.
    + by rewrite N.add_0_r.
    + rewrite Hids, <- seq_shift, map_map. apply map_ext. intros k.
      do 2 f_equal. lia.
Qed.

(** X20: as long as the counter stays within 2^53, [n] [MatError]
    instances made one after the other, from whatever value the counter
    has, get the ids [mat-error-k] for the successive counter values [k];
    no two of them share an id, and the counter ends [n] higher. *)
Theorem MatError_ids_distinct (n : nat) (nextUniqueId : N) :
  nextUniqueId + N.of_nat n <= 2 ^ 53 →
  map id (fst (new_MatErrors n nextUniqueId)) =
    map (λ k, js "mat-error-" ++ number_to_string (nextUniqueId + N.of_nat k)) (seq 0 n)
  ∧ NoDup (map id (fst (new_MatErrors n nextUniqueId)))
  ∧ snd (new_MatErrors n nextUniqueId) = nextUniqueId + N.of_nat n.
Proof.
  intros Hle. destruct (new_MatErrors_ids n nextUniqueId Hle) as [Hids Hlast].
  split; [done|]. split; [|done]. rewrite Hids.
  apply NoDup_fmap_2; [|apply NoDup_seq].
  intros k k' Heq. apply app_inv_head in Heq. apply number_to_string_inj in Heq. lia.
Qed.

Lemma MatError_ids_distinct_witness :
  map id (fst (new_MatErrors 3 9)) =
    map (λ k, js "mat-error-" ++ number_to_string (9 + N.of_nat k)) (seq 0 3)
  ∧ NoDup (map id (fst (new_MatErrors 3 9)))
  ∧ snd (new_MatErrors 3 9) = 9 + N.of_nat 3.
Proof. apply (MatError_ids_distinct 3 9). vm_compute. discriminate. Defined.

Example MatError_ids_from_nine :
  map id (fst (new_MatErrors 3 9)) = [js "mat-error-9"; js "mat-error-10"; js "mat-error-11"].
Proof. vm_compute. reflexivity. Qed.

Example counter_stuck_at_limit :
  snd (new_MatError (2 ^ 53)) = 2 ^ 53
  ∧ id (fst (new_MatError (2 ^ 53))) = id (fst (new_MatError (snd (new_MatError (2 ^ 53))))).
Proof. split; vm_compute; reflexivity. Qed.

End UniqueIdProperties.

(** ** The autocomplete harness and a caller's ancestor *)

Section AutocompleteAncestor.
Context `{backend : Backend} `{core : MatAutocompleteHarness.MdcCoreTesting}.
Import MatAutocompleteHarness.

(** X21: an [ancestor] the caller puts into the filters of
    [selectOption] is not used for the lookup: the options are looked up
    under the panel of the trigger whatever ancestor was given.  With the
    ancestor and without it the calls made and the document are the same,
    the call resolves for the one filter exactly when it does for the
    other, and a rejection is the same but for the message of the error
    for no match, which prints the filters as the caller gave them. *)
Theorem caller_ancestor_is_ignored (filters : OptionHarnessFilters) (ancestor : jsstr)
  (w : World) :
  let given := option_with_ancestor filters ancestor in
  snd (selectOption given w) = snd (selectOption filters w)
  ∧ (fst (selectOption given w) = Resolved tt ↔ fst (selectOption filters w) = Resolved tt)
  ∧ (∀ error, fst (selectOption filters w) = Rejected error →
       fst (selectOption given w) = Rejected error
       ∨ (error = mkError (js "Could not find a mat-option matching "
                           ++ JSON_stringify filters)
          ∧ fst (selectOption given w) =
            Rejected (mkError (js "Could not find a mat-option matching "
                               ++ JSON_stringify given)))).
Proof.
  cbv zeta. rewrite !selectOption_run. cbv zeta.
  rewrite option_with_ancestor_twice.
  destruct (optionHarnesses _ _) as [[|first others]|error]; simpl.
  - split; [done|]. split; [done|]. intros error [= <-]. by right.
  - split; [done|]. split; [done|]. intros error Herr. discriminate Herr.
  - split; [done|]. split; [done|]. intros error' [= <-]. by left.
Qed.

End AutocompleteAncestor.

Example caller_ancestor_in_message :
  let trigger := mkElement 1 {[ "aria-owns" := js "mat-autocomplete-0" ]} [] [] in
  let w := mkWorld (mkDocument trigger [trigger]) [] in
  @MatAutocompleteHarness.selectOption simple_backend MatAutocompleteHarness.example_core
    [MatAutocompleteHarness.FilterAncestor (Some (js ".other"))] w =
  (Rejected (mkError (js "Could not find a mat-option matching {" ++ [34] ++ js "ancestor"
                      ++ [34] ++ js ":" ++ [34] ++ js ".other" ++ [34] ++ js "}")),
   mkWorld (mkDocument trigger [trigger])
     [CallFocus 1; CallGetAttribute 1 "aria-owns";
      CallLocateAll (Some (js "#mat-autocomplete-0"))]).
Proof. vm_compute. reflexivity. Qed.

(** ** The autosizing textarea *)

Section AutosizeProperties.
Context `{layout : CdkTextareaAutosize.Layout}.
Import CdkTextareaAutosize.

Lemma setMinHeight_keeps (a : Autosize) :
  let a' := _setMinHeight a in
  _previousValue a' = _previousValue a ∧ _initialHeight a' = _initialHeight a
  ∧ _minRows a' = _minRows a ∧ _maxRows a' = _maxRows a ∧ _enabled a' = _enabled a
  ∧ _previousMinRows a' = _previousMinRows a ∧ _cachedLineHeight a' = _cachedLineHeight a
  ∧ isBrowser a' = isBrowser a ∧ _measuringClass a' = _measuringClass a
  ∧ frames_requested a' = frames_requested a
  ∧ value (textarea a') = value (textarea a)
  ∧ placeholder (textarea a') = placeholder (textarea a)
  ∧ classList (textarea a') = classList (textarea a)
  ∧ style_height (textarea a') = style_height (textarea a)
  ∧ style_maxHeight (textarea a') = style_maxHeight (textarea a).
Proof.
  cbv zeta. unfold _setMinHeight.
  destruct a as [pv ih [rows|] xr en pm [line|] br mc t fr]; simpl; try done.
  by destruct (negb (rows =? 0)%Z && negb (line =? 0)%Z).
Qed.

Lemma setMaxHeight_keeps (a : Autosize) :
  let a' := _setMaxHeight a in
  _previousValue a' = _previousValue a ∧ _initialHeight a' = _initialHeight a
  ∧ _minRows a' = _minRows a ∧ _maxRows a' = _maxRows a ∧ _enabled a' = _enabled a
  ∧ _previousMinRows a' = _previousMinRows a ∧ _cachedLineHeight a' = _cachedLineHeight a
  ∧ isBrowser a' = isBrowser a ∧ _measuringClass a' = _measuringClass a
  ∧ frames_requested a' = frames_requested a
  ∧ value (textarea a') = value (textarea a)
  ∧ placeholder (textarea a') = placeholder (textarea a)
  ∧ classList (textarea a') = classList (textarea a)
  ∧ style_height (textarea a') = style_height (textarea a)
  ∧ style_minHeight (textarea a') = style_minHeight (textarea a).
Proof.
  cbv zeta. unfold _setMaxHeight.
  destruct a as [pv ih mr [rows|] en pm [line|] br mc t fr]; simpl; try done.
  by destruct (negb (rows =? 0)%Z && negb (line =? 0)%Z).
Qed.

Lemma setHeights_unchanged_without_line (a : Autosize) :
  truthy_number (_cachedLineHeight a) = false →
  _setMinHeight a = a ∧ _setMaxHeight a = a.
Proof.
  unfold _setMinHeight, _setMaxHeight.
  destruct a as [pv ih [mr|] [xr|] en pm [line|] br mc t fr]; simpl; intros Hline;
    rewrite ?Hline, ?andb_false_r; done.
Qed.

Lemma cache_keeps (a : Autosize) :
  let a' := _cacheTextareaLineHeight a in
  _previousValue a' = _previousValue a ∧ _initialHeight a' = _initialHeight a
  ∧ _minRows a' = _minRows a ∧ _maxRows a' = _maxRows a ∧ _enabled a' = _enabled a
  ∧ _previousMinRows a' = _previousMinRows a
  ∧ isBrowser a' = isBrowser a ∧ _measuringClass a' = _measuringClass a
  ∧ frames_requested a' = frames_requested a
  ∧ value (textarea a') = value (textarea a)
  ∧ placeholder (textarea a') = placeholder (textarea a)
  ∧ classList (textarea a') = classList (textarea a)
  ∧ style_height (textarea a') = style_height (textarea a).
Proof.
  cbv zeta. unfold _cacheTextareaLineHeight.
  destruct (truthy_number (_cachedLineHeight a)); [done|].
  match goal with |- context [_setMaxHeight (_setMinHeight ?x)] =>
    pose proof (setMinHeight_keeps x) as Hmin;
    pose proof (setMaxHeight_keeps (_setMinHeight x)) as Hmax
  end.
  cbv zeta in Hmin, Hmax.
  destruct Hmin as (?&?&?&?&?&?&?&?&?&?&?&?&?&?&?).
  destruct Hmax as (?&?&?&?&?&?&?&?&?&?&?&?&?&?&?).
  cbn [_previousValue _initialHeight _minRows _maxRows _enabled _previousMinRows
       isBrowser _measuringClass frames_requested textarea] in *.
  repeat split; congruence.
Qed.

Lemma cache_again (a : Autosize) :
  _cacheTextareaLineHeight (_cacheTextareaLineHeight a) = _cacheTextareaLineHeight a.
Proof.
  destruct (truthy_number (_cachedLineHeight (_cacheTextareaLineHeight a))) eqn:Hafter.
  { set (b := _cacheTextareaLineHeight a) in *.
    unfold _cacheTextareaLineHeight at 1. by rewrite Hafter. }
  assert (Hbefore : truthy_number (_cachedLineHeight a) = false).
  { destruct (truthy_number (_cachedLineHeight a)) eqn:Hline; [|done].
    unfold _cacheTextareaLineHeight in Hafter. rewrite Hline in Hafter. congruence. }
  assert (Hsame : _cacheTextareaLineHeight a =
    mkAutosize (_previousValue a) (_initialHeight a) (_minRows a) (_maxRows a)
      (_enabled a) (_previousMinRows a) (Some (clone_clientHeight (textarea a)))
      (isBrowser a) (_measuringClass a) (textarea a) (frames_requested a)).
  { unfold _cacheTextareaLineHeight in *. rewrite Hbefore in *.
    match goal with |- _setMaxHeight (_setMinHeight ?x) = _ => set (m := x) in * end.
    destruct (setMinHeight_keeps m) as (_&_&_&_&_&_&Hl1&_).
    destruct (setMaxHeight_keeps (_setMinHeight m)) as (_&_&_&_&_&_&Hl2&_).
    rewrite Hl2, Hl1 in Hafter.
    destruct (setHeights_unchanged_without_line m Hafter) as [Hmin Hmax].
    by rewrite Hmin, Hmax. }
  rewrite Hsame in Hafter |- *. cbn [_cachedLineHeight] in Hafter.
  unfold _cacheTextareaLineHeight at 1. cbn [_cachedLineHeight]. rewrite Hafter.
  cbn [textarea _previousValue _initialHeight _minRows _maxRows
       _enabled _previousMinRows isBrowser _measuringClass frames_requested].
  match goal with |- _setMaxHeight (_setMinHeight ?x) = _ => set (m := x) in * end.
  destruct (setHeights_unchanged_without_line m Hafter) as [Hmin Hmax].
  by rewrite Hmin, Hmax.
Qed.

(** Nothing is left to do for a resize that is not forced. *)
Definition settled (r : Autosize) : Prop :=
  _enabled r = false
  ∨ (_cacheTextareaLineHeight r = r ∧ truthy_number (_cachedLineHeight r) = false)
  ∨ (truthy_number (_cachedLineHeight r) = true
     ∧ _minRows r = _previousMinRows r
     ∧ Some (value (textarea r)) = _previousValue r).

Lemma settled_fixed (r : Autosize) : settled r → resizeToFitContent false r = r.
Proof.
  unfold resizeToFitContent.
  intros [Hen|[[Hc Hline]|(Hline & Hmr & Hval)]].
  - by rewrite Hen.
  - destruct (negb (_enabled r)); [done|]. by rewrite Hc, Hline.
  - destruct (negb (_enabled r)); [done|].
    assert (Hc : _cacheTextareaLineHeight r = r).
    { unfold _cacheTextareaLineHeight. by rewrite Hline. }
    rewrite Hc, Hline. cbv zeta. by rewrite !bool_decide_true.
Qed.

Lemma resize_settles (force : bool) (a : Autosize) : settled (resizeToFitContent force a).
Proof.
  unfold resizeToFitContent.
  destruct (_enabled a) eqn:Hen; cbn [negb]; [|by left].
  set (b := _cacheTextareaLineHeight a).
  assert (Hb : _cacheTextareaLineHeight b = b) by apply cache_again.
  destruct (truthy_number (_cachedLineHeight b)) eqn:Hline; cbn [negb];
    [|right; left; done].
  cbv zeta.
  destruct (negb force && bool_decide (_minRows b = _previousMinRows b)
            && bool_decide (Some (value (textarea b)) = _previousValue b)) eqn:Hmemo.
  - apply andb_true_iff in Hmemo as [Hmemo H2]. apply andb_true_iff in Hmemo as [_ H1].
    apply bool_decide_eq_true in H1, H2. right; right. done.
  - right; right. cbn. done.
Qed.


Lemma resize_keeps (force : bool) (a : Autosize) :
  let a' := resizeToFitContent force a in
  _initialHeight a' = _initialHeight a
  ∧ _enabled a' = _enabled a
  ∧ isBrowser a' = isBrowser a
  ∧ _measuringClass a' = _measuringClass a
  ∧ _minRows a' = _minRows a ∧ _maxRows a' = _maxRows a
  ∧ value (textarea a') = value (textarea a)
  ∧ placeholder (textarea a') = placeholder (textarea a)
  ∧ (classList (textarea a') = classList (textarea a)
     ∨ classList (textarea a') = classList (textarea a) ∖ {[ _measuringClass a ]}).
Proof.
  cbv zeta. unfold resizeToFitContent.
  destruct (negb (_enabled a)); [by repeat split; try left|].
  destruct (cache_keeps a) as (_ & Hih & Hmr & Hxr & Hen & _ & Hbr & Hmc & _ & Hv & Hp & Hcl & _).
  set (b := _cacheTextareaLineHeight a) in *.
  destruct (negb (truthy_number (_cachedLineHeight b)));
    [by repeat split; try left|].
  cbv zeta. destruct (_ && _ && _); [by repeat split; try left|].
  cbn. repeat split; try done. right. rewrite Hcl, Hmc.
  apply set_eq. intros c. rewrite !elem_of_difference, elem_of_union. tauto.
Qed.

(** X23: a resize leaves the element's value and placeholder as they
    were, also when it measured with the placeholder taken out; of the
    classes only the measuring class can go, and an element that did not
    carry it has the same classes afterwards; the measuring class is
    never added for good. *)
Theorem resize_restores_element (force : bool) (a : Autosize) :
  let a' := resizeToFitContent force a in
  value (textarea a') = value (textarea a)
  ∧ placeholder (textarea a') = placeholder (textarea a)
  ∧ classList (textarea a') ⊆ classList (textarea a)
  ∧ (∀ c, c ≠ _measuringClass a → c ∈ classList (textarea a) → c ∈ classList (textarea a'))
  ∧ (_measuringClass a ∉ classList (textarea a) →
     classList (textarea a') = classList (textarea a)).
Proof.
  cbv zeta. destruct (resize_keeps force a) as (_&_&_&_&_&_& Hv & Hp & Hcl).
  split; [done|]. split; [done|].
  destruct Hcl as [-> | ->].
  - split; [done|]. split; [by intros|]. done.
  - split; [set_solver|]. split; [set_solver|]. intros Hno. set_solver.
Qed.

Lemma step_keeps (s : Step) (a : Autosize) :
  _initialHeight (step s a) = _initialHeight a ∧ _enabled (step s a) = _enabled a.
Proof.
  destruct s as [text| |force|rows|rows]; simpl.
  - done.
  - unfold ngDoCheck. destruct (isBrowser a); [|done].
    destruct (resize_keeps false a) as (? & ? & _). done.
  - destruct (resize_keeps force a) as (? & ? & _). done.
  - unfold set_minRows.
    match goal with |- context [_setMinHeight ?x] =>
      destruct (setMinHeight_keeps x) as (_ & ? & _ & _ & ? & _) end. done.
  - unfold set_maxRows.
    match goal with |- context [_setMaxHeight ?x] =>
      destruct (setMaxHeight_keeps x) as (_ & ? & _ & _ & ? & _) end. done.
Qed.

Lemma steps_keep (l : list Step) (a : Autosize) :
  _initialHeight (steps l a) = _initialHeight a ∧ _enabled (steps l a) = _enabled a.
Proof.
  unfold steps. revert a. induction l as [|s l IH]; intros a; simpl; [done|].
  destruct (IH (step s a)) as [-> ->]. apply step_keeps.
Qed.

(** X24: turning autosizing off gives the element back the height it
    had when the view was initialised, whatever was typed, resized or
    checked in between and whatever [minRows] and [maxRows] were set
    to. *)
Theorem disabling_restores_initial_height (a0 : Autosize) (l : list Step) :
  isBrowser a0 = true → _enabled a0 = true →
  style_height (textarea (set_enabled false (steps l (ngAfterViewInit a0)))) =
  style_height (textarea a0).
Proof.
  intros Hbr Hen.
  destruct (steps_keep l (ngAfterViewInit a0)) as [Hih Hen'].
  assert (Hinit : _initialHeight (ngAfterViewInit a0) = Some (style_height (textarea a0))
                  ∧ _enabled (ngAfterViewInit a0) = true).
  { unfold ngAfterViewInit. rewrite Hbr.
    match goal with |- context [resizeToFitContent false ?x] =>
      destruct (resize_keeps false x) as (-> & -> & _) end. done. }
  destruct Hinit as [Hi He]. rewrite Hi in Hih. rewrite He in Hen'.
  unfold set_enabled. rewrite Hen'. cbn [Bool.eqb negb].
  unfold reset. cbn [_initialHeight textarea]. by rewrite Hih.
Qed.

(** X25: the minimum height is written, never cleared.  With a line
    height known, a whole number of rows and a line height that are both
    positive and whose product is at most 2^53, [set minRows] assigns
    [rows * line] pixels to the min-height; set to 0, or set while no
    line height is known, it leaves the min-height the element has.  A
    [minRows] set before the line height is known takes effect at the
    first resize that measures a line. *)
Theorem minRows_written_never_cleared (a : Autosize) :
  style_minHeight (textarea (set_minRows 0 a)) = style_minHeight (textarea a)
  ∧ (truthy_number (_cachedLineHeight a) = false →
     ∀ rows, style_minHeight (textarea (set_minRows rows a)) = style_minHeight (textarea a))
  ∧ (∀ rows line, _cachedLineHeight a = Some line →
     (0 < rows)%Z → (0 < line)%Z → (rows * line ≤ 2 ^ 53)%Z →
     style_minHeight (textarea (set_minRows rows a)) = px (rows * line))
  ∧ (∀ rows force, truthy_number (_cachedLineHeight a) = false → _enabled a = true →
     (0 < rows)%Z → (0 < clone_clientHeight (textarea a))%Z →
     (rows * clone_clientHeight (textarea a) ≤ 2 ^ 53)%Z →
     style_minHeight (textarea (resizeToFitContent force (set_minRows rows a))) =
     px (rows * clone_clientHeight (textarea a))).
Proof.
  split; [|split; [|split]].
  - unfold set_minRows, _setMinHeight. cbn. by destruct (_cachedLineHeight a).
  - intros Hline rows. unfold set_minRows.
    match goal with |- context [_setMinHeight ?x] =>
      destruct (setHeights_unchanged_without_line x Hline) as [-> _] end. done.
  - intros rows line Hl Hr Hn _. unfold set_minRows, _setMinHeight. cbn. rewrite Hl. cbn.
    assert (Hr' : (rows =? 0)%Z = false) by (apply Z.eqb_neq; lia).
    assert (Hn' : (line =? 0)%Z = false) by (apply Z.eqb_neq; lia).
    by rewrite Hr', Hn'.
  - intros rows force Hline Hen Hr Hclone _.
    assert (Hr' : (rows =? 0)%Z = false) by (apply Z.eqb_neq; lia).
    assert (Hclone' : (clone_clientHeight (textarea a) =? 0)%Z = false)
      by (apply Z.eqb_neq; lia).
    unfold set_minRows.
    match goal with |- context [_setMinHeight ?x] =>
      destruct (setHeights_unchanged_without_line x Hline) as [-> _]; set (m := x) end.
    unfold resizeToFitContent. cbn [_enabled m]. subst m. cbn [_enabled]. rewrite Hen.
    cbn [negb].
    match goal with |- context [_cacheTextareaLineHeight ?x] => set (m := x) end.
    assert (Hmin : style_minHeight (textarea (_cacheTextareaLineHeight m)) =
                   px (rows * clone_clientHeight (textarea a))).
    { unfold _cacheTextareaLineHeight. subst m. cbn [_cachedLineHeight]. rewrite Hline.
      cbn [textarea _previousValue _initialHeight _minRows _maxRows _enabled
           _previousMinRows isBrowser _measuringClass frames_requested].
      match goal with |- context [_setMaxHeight ?x] =>
        destruct (setMaxHeight_keeps x) as (_&_&_&_&_&_&_&_&_&_&_&_&_&_& ->) end.
      unfold _setMinHeight. cbn. by rewrite Hr', Hclone'. }
    destruct (negb (truthy_number _)); [done|]. cbv zeta.
    destruct (_ && _ && _); [done|]. cbn. exact Hmin.
Qed.

End AutosizeProperties.

Section AutosizeExample.
Import CdkTextareaAutosize.

Lemma disabling_restores_initial_height_witness :
  let element := mkTextarea (js "one") (js "Type here") ∅ (js "48px") [] [] in
  let a0 := new_autosize false true element in
  let typed := [StepInput [111; 10; 116]; StepDoCheck; StepMinRows 3; StepResize true] in
  style_height (textarea (@steps example_layout typed (@ngAfterViewInit example_layout a0)))
    = js "40px"
  ∧ style_height
      (textarea (@set_enabled example_layout false
                   (@steps example_layout typed (@ngAfterViewInit example_layout a0))))
    = js "48px".
Proof.
  cbv zeta. split; [vm_compute; reflexivity|].
  apply (@disabling_restores_initial_height example_layout); reflexivity.
Defined.

Example minRows_three_rows :
  let element := mkTextarea (js "one") [] ∅ [] [] [] in
  let a := @ngAfterViewInit example_layout (new_autosize false true element) in
  _cachedLineHeight a = Some 20%Z
  ∧ style_minHeight (textarea (set_minRows 3 a)) = js "60px"
  ∧ style_minHeight (textarea (set_minRows 0 (set_minRows 3 a))) = js "60px".
Proof. cbv zeta. repeat split; vm_compute; reflexivity. Qed.

End AutosizeExample.

(** ** Classes and options of the Protractor element, further *)

Section ProtractorElementFurther.
Import ProtractorElement.

(** X26: the indices of [selectOptions] count as a set: two calls whose
    index lists hold the same numbers, in whatever order and however
    often repeated, send the same actions. *)
Theorem selectOptions_order_and_repeats (this : ElementFinder)
  (indexes1 indexes2 : list Z) (log : list BrowserAction) :
  (∀ i, i ∈ indexes1 ↔ i ∈ indexes2) →
  selectOptions this indexes1 log = selectOptions this indexes2 log.
Proof.
  intros Hsame. rewrite !selectOptions_unfold.
  assert (Hnil : indexes1 ≠ [] ↔ indexes2 ≠ []).
  { destruct indexes1 as [|x l1], indexes2 as [|y l2]; try done.
    - assert (Hy : y ∈ @nil Z) by (apply Hsame; left). by apply not_elem_of_nil in Hy.
    - assert (Hx : x ∈ @nil Z) by (apply Hsame; left). by apply not_elem_of_nil in Hx. }
  rewrite (bool_decide_ext (n_options this ≠ 0%nat ∧ indexes1 ≠ [])
             (n_options this ≠ 0%nat ∧ indexes2 ≠ [])) by tauto.
  case_bool_decide; [|done]. do 3 f_equal.
  apply list_filter_iff. intros i. apply Hsame.
Qed.

Lemma selectOptions_order_and_repeats_witness :
  selectOptions (mkFinder (mkElement 0 ∅ [] []) 4) [2; 0; 2]%Z [] =
  selectOptions (mkFinder (mkElement 0 ∅ [] []) 4) [0; 2]%Z [].
Proof.
  apply selectOptions_order_and_repeats. intros i.
  rewrite !elem_of_cons. pose proof (not_elem_of_nil i). tauto.
Defined.

Lemma tokens_from_run (s : jsstr) :
  List.filter truthy (split_ws_from [] true s) = List.filter truthy (split_ws_from [] false s).
Proof. destruct s as [|c s]; simpl; [done|]. by destruct (isWhiteSpace c). Qed.

Lemma tokens_from_app (s t cur : jsstr) (inRun : bool) (c : N) :
  isWhiteSpace c = true → (inRun = true → cur = []) →
  List.filter truthy (split_ws_from cur inRun (s ++ c :: t)) =
  List.filter truthy (split_ws_from cur inRun s) ++ List.filter truthy (split_ws t).
Proof.
  intros Hc. revert cur inRun. induction s as [|d s IH]; intros cur inRun Hrun.
  - cbn [app split_ws_from]. rewrite Hc. unfold split_ws.
    rewrite <- tokens_from_run. destruct inRun.
    + by rewrite (Hrun eq_refl).
    + cbn [List.filter]. by destruct (truthy (rev cur)).
  - cbn [app split_ws_from]. destruct (isWhiteSpace d).
    + destruct inRun.
      * by apply IH.
      * cbn [List.filter]. destruct (truthy (rev cur)); rewrite IH by done; done.
    + by apply IH.
Qed.

Lemma tokens_of_name (name : jsstr) :
  name ≠ [] → no_white_space name → List.filter truthy (split_ws name) = [name].
Proof.
  intros Hne Hnows. unfold split_ws.
  assert (H : ∀ cur, split_ws_from cur false name = [rev cur ++ name]).
  { clear Hne. induction Hnows as [|c name Hc _ IH]; intros cur; simpl.
    - by rewrite app_nil_r.
    - rewrite Hc, IH. simpl. by rewrite <- app_assoc. }
  rewrite H. simpl. by destruct name.
Qed.

(** X27: writing a class behind the class attribute, after a space,
    adds that class and changes no other: on the element with the longer
    attribute [hasClass] is true for the added name and, for every other
    name, what it was before.  A missing attribute counts as empty. *)
Theorem hasClass_after_adding (e e' : Element) (added name : jsstr) :
  added ≠ [] → no_white_space added →
  getAttribute e' "class" = Some (or_else (getAttribute e "class") [] ++ 32 :: added) →
  hasClass e' added = true
  ∧ (name ≠ added → hasClass e' name = hasClass e name).
Proof.
  intros Hne Hnows Hattr.
  assert (Hset : classSet e' = classSet e ∪ {[ added ]}).
  { unfold classSet. rewrite Hattr.
    assert (Hor : or_else (Some (or_else (getAttribute e "class") [] ++ 32 :: added)) []
                  = or_else (getAttribute e "class") [] ++ 32 :: added).
    { unfold or_else at 1. by destruct (or_else (getAttribute e "class") []). }
    rewrite Hor. unfold split_ws.
    rewrite (tokens_from_app _ added [] false 32) by done.
    rewrite (tokens_of_name added Hne Hnows), list_to_set_app_L. simpl.
    by rewrite union_empty_r_L. }
  unfold hasClass. rewrite Hset. split.
  - apply bool_decide_true. set_solver.
  - intros Hother. apply bool_decide_ext. set_solver.
Qed.

Lemma hasClass_after_adding_witness :
  hasClass (mkElement 0 {[ "class" := js "mat-button mat-primary" ]} [] [])
    (js "mat-primary") = true
  ∧ (js "mat-button" ≠ js "mat-primary" →
     hasClass (mkElement 0 {[ "class" := js "mat-button mat-primary" ]} [] [])
       (js "mat-button")
     = hasClass (mkElement 0 {[ "class" := js "mat-button" ]} [] []) (js "mat-button")).
Proof.
  apply (hasClass_after_adding
           (mkElement 0 {[ "class" := js "mat-button" ]} [] [])
           (mkElement 0 {[ "class" := js "mat-button mat-primary" ]} [] [])
           (js "mat-primary") (js "mat-button")).
  - discriminate.
  - repeat constructor.
  - reflexivity.
Defined.

End ProtractorElementFurther.
